(** * The flag evaluation engine of ff-golang-server-sdk

    A shallow embedding of [evaluation/evaluator.go] and the properties of
    its evaluation pipeline: clause matching, segment membership, rule and
    override resolution, prerequisite checking and the typed accessors.

    Conventions of the embedding.
    - A Go pointer that the source compares with [nil] is an [option].
    - A pair [(T, error)] returned by a Go function is a pair
      [T * option error]; [None] is the [nil] error.
    - The slice behind [FeatureConfig.Rules] is sorted in place by
      [evaluateRules]; it lives in a store of rule lists and the flag holds
      its location, so that every holder of the flag sees the new order.
    - The recursion of the source through the lookup provider (segments that
      mention segments, prerequisites of prerequisites) has no bound in Go;
      the embedding bounds its depth by a [fuel] argument and answers [None]
      when the bound is reached.
    - Logging has no effect on any result and is left out. *)

From Stdlib Require Import ZArith String Ascii List Bool Lia DecimalString.
From Stdlib Require Import Sorting.Sorted Sorting.Permutation.
From stdpp Require Import gmap strings list.

#[local] Open Scope string_scope.

(** ** Errors *)

(** The sentinel errors of the package and the wrapping done with
    [fmt.Errorf("%w: ...")]; [ErrProvider] stands for whatever error the
    lookup provider returns. *)
Inductive error : Type :=
| ErrQueryProviderMissing
| ErrFlagKindMismatch (expected got : string)
| ErrEvaluationFlag (feature : string)
| ErrVariationNotFound (identifier : string)
| ErrProvider (msg : string)
| ErrDecode (msg : string).

(** ** Values seen through reflection *)

(** The kinds the type switch of [evaluateClause] lists explicitly besides
    [Int], [Int64], [Bool] and [String]. *)
Inductive otherKind : Type :=
| Array | Chan | Complex128 | Complex64 | Func | Interface | Ptr | Slice
| Struct | Uintptr | UnsafePointer | Float32 | Float64 | Int16 | Int32
| Int8 | Map | Uint | Uint16 | Uint32 | Uint64 | Uint8.

Inductive reflectKind : Type :=
| KInvalid | KInt | KInt64 | KBool | KString | KOther (k : otherKind).

(** A [reflect.Value].  A value of any other kind carries the text that
    Go's generic formatting ([%v]) prints for it, which is all a textual
    comparison could use of it. *)
Inductive reflectValue : Type :=
| VInvalid
| VInt (i : Z)
| VInt64 (i : Z)
| VBool (b : bool)
| VString (s : string)
| VOther (k : otherKind) (text : string).

Module reflect.

Definition Kind (v : reflectValue) : reflectKind :=
  match v with
  | VInvalid => KInvalid
  | VInt _ => KInt
  | VInt64 _ => KInt64
  | VBool _ => KBool
  | VString _ => KString
  | VOther k _ => KOther k
  end.

Definition IsValid (v : reflectValue) : bool :=
  match v with VInvalid => false | _ => true end.

Definition Int (v : reflectValue) : Z :=
  match v with VInt i | VInt64 i => i | _ => 0%Z end.

Definition Bool (v : reflectValue) : bool :=
  match v with VBool b => b | _ => false end.

Definition String (v : reflectValue) : string :=
  match v with VString s => s | _ => "" end.

(** What [fmt.Sprintf("%v", x)] prints for the value [x] held by [v]. *)
Definition Text (v : reflectValue) : string :=
  match v with
  | VInvalid => "<invalid reflect.Value>"
  | VInt i | VInt64 i => NilZero.string_of_int (Z.to_int i)
  | VBool b => if b then "true" else "false"
  | VString s => s
  | VOther _ text => text
  end.

End reflect.

(** ** The data model: package [rest] and [Target]

    The declarations of these types are outside [evaluator.go]; each
    record has the fields [evaluator.go] reads, at the types it reads them
    at, under the names of the source. *)

Definition loc := positive.

Module rest.

Module Variation.
Record t : Type := mk { Identifier : string; Value : string }.
End Variation.

Module Clause.
Record t : Type := mk
  { Attribute : string; Op : string; Values : list string }.
End Clause.

Module WeightedVariation.
Record t : Type := mk { Variation : string; Weight : Z }.
End WeightedVariation.

Module Distribution.
Record t : Type := mk
  { BucketBy : string; Variations : list WeightedVariation.t }.
End Distribution.

Module Serve.
Record t : Type := mk
  { Distribution : option Distribution.t; Variation : option string }.
End Serve.

Module ServingRule.
Record t : Type := mk
  { Priority : Z; Clauses : list Clause.t; Serve : Serve.t }.
End ServingRule.

(** The targets listed by segments. *)
Module Target.
Record t : Type := mk { Identifier : string; Name : string }.
End Target.

(** The targets listed by an override entry; [Identifier] is a [*string]
    that the source dereferences without a test, the model keeps the
    string it points to. *)
Module TargetMap.
Record t : Type := mk { Identifier : string; Name : string }.
End TargetMap.

Module VariationMap.
Record t : Type := mk
  { Variation : string;
    Targets : option (list TargetMap.t);
    TargetSegments : option (list string) }.
End VariationMap.

Module Prerequisite.
Record t : Type := mk { Feature : string; Variations : list string }.
End Prerequisite.

Module Segment.
Record t : Type := mk
  { Identifier : string;
    Name : string;
    Excluded : option (list Target.t);
    Included : option (list Target.t);
    Rules : option (list Clause.t) }.
End Segment.

Definition FeatureStateOn : string := "on".
Definition FeatureStateOff : string := "off".

(** [Rules] is a [*[]ServingRule]: [None] is the nil pointer, [Some l] the
    location of the rule list in the store. *)
Module FeatureConfig.
Record t : Type := mk
  { Feature : string;
    Kind : string;
    State : string;
    Variations : list Variation.t;
    OffVariation : string;
    DefaultServe : Serve.t;
    Rules : option loc;
    VariationToTargetMap : option (list VariationMap.t);
    Prerequisites : option (list Prerequisite.t) }.
End FeatureConfig.

End rest.

(** The target of an evaluation request. *)
Module Target.
Record t : Type := mk
  { Identifier : string;
    Name : string;
    Anonymous : option bool;
    Attributes : option (list (string * reflectValue)) }.
End Target.

(** The store of rule lists.  A location without a list is a nil slice. *)
Abbreviation Heap := (gmap loc (list rest.ServingRule.t)).

(** ** The collaborators of the engine *)

Module Query.
Record t : Type := mk
  { GetSegment : string -> rest.Segment.t * option error;
    GetFlag : string -> rest.FeatureConfig.t * option error }.
End Query.

Module PostEvalData.
Record t : Type := mk
  { FeatureConfig : rest.FeatureConfig.t;
    Target : option Target.t;
    Variation : rest.Variation.t }.
End PostEvalData.

(** [postEvalCallback] tells whether a callback is registered; the calls
    made to it are part of the result of [evaluate]. *)
Module Evaluator.
Record t : Type := mk
  { query : option Query.t;
    postEvalCallback : bool }.
End Evaluator.

(** What the engine calls outside [evaluator.go]: functions of the Go
    standard library that are not modelled here, and two helpers of the
    package whose source is not part of this development.  Every theorem
    holds for all of them. *)
Module Runtime.
Record t : Type := mk
  { float64 : Type;
    jsonObject : Type;
    regexpMatchString : string -> string -> bool * option error;
    stringsEqualFold : string -> string -> bool;
    stringsToLower : string -> string;
    strconvAtoi : string -> Z * option error;
    strconvParseFloat : string -> float64 * option error;
    jsonUnmarshal : string -> jsonObject * option error;
    getAttrValue : option Target.t -> string -> reflectValue;
    evaluateDistribution :
      option rest.Distribution.t -> option Target.t -> string }.
End Runtime.

Existing Class Runtime.t.

(** ** Go's string functions *)

Module strings.

Definition HasPrefix (s pre : string) : bool := String.prefix pre s.

Definition HasSuffix (s suffix : string) : bool :=
  let n := String.length s in
  let k := String.length suffix in
  (k <=? n)%nat && String.eqb (String.substring (n - k) k s) suffix.

Definition Contains (s substr : string) : bool :=
  match String.index 0 substr s with Some _ => true | None => false end.

End strings.

Module strconv.

(** [strconv.FormatInt(i, 10)]. *)
Definition FormatInt (i : Z) : string := NilZero.string_of_int (Z.to_int i).

Definition FormatBool (b : bool) : string :=
  if b then "true" else "false".

End strconv.

(** [fmt.Sprintf("%v", s)] for a Go string [s] is [s]. *)
Definition fmtSprintf_v (s : string) : string := s.

(** ** Helpers of the package that live outside [evaluator.go] *)

(** Modelled from the spec: [findVariation] is not in [evaluator.go].
    "Look up the resolved variation identifier in the flag's variation
    list; if absent, fail with VariationNotFound." *)
Fixpoint findVariation (variations : list rest.Variation.t)
    (identifier : string) : rest.Variation.t * option error :=
  match variations with
  | [] => (rest.Variation.mk "" "", Some (ErrVariationNotFound identifier))
  | variation :: variations' =>
      if String.eqb (rest.Variation.Identifier variation) identifier
      then (variation, None)
      else findVariation variations' identifier
  end.

(** Modelled from the spec: [isTargetInList] is not in [evaluator.go].
    "the target is in it (by identifier)". *)
Definition isTargetInList (target : Target.t)
    (targets : list rest.Target.t) : bool :=
  existsb
    (fun t => String.eqb (rest.Target.Identifier t) (Target.Identifier target))
    targets.

(** Modelled from the spec: [contains] is not in [evaluator.go].
    "check that the resulting variation identifier is among the
    prerequisite's allowed set". *)
Definition contains (s : list string) (e : string) : bool :=
  existsb (fun x => String.eqb x e) s.

(** ** Constants of [evaluator.go] *)

Definition segmentMatchOperator : string := "segmentMatch".
Definition matchOperator : string := "match".
Definition inOperator : string := "in".
Definition equalOperator : string := "equal".
Definition gtOperator : string := "gt".
Definition startsWithOperator : string := "starts_with".
Definition endsWithOperator : string := "ends_with".
Definition containsOperator : string := "contains".
Definition equalSensitiveOperator : string := "equal_sensitive".

(** ** [sort.SliceStable] *)

(** [sort.SliceStable(s, less)] leaves [s] ordered by [less] with the
    elements that [less] does not separate in their original order.  There
    is one such arrangement of [s]; the model builds it by insertion, an
    element going in front of the first one that is not smaller. *)
Section SliceStable.
Context {A : Type} (less : A -> A -> bool).

Fixpoint insertStable (x : A) (s : list A) : list A :=
  match s with
  | [] => [x]
  | y :: s' => if less y x then y :: insertStable x s' else x :: s
  end.

Fixpoint sortSliceStable (s : list A) : list A :=
  match s with
  | [] => []
  | x :: s' => insertStable x (sortSliceStable s')
  end.
End SliceStable.

(** The comparison [evaluateRules] sorts with. *)
Definition lessPriority (a b : rest.ServingRule.t) : bool :=
  (rest.ServingRule.Priority a <? rest.ServingRule.Priority b)%Z.

(** ** The engine *)

Section Engine.
Context {rt : Runtime.t}.

(** *** Below the nil tests

    The functions of this section are methods of [Evaluator] that use
    [e.query] and [target] without a test; [evaluate],
    [evaluateRules] and [evaluateVariationMap] call them after theirs,
    so they take the provider and a target that is not nil. *)
Section WithQuery.
Context (query : Query.t).

(** Lines 90-106 of [evaluateClause]: the text compared with the
    clause's values.  [object] is the empty string when the switch is
    entered, and the last two branches format [object] itself. *)
Definition clauseObject (attrValue : reflectValue) : string :=
  let object := "" in
  match reflect.Kind attrValue with
  | KInt | KInt64 => strconv.FormatInt (reflect.Int attrValue)
  | KBool => strconv.FormatBool (reflect.Bool attrValue)
  | KString => reflect.String attrValue
  | KOther _ | KInvalid => fmtSprintf_v object
  end.

(** [evaluateClause], with the segment resolver it delegates to as an
    argument. *)
Definition evaluateClauseWith
    (segments : list string -> Target.t -> option bool)
    (clause : option rest.Clause.t) (target : Target.t) : option bool :=
  match clause with
  | None => Some false
  | Some clause =>
    let values := rest.Clause.Values clause in
    match values with
    | [] => Some false
    | value :: _ =>
      let operator := rest.Clause.Op clause in
      if String.eqb operator "" then Some false else
      let attrValue :=
        Runtime.getAttrValue rt (Some target) (rest.Clause.Attribute clause) in
      if negb (String.eqb operator segmentMatchOperator)
         && negb (reflect.IsValid attrValue)
      then Some false else
      let object := clauseObject attrValue in
      if String.eqb operator startsWithOperator then
        Some (strings.HasPrefix object value)
      else if String.eqb operator endsWithOperator then
        Some (strings.HasSuffix object value)
      else if String.eqb operator matchOperator then
        match Runtime.regexpMatchString rt value object with
        | (_, Some _) => Some false
        | (found, None) => Some found
        end
      else if String.eqb operator containsOperator then
        Some (strings.Contains object value)
      else if String.eqb operator equalOperator then
        Some (Runtime.stringsEqualFold rt object value)
      else if String.eqb operator equalSensitiveOperator then
        Some (String.eqb object value)
      else if String.eqb operator inOperator then
        Some (existsb (fun val => String.eqb val object) values)
      else if String.eqb operator gtOperator then
        Some (String.ltb value object)
      else if String.eqb operator segmentMatchOperator then
        segments values target
      else Some false
    end
  end.

Fixpoint evaluateClausesWith
    (segments : list string -> Target.t -> option bool)
    (clauses : list rest.Clause.t) (target : Target.t) : option bool :=
  match clauses with
  | [] => Some true
  | clause :: clauses' =>
    b ← evaluateClauseWith segments (Some clause) target;
    if negb b then Some false
    else evaluateClausesWith segments clauses' target
  end.

(** One turn of the loop of [isTargetIncludedOrExcludedInSegment] is
    the body of [loop]; [fuel] counts how deep segments may refer to
    segments. *)
Fixpoint isTargetIncludedOrExcludedInSegment (fuel : nat)
    (segmentList : list string) (target : Target.t) {struct fuel}
    : option bool :=
  match fuel with
  | O => None
  | S fuel' =>
    (fix loop (segmentList : list string) : option bool :=
       match segmentList with
       | [] => Some false
       | segmentIdentifier :: segmentList' =>
         match Query.GetSegment query segmentIdentifier with
         | (_, Some _) => Some false
         | (segment, None) =>
           if match rest.Segment.Excluded segment with
              | Some excluded => isTargetInList target excluded
              | None => false
              end
           then Some false
           else if match rest.Segment.Included segment with
                   | Some included => isTargetInList target included
                   | None => false
                   end
           then Some true
           else
             match rest.Segment.Rules segment with
             | None => loop segmentList'
             | Some rules =>
               match evaluateClausesWith
                       (isTargetIncludedOrExcludedInSegment fuel')
                       rules target with
               | None => None
               | Some true => Some true
               | Some false => loop segmentList'
               end
             end
         end
       end) segmentList
  end.

Definition evaluateClause (fuel : nat) :=
  evaluateClauseWith (isTargetIncludedOrExcludedInSegment fuel).

Definition evaluateClauses (fuel : nat) :=
  evaluateClausesWith (isTargetIncludedOrExcludedInSegment fuel).

Definition evaluateRule (fuel : nat) (servingRule : rest.ServingRule.t)
    (target : Target.t) : option bool :=
  evaluateClauses fuel (rest.ServingRule.Clauses servingRule) target.

(** The loop of [evaluateRules] over the sorted rules. *)
Fixpoint firstRuleOutcome (fuel : nat)
    (servingRules : list rest.ServingRule.t) (target : Target.t)
    : option string :=
  match servingRules with
  | [] => Some ""
  | rule :: servingRules' =>
    b ← evaluateRule fuel rule target;
    if negb b then firstRuleOutcome fuel servingRules' target
    else
      match rest.Serve.Distribution (rest.ServingRule.Serve rule) with
      | Some distribution =>
        Some (Runtime.evaluateDistribution rt (Some distribution)
                (Some target))
      | None =>
        match rest.Serve.Variation (rest.ServingRule.Serve rule) with
        | Some variation => Some variation
        | None => firstRuleOutcome fuel servingRules' target
        end
      end
  end.

(** [servingRules] is the slice [*fc.Rules], that is the location of
    its elements; the sort writes them back before the loop reads
    them. *)
Definition evaluateRules (fuel : nat) (servingRules : loc)
    (target : option Target.t) (h : Heap) : option (string * Heap) :=
  match target, h !! servingRules with
  | None, _ | _, None => Some ("", h)
  | Some target, Some rules =>
    let sorted := sortSliceStable lessPriority rules in
    let h := <[servingRules := sorted]> h in
    variation ← firstRuleOutcome fuel sorted target;
    Some (variation, h)
  end.

Fixpoint evaluateVariationMapLoop (fuel : nat)
    (variationsMap : list rest.VariationMap.t) (target : Target.t)
    : option string :=
  match variationsMap with
  | [] => Some ""
  | variationMap :: variationsMap' =>
    if match rest.VariationMap.Targets variationMap with
       | Some targets =>
         existsb
           (fun t =>
              negb (String.eqb (rest.TargetMap.Identifier t) "")
              && String.eqb (rest.TargetMap.Identifier t)
                   (Target.Identifier target))
           targets
       | None => false
       end
    then Some (rest.VariationMap.Variation variationMap)
    else
      match match rest.VariationMap.TargetSegments variationMap with
            | Some segmentIdentifiers =>
              isTargetIncludedOrExcludedInSegment fuel segmentIdentifiers
                target
            | None => Some false
            end with
      | None => None
      | Some true => Some (rest.VariationMap.Variation variationMap)
      | Some false => evaluateVariationMapLoop fuel variationsMap' target
      end
  end.

Definition evaluateVariationMap (fuel : nat)
    (variationsMap : list rest.VariationMap.t)
    (target : option Target.t) : option string :=
  match target with
  | None => Some ""
  | Some target => evaluateVariationMapLoop fuel variationsMap target
  end.

(** The last three lines of [evaluateFlag]. *)
Definition serveVariation (fc : rest.FeatureConfig.t)
    (variation : string) : rest.Variation.t * option error :=
  if negb (String.eqb variation "") then
    findVariation (rest.FeatureConfig.Variations fc) variation
  else
    (rest.Variation.mk "" "",
     Some (ErrEvaluationFlag (rest.FeatureConfig.Feature fc))).

Definition evaluateFlag (fuel : nat) (fc : rest.FeatureConfig.t)
    (target : option Target.t) (h : Heap)
    : option ((rest.Variation.t * option error) * Heap) :=
  if String.eqb (rest.FeatureConfig.State fc) rest.FeatureStateOn then
    variation ← match rest.FeatureConfig.VariationToTargetMap fc with
                | Some variationsMap =>
                  evaluateVariationMap fuel variationsMap target
                | None => Some ""
                end;
    '(variation, h) ←
      (if String.eqb variation "" then
         match rest.FeatureConfig.Rules fc with
         | Some rules => evaluateRules fuel rules target h
         | None => Some (variation, h)
         end
       else Some (variation, h));
    let variation :=
      if String.eqb variation "" then
        Runtime.evaluateDistribution rt
          (rest.Serve.Distribution (rest.FeatureConfig.DefaultServe fc))
          target
      else variation in
    let variation :=
      if String.eqb variation "" then
        match rest.Serve.Variation (rest.FeatureConfig.DefaultServe fc) with
        | Some v => v
        | None => variation
        end
      else variation in
    Some (serveVariation fc variation, h)
  else
    Some (serveVariation fc (rest.FeatureConfig.OffVariation fc), h).
End WithQuery.

(** *** Prerequisites *)

(** The loop of [checkPreRequisite] over [*prerequisites]; [check] is the
    recursive call on the prerequisite flag. *)
Fixpoint checkPreRequisiteLoop (query : Query.t) (fuel : nat)
    (check : rest.FeatureConfig.t -> Heap ->
             option ((bool * option error) * Heap))
    (prerequisites : list rest.Prerequisite.t)
    (target : option Target.t) (h : Heap)
    : option ((bool * option error) * Heap) :=
  match prerequisites with
  | [] => Some ((true, None), h)
  | pre :: prerequisites' =>
    let prereqFeature := rest.Prerequisite.Feature pre in
    match Query.GetFlag query prereqFeature with
    | (_, Some _) => Some ((true, None), h)
    | (prereqFeatureConfig, None) =>
      match evaluateFlag query fuel prereqFeatureConfig target h with
      | None => None
      | Some ((_, Some _), h) => Some ((true, None), h)
      | Some ((prereqEvaluatedVariation, None), h) =>
        let validPrereqVariations := rest.Prerequisite.Variations pre in
        if negb (contains validPrereqVariations
                   (rest.Variation.Identifier prereqEvaluatedVariation))
        then Some ((false, None), h)
        else
          match check prereqFeatureConfig h with
          | None => None
          | Some ((r, _), h) =>
            if negb r then Some ((false, None), h)
            else checkPreRequisiteLoop query fuel check prerequisites'
                   target h
          end
      end
    end
  end.

Fixpoint checkPreRequisite (fuel : nat) (e : Evaluator.t)
    (fc : rest.FeatureConfig.t) (target : option Target.t) (h : Heap)
    {struct fuel} : option ((bool * option error) * Heap) :=
  match fuel with
  | O => None
  | S fuel' =>
    match Evaluator.query e with
    | None => Some ((true, Some ErrQueryProviderMissing), h)
    | Some query =>
      match rest.FeatureConfig.Prerequisites fc with
      | Some prerequisites =>
        checkPreRequisiteLoop query fuel
          (fun prereqFeatureConfig h =>
             checkPreRequisite fuel' e prereqFeatureConfig target h)
          prerequisites target h
      | None => Some ((true, None), h)
      end
    end
  end.

(** *** The orchestrator *)

(** A result of [evaluate]: the pair the Go function returns and the
    calls it made to the post-evaluation callback. *)
Definition Evaluated (A : Type) : Type :=
  (A * list PostEvalData.t) * Heap.

Definition evaluate (fuel : nat) (e : Evaluator.t) (identifier : string)
    (target : option Target.t) (kind : string) (h : Heap)
    : option (Evaluated (rest.Variation.t * option error)) :=
  match Evaluator.query e with
  | None =>
    Some ((rest.Variation.mk "" "", Some ErrQueryProviderMissing), [], h)
  | Some query =>
    match Query.GetFlag query identifier with
    | (_, Some err) => Some ((rest.Variation.mk "" "", Some err), [], h)
    | (flag, None) =>
      if negb (String.eqb (rest.FeatureConfig.Kind flag) kind) then
        Some ((rest.Variation.mk "" "",
               Some (ErrFlagKindMismatch kind (rest.FeatureConfig.Kind flag))),
              [], h)
      else
        '(prereq, err, h) ←
          match rest.FeatureConfig.Prerequisites flag with
          | Some _ => checkPreRequisite fuel e flag target h
          | None => Some ((true, None), h)
          end;
        if match err with Some _ => true | None => false end || negb prereq
        then
          Some (findVariation (rest.FeatureConfig.Variations flag)
                  (rest.FeatureConfig.OffVariation flag), [], h)
        else
          '(variation, err, h) ← evaluateFlag query fuel flag target h;
          match err with
          | Some err => Some ((rest.Variation.mk "" "", Some err), [], h)
          | None =>
            Some ((variation, None),
                  if Evaluator.postEvalCallback e
                  then [PostEvalData.mk flag target variation]
                  else [],
                  h)
          end
    end
  end.

(** *** The typed accessors *)

Definition BoolVariation (fuel : nat) (e : Evaluator.t)
    (identifier : string) (target : option Target.t) (defaultValue : bool)
    (h : Heap) : option (Evaluated bool) :=
  '(variation, err, calls, h) ← evaluate fuel e identifier target "boolean" h;
  match err with
  | Some _ => Some (defaultValue, calls, h)
  | None =>
    Some (String.eqb
            (Runtime.stringsToLower rt (rest.Variation.Value variation))
            "true",
          calls, h)
  end.

Definition StringVariation (fuel : nat) (e : Evaluator.t)
    (identifier : string) (target : option Target.t)
    (defaultValue : string) (h : Heap) : option (Evaluated string) :=
  '(variation, err, calls, h) ← evaluate fuel e identifier target "string" h;
  match err with
  | Some _ => Some (defaultValue, calls, h)
  | None => Some (rest.Variation.Value variation, calls, h)
  end.

Definition IntVariation (fuel : nat) (e : Evaluator.t)
    (identifier : string) (target : option Target.t) (defaultValue : Z)
    (h : Heap) : option (Evaluated Z) :=
  '(variation, err, calls, h) ← evaluate fuel e identifier target "int" h;
  match err with
  | Some _ => Some (defaultValue, calls, h)
  | None =>
    match Runtime.strconvAtoi rt (rest.Variation.Value variation) with
    | (_, Some _) => Some (defaultValue, calls, h)
    | (val, None) => Some (val, calls, h)
    end
  end.

Definition NumberVariation (fuel : nat) (e : Evaluator.t)
    (identifier : string) (target : option Target.t)
    (defaultValue : Runtime.float64 rt) (h : Heap)
    : option (Evaluated (Runtime.float64 rt)) :=
  '(variation, err, calls, h) ← evaluate fuel e identifier target "int" h;
  match err with
  | Some _ => Some (defaultValue, calls, h)
  | None =>
    match Runtime.strconvParseFloat rt (rest.Variation.Value variation) with
    | (_, Some _) => Some (defaultValue, calls, h)
    | (val, None) => Some (val, calls, h)
    end
  end.

Definition JSONVariation (fuel : nat) (e : Evaluator.t)
    (identifier : string) (target : option Target.t)
    (defaultValue : Runtime.jsonObject rt) (h : Heap)
    : option (Evaluated (Runtime.jsonObject rt)) :=
  '(variation, err, calls, h) ← evaluate fuel e identifier target "json" h;
  match err with
  | Some _ => Some (defaultValue, calls, h)
  | None =>
    match Runtime.jsonUnmarshal rt (rest.Variation.Value variation) with
    | (_, Some _) => Some (defaultValue, calls, h)
    | (val, None) => Some (val, calls, h)
    end
  end.
End Engine.

(** ** Vocabulary of the statements *)

(** The precedence rule in the words of the specification: of the results
    of the stages, in order, the first that is not empty, and the empty
    string when there is none. *)
Fixpoint firstNonEmpty (results : list string) : string :=
  match results with
  | [] => ""
  | r :: results' => if String.eqb r "" then firstNonEmpty results' else r
  end.

Definition inExcluded (segment : rest.Segment.t) (target : Target.t) : bool :=
  match rest.Segment.Excluded segment with
  | Some excluded => isTargetInList target excluded
  | None => false
  end.

Definition inIncluded (segment : rest.Segment.t) (target : Target.t) : bool :=
  match rest.Segment.Included segment with
  | Some included => isTargetInList target included
  | None => false
  end.

Definition lePriority (a b : rest.ServingRule.t) : Prop :=
  (rest.ServingRule.Priority a <= rest.ServingRule.Priority b)%Z.

Definition hasPriority (p : Z) (r : rest.ServingRule.t) : bool :=
  (rest.ServingRule.Priority r =? p)%Z.

(** What a store may become: every rule list is as it was, or is the
    stable sort by priority of what it was. *)
Definition onlySorted (h h' : Heap) : Prop :=
  forall l : loc,
    h' !! l = h !! l \/
    exists rules, h !! l = Some rules /\
                  h' !! l = Some (sortSliceStable lessPriority rules).

(** The stores [h] and [h'] hold rule lists at the same locations, and
    each list of [h'] is the list of [h] with its rules rearranged, those
    of equal priority in the order they had. *)
Definition sameRulesReordered (h h' : Heap) : Prop :=
  forall l : loc,
    match h !! l with
    | Some rules =>
      exists rules',
        h' !! l = Some rules' /\
        Permutation rules' rules /\
        forall p, List.filter (hasPriority p) rules'
                  = List.filter (hasPriority p) rules
    | None => h' !! l = None
    end.

(** The frame of an evaluation from the store [h] to the store [h'] with
    the callback calls [calls] for the target [target]. *)
Definition framed (target : option Target.t) (h h' : Heap)
    (calls : list PostEvalData.t) : Prop :=
  onlySorted h h' /\
  sameRulesReordered h h' /\
  Forall (fun d => PostEvalData.Target d = target) calls.

(** A segment the loop passes over: found, the target in neither of its
    lists, and its rules, when it has some, not all matching. *)
Definition passedOver {rt : Runtime.t} (query : Query.t) (fuel : nat)
    (target : Target.t) (identifier : string) : Prop :=
  exists segment,
    Query.GetSegment query identifier = (segment, None) /\
    inExcluded segment target = false /\
    inIncluded segment target = false /\
    match rest.Segment.Rules segment with
    | Some rules => evaluateClauses query fuel rules target = Some false
    | None => True
    end.

(** What a matching rule serves: the bucket of its distribution when it
    has one, else its fixed variation. *)
Definition ruleOutcome {rt : Runtime.t} (rule : rest.ServingRule.t)
    (target : Target.t) : option string :=
  match rest.Serve.Distribution (rest.ServingRule.Serve rule) with
  | Some distribution =>
    Some (Runtime.evaluateDistribution rt (Some distribution) (Some target))
  | None => rest.Serve.Variation (rest.ServingRule.Serve rule)
  end.

(** The four stages of an on-state flag, as the specification names
    them. *)
Definition overrideResolver {rt : Runtime.t} (query : Query.t) (fuel : nat)
    (fc : rest.FeatureConfig.t) (target : option Target.t) : option string :=
  match rest.FeatureConfig.VariationToTargetMap fc with
  | Some variationsMap => evaluateVariationMap query fuel variationsMap target
  | None => Some ""
  end.

Definition ruleResolver {rt : Runtime.t} (query : Query.t) (fuel : nat)
    (fc : rest.FeatureConfig.t) (target : option Target.t) (h : Heap)
    : option (string * Heap) :=
  match rest.FeatureConfig.Rules fc with
  | Some rules => evaluateRules query fuel rules target h
  | None => Some ("", h)
  end.

Definition defaultServeDistribution {rt : Runtime.t}
    (fc : rest.FeatureConfig.t) (target : option Target.t) : string :=
  Runtime.evaluateDistribution rt
    (rest.Serve.Distribution (rest.FeatureConfig.DefaultServe fc)) target.

Definition defaultServeVariation (fc : rest.FeatureConfig.t) : string :=
  default "" (rest.Serve.Variation (rest.FeatureConfig.DefaultServe fc)).

(** The flag [fc] with other overrides, and with other prerequisites. *)
Definition withOverrides (fc : rest.FeatureConfig.t)
    (overrides : option (list rest.VariationMap.t)) : rest.FeatureConfig.t :=
  rest.FeatureConfig.mk (rest.FeatureConfig.Feature fc)
    (rest.FeatureConfig.Kind fc) (rest.FeatureConfig.State fc)
    (rest.FeatureConfig.Variations fc) (rest.FeatureConfig.OffVariation fc)
    (rest.FeatureConfig.DefaultServe fc) (rest.FeatureConfig.Rules fc)
    overrides (rest.FeatureConfig.Prerequisites fc).

Definition withPrerequisites (fc : rest.FeatureConfig.t)
    (prerequisites : option (list rest.Prerequisite.t))
    : rest.FeatureConfig.t :=
  rest.FeatureConfig.mk (rest.FeatureConfig.Feature fc)
    (rest.FeatureConfig.Kind fc) (rest.FeatureConfig.State fc)
    (rest.FeatureConfig.Variations fc) (rest.FeatureConfig.OffVariation fc)
    (rest.FeatureConfig.DefaultServe fc) (rest.FeatureConfig.Rules fc)
    (rest.FeatureConfig.VariationToTargetMap fc) prerequisites.

(** The prerequisite check as [evaluate] makes it: only for a flag that
    declares prerequisites. *)
Definition prerequisiteCheck {rt : Runtime.t} (fuel : nat) (e : Evaluator.t)
    (flag : rest.FeatureConfig.t) (target : option Target.t) (h : Heap)
    : option ((bool * option error) * Heap) :=
  match rest.FeatureConfig.Prerequisites flag with
  | Some _ => checkPreRequisite fuel e flag target h
  | None => Some ((true, None), h)
  end.

(** [evaluate] goes on after the check when it returned true and no
    error. *)
Definition prerequisitesHold (r : bool * option error) : bool :=
  match r with
  | (prereq, None) => prereq
  | (_, Some _) => false
  end.

(** Every typed accessor answers the default it was given, with the
    callback calls [calls] and the store [h']. *)
Definition allDefaults {rt : Runtime.t} (fuel : nat) (e : Evaluator.t)
    (identifier : string) (target : option Target.t) (h : Heap)
    (calls : list PostEvalData.t) (h' : Heap) : Prop :=
  (forall d, BoolVariation fuel e identifier target d h
             = Some (d, calls, h')) /\
  (forall d, StringVariation fuel e identifier target d h
             = Some (d, calls, h')) /\
  (forall d, IntVariation fuel e identifier target d h
             = Some (d, calls, h')) /\
  (forall d, NumberVariation fuel e identifier target d h
             = Some (d, calls, h')) /\
  (forall d, JSONVariation fuel e identifier target d h
             = Some (d, calls, h')).

(** The loop of [checkPreRequisite] goes through [prerequisites] to the
    end, from the store [h] to the store [h']: each prerequisite flag is
    found, is evaluated without error to a variation that is allowed, and
    passes its own check. *)
Fixpoint prerequisitesPass {rt : Runtime.t} (query : Query.t) (fuel : nat)
    (e : Evaluator.t) (target : option Target.t)
    (prerequisites : list rest.Prerequisite.t) (h h' : Heap) : Prop :=
  match prerequisites with
  | [] => h' = h
  | pre :: prerequisites' =>
    exists pfc v h1 err h2,
      Query.GetFlag query (rest.Prerequisite.Feature pre) = (pfc, None) /\
      evaluateFlag query (S fuel) pfc target h = Some ((v, None), h1) /\
      contains (rest.Prerequisite.Variations pre)
        (rest.Variation.Identifier v) = true /\
      checkPreRequisite fuel e pfc target h1 = Some ((true, err), h2) /\
      prerequisitesPass query fuel e target prerequisites' h2 h'
  end.

(** Whatever [f] answers, [g] answers too. *)
Definition extends {A B C : Type} (f g : A -> B -> option C) : Prop :=
  forall a b r, f a b = Some r -> g a b = Some r.

(** A provider whose segments refer to one another without a cycle: a
    segment named by a [segmentMatch] clause of the rules of another has a
    smaller rank, and every rank is below [bound]. *)
Definition segmentsRanked (query : Query.t) (rank : string -> nat)
    (bound : nat) : Prop :=
  (forall id, rank id < bound) /\
  forall id segment rules clause id',
    Query.GetSegment query id = (segment, None) ->
    rest.Segment.Rules segment = Some rules ->
    In clause rules ->
    rest.Clause.Op clause = segmentMatchOperator ->
    In id' (rest.Clause.Values clause) ->
    rank id' < rank id.

(** A provider whose flags require one another without a cycle. *)
Definition flagsRanked (query : Query.t)
    (rank : rest.FeatureConfig.t -> nat) : Prop :=
  forall fc prerequisites pre pfc,
    rest.FeatureConfig.Prerequisites fc = Some prerequisites ->
    In pre prerequisites ->
    Query.GetFlag query (rest.Prerequisite.Feature pre) = (pfc, None) ->
    rank pfc < rank fc.

(** An override entry that names the target. *)
Definition listsTarget (variationMap : rest.VariationMap.t)
    (target : Target.t) : bool :=
  match rest.VariationMap.Targets variationMap with
  | Some targets =>
    existsb
      (fun t =>
         negb (String.eqb (rest.TargetMap.Identifier t) "")
         && String.eqb (rest.TargetMap.Identifier t)
              (Target.Identifier target))
      targets
  | None => false
  end.

(** ** A small deployment to run the engine on *)

Module Fixture.

Definition asciiToLower (c : ascii) : ascii :=
  let n := nat_of_ascii c in
  if (65 <=? n)%nat && (n <=? 90)%nat then ascii_of_nat (n + 32) else c.

Fixpoint toLower (s : string) : string :=
  match s with
  | EmptyString => EmptyString
  | String c s' => String (asciiToLower c) (toLower s')
  end.

Definition atoi (s : string) : Z * option error :=
  if String.eqb s "" then (0%Z, Some (ErrDecode "invalid syntax"))
  else match NilZero.int_of_string s with
       | Some i => (Z.of_int i, None)
       | None => (0%Z, Some (ErrDecode "invalid syntax"))
       end.

(** Custom attributes first, then the two built-in fields. *)
Definition attrValue (target : option Target.t) (attr : string)
    : reflectValue :=
  match target with
  | None => VInvalid
  | Some target =>
    match
      List.find (fun kv => String.eqb (fst kv) attr)
        (default [] (Target.Attributes target))
    with
    | Some kv => snd kv
    | None =>
      if String.eqb (toLower attr) "identifier"
      then VString (Target.Identifier target)
      else if String.eqb (toLower attr) "name"
      then VString (Target.Name target)
      else VInvalid
    end
  end.

(** Every target falls in the first bucket. *)
Definition firstBucket (distribution : option rest.Distribution.t)
    (target : option Target.t) : string :=
  match distribution with
  | None => ""
  | Some d =>
    match rest.Distribution.Variations d with
    | [] => ""
    | w :: _ => rest.WeightedVariation.Variation w
    end
  end.

Definition runtime : Runtime.t :=
  {| Runtime.float64 := Z;
     Runtime.jsonObject := list (string * string);
     Runtime.regexpMatchString :=
       fun pattern s => (strings.Contains s pattern, None);
     Runtime.stringsEqualFold :=
       fun a b => String.eqb (toLower a) (toLower b);
     Runtime.stringsToLower := toLower;
     Runtime.strconvAtoi := atoi;
     Runtime.strconvParseFloat := atoi;
     Runtime.jsonUnmarshal :=
       fun s => if String.eqb s "{}" then ([], None)
                else ([], Some (ErrDecode "unexpected input"));
     Runtime.getAttrValue := attrValue;
     Runtime.evaluateDistribution := firstBucket |}.

Definition u1 : Target.t :=
  Target.mk "u1" "User One" None
    (Some [("plan", VString "pro"); ("age", VInt 42);
           ("score", VOther Float64 "1.5")]).

Definition u2 : Target.t := Target.mk "u2" "User Two" None None.

Definition noSegment : rest.Segment.t :=
  rest.Segment.mk "" "" None None None.

Definition planIs (plan : string) : rest.Clause.t :=
  rest.Clause.mk "plan" equalSensitiveOperator [plan].

(** [beta] lists u1, [blocked] lists u1 on both sides, [pro] has a rule,
    [free] has a rule u1 does not match, [staff] lists nobody. *)
Definition getSegment (identifier : string)
    : rest.Segment.t * option error :=
  if String.eqb identifier "beta" then
    (rest.Segment.mk "beta" "Beta" None
       (Some [rest.Target.mk "u1" "User One"]) None, None)
  else if String.eqb identifier "blocked" then
    (rest.Segment.mk "blocked" "Blocked"
       (Some [rest.Target.mk "u1" "User One"])
       (Some [rest.Target.mk "u1" "User One"]) None, None)
  else if String.eqb identifier "pro" then
    (rest.Segment.mk "pro" "Pro" None None (Some [planIs "pro"]), None)
  else if String.eqb identifier "free" then
    (rest.Segment.mk "free" "Free" None None (Some [planIs "free"]), None)
  else if String.eqb identifier "staff" then
    (rest.Segment.mk "staff" "Staff" (Some []) (Some []) None, None)
  else (noSegment, Some (ErrProvider "segment not found")).

Definition ageIn (ages : list string) : rest.Clause.t :=
  rest.Clause.mk "age" inOperator ages.

Definition serveFixed (variation : string) : rest.Serve.t :=
  rest.Serve.mk None (Some variation).

(** Three rules in the order [3; 1; 2] of their priorities; u1 matches the
    last two. *)
Definition rule3 : rest.ServingRule.t :=
  rest.ServingRule.mk 3 [planIs "free"] (serveFixed "three").
Definition rule1 : rest.ServingRule.t :=
  rest.ServingRule.mk 1 [planIs "pro"] (serveFixed "one").
Definition rule2 : rest.ServingRule.t :=
  rest.ServingRule.mk 2 [ageIn ["41"; "42"]] (serveFixed "two").

Definition rulesAt1 : Heap := {[ 1%positive := [rule3; rule1; rule2] ]}.

Definition noFlag : rest.FeatureConfig.t :=
  rest.FeatureConfig.mk "" "" "" [] "" (rest.Serve.mk None None)
    None None None.

(** A provider of the segments only. *)
Definition segments : Query.t :=
  Query.mk getSegment
    (fun _ => (noFlag, Some (ErrProvider "flag not found"))).

Definition onOff : list rest.Variation.t :=
  [rest.Variation.mk "on" "true"; rest.Variation.mk "off" "false"].

(** [Q] is off and serves its off variation "y". *)
Definition flagQ : rest.FeatureConfig.t :=
  rest.FeatureConfig.mk "Q" "string" "off"
    [rest.Variation.mk "x" "ex"; rest.Variation.mk "y" "why"] "y"
    (serveFixed "x") None None None.

(** [P] is on and its override serves "on" to u1; it requires [Q] to
    serve "x". *)
Definition flagP : rest.FeatureConfig.t :=
  rest.FeatureConfig.mk "P" "boolean" "on" onOff "off" (serveFixed "off")
    None
    (Some [rest.VariationMap.mk "on"
             (Some [rest.TargetMap.mk "u1" "User One"]) None])
    (Some [rest.Prerequisite.mk "Q" ["x"]]).

(** [F] requires [P] to serve "off". *)
Definition flagF : rest.FeatureConfig.t :=
  rest.FeatureConfig.mk "F" "boolean" "on" onOff "off" (serveFixed "on")
    None None (Some [rest.Prerequisite.mk "P" ["off"]]).

(** [G] requires a flag the provider does not know, then [Q] to serve
    "x". *)
Definition flagG : rest.FeatureConfig.t :=
  rest.FeatureConfig.mk "G" "boolean" "on" onOff "off" (serveFixed "on")
    None None
    (Some [rest.Prerequisite.mk "unknown" ["on"];
           rest.Prerequisite.mk "Q" ["x"]]).

Definition tiers : list rest.Variation.t :=
  [rest.Variation.mk "one" "1"; rest.Variation.mk "two" "2";
   rest.Variation.mk "three" "3"; rest.Variation.mk "none" "not_a_number"].

(** [rollout] is on, with the three rules stored at location 1. *)
Definition flagRollout : rest.FeatureConfig.t :=
  rest.FeatureConfig.mk "rollout" "int" "on" tiers "none"
    (serveFixed "three") (Some 1%positive) None None.

(** [archived] is off, with the same rules and an override for u1. *)
Definition flagArchived : rest.FeatureConfig.t :=
  rest.FeatureConfig.mk "archived" "int" "off" tiers "none"
    (serveFixed "three") (Some 1%positive)
    (Some [rest.VariationMap.mk "two"
             (Some [rest.TargetMap.mk "u1" "User One"]) None])
    None.

(** [hollow] is on; its only override names u1 and serves the empty
    identifier, and it has no default serve.  One of its variations has the
    empty identifier. *)
Definition flagHollow : rest.FeatureConfig.t :=
  rest.FeatureConfig.mk "hollow" "string" "on"
    [rest.Variation.mk "" "nothing"; rest.Variation.mk "a" "A"] "a"
    (rest.Serve.mk None None) None
    (Some [rest.VariationMap.mk ""
             (Some [rest.TargetMap.mk "u1" "User One"]) None;
           rest.VariationMap.mk "a"
             (Some [rest.TargetMap.mk "u1" "User One"]) None])
    None.

(** [tiered] is on, overrides u1 to "two", has the three rules and serves
    "three" by default. *)
Definition flagTiered : rest.FeatureConfig.t :=
  rest.FeatureConfig.mk "tiered" "int" "on" tiers "none"
    (serveFixed "three") (Some 1%positive)
    (Some [rest.VariationMap.mk "two"
             (Some [rest.TargetMap.mk "u1" "User One"]) None])
    None.

Definition getFlag (identifier : string)
    : rest.FeatureConfig.t * option error :=
  if String.eqb identifier "Q" then (flagQ, None)
  else if String.eqb identifier "P" then (flagP, None)
  else if String.eqb identifier "F" then (flagF, None)
  else if String.eqb identifier "G" then (flagG, None)
  else if String.eqb identifier "rollout" then (flagRollout, None)
  else if String.eqb identifier "archived" then (flagArchived, None)
  else if String.eqb identifier "hollow" then (flagHollow, None)
  else if String.eqb identifier "tiered" then (flagTiered, None)
  else (noFlag, Some (ErrProvider "flag not found")).

Definition query : Query.t := Query.mk getSegment getFlag.

Definition engine : Evaluator.t := Evaluator.mk (Some query) true.

End Fixture.

(** ** The constructor *)

(** [NewEvaluator]; the logger it stores is left out, as logging is. *)
Definition NewEvaluator (query : option Query.t) (postEvalCallback : bool)
    : option Evaluator.t * option error :=
  match query with
  | None => (None, Some ErrQueryProviderMissing)
  | Some _ => (Some (Evaluator.mk query postEvalCallback), None)
  end.

(** ** More vocabulary *)

(** The operators [evaluateClause] knows. *)
Definition operators : list string :=
  [startsWithOperator; endsWithOperator; matchOperator; containsOperator;
   equalOperator; equalSensitiveOperator; inOperator; gtOperator;
   segmentMatchOperator].

(** The text [evaluateClause] compares for [clause] and [target]. *)
Definition clauseText {rt : Runtime.t} (clause : rest.Clause.t)
    (target : Target.t) : string :=
  clauseObject
    (Runtime.getAttrValue rt (Some target) (rest.Clause.Attribute clause)).

(** The attribute a clause names is there. *)
Definition attributeValid {rt : Runtime.t} (clause : rest.Clause.t)
    (target : Target.t) : bool :=
  reflect.IsValid
    (Runtime.getAttrValue rt (Some target) (rest.Clause.Attribute clause)).

(** [result] is an answer, and it is true exactly when [P] holds. *)
Definition decides (result : option bool) (P : Prop) : Prop :=
  exists b, result = Some b /\ (b = true <-> P).

(** A flag is held back, from the store [h0] on: somewhere down its
    prerequisites a flag that the provider finds is served, by
    [evaluateFlag] on a store that evaluations made of [h0], a variation
    that the prerequisite does not allow. *)
Inductive heldBack {rt : Runtime.t} (query : Query.t)
    (target : option Target.t) (h0 : Heap) : rest.FeatureConfig.t -> Prop :=
| heldBack_here fc prerequisites pre pfc fuel h v h1 :
    rest.FeatureConfig.Prerequisites fc = Some prerequisites ->
    In pre prerequisites ->
    Query.GetFlag query (rest.Prerequisite.Feature pre) = (pfc, None) ->
    onlySorted h0 h ->
    evaluateFlag query fuel pfc target h = Some ((v, None), h1) ->
    contains (rest.Prerequisite.Variations pre)
      (rest.Variation.Identifier v) = false ->
    heldBack query target h0 fc
| heldBack_below fc prerequisites pre pfc :
    rest.FeatureConfig.Prerequisites fc = Some prerequisites ->
    In pre prerequisites ->
    Query.GetFlag query (rest.Prerequisite.Feature pre) = (pfc, None) ->
    heldBack query target h0 pfc ->
    heldBack query target h0 fc.

(** A rule the loop of [evaluateRules] goes past: its clauses do not all
    match, or they do and it serves nothing. *)
Definition ruleSkipped {rt : Runtime.t} (query : Query.t) (fuel : nat)
    (target : Target.t) (rule : rest.ServingRule.t) : Prop :=
  evaluateRule query fuel rule target = Some false \/
  (evaluateRule query fuel rule target = Some true /\
   ruleOutcome rule target = None).

(** The segment test of an override entry. *)
Definition inTargetSegments {rt : Runtime.t} (query : Query.t) (fuel : nat)
    (variationMap : rest.VariationMap.t) (target : Target.t) : option bool :=
  match rest.VariationMap.TargetSegments variationMap with
  | Some segmentIdentifiers =>
    isTargetIncludedOrExcludedInSegment query fuel segmentIdentifiers target
  | None => Some false
  end.

(** An override entry the loop passes over. *)
Definition entrySkipped {rt : Runtime.t} (query : Query.t) (fuel : nat)
    (target : Target.t) (variationMap : rest.VariationMap.t) : Prop :=
  listsTarget variationMap target = false /\
  inTargetSegments query fuel variationMap target = Some false.

(** Two stores that hold, at every location, rule lists with the same
    stable sort by priority: what [evaluateRules] reads from one it reads
    from the other. *)
Definition sameSorted (h k : Heap) : Prop :=
  forall l : loc,
    sortSliceStable lessPriority <$> h !! l
    = sortSliceStable lessPriority <$> k !! l.



(** ** A deployment with segments in segments and flags behind flags *)

Module Nested.

Definition segmentMatch (identifiers : list string) : rest.Clause.t :=
  rest.Clause.mk "" segmentMatchOperator identifiers.

(** [inner] lists u1; [outer] is made of the targets of [inner]. *)
Definition getSegment (identifier : string)
    : rest.Segment.t * option error :=
  if String.eqb identifier "inner" then
    (rest.Segment.mk "inner" "Inner" None
       (Some [rest.Target.mk "u1" "User One"]) None, None)
  else if String.eqb identifier "outer" then
    (rest.Segment.mk "outer" "Outer" None None
       (Some [segmentMatch ["inner"]]), None)
  else (Fixture.noSegment, Some (ErrProvider "segment not found")).

(** [base] serves "on" to the targets of [outer] and "off" to the others;
    [gate] requires [base] to serve "on". *)
Definition flagBase : rest.FeatureConfig.t :=
  rest.FeatureConfig.mk "base" "boolean" "on" Fixture.onOff "off"
    (Fixture.serveFixed "off") None
    (Some [rest.VariationMap.mk "on" None (Some ["outer"])]) None.

Definition flagGate : rest.FeatureConfig.t :=
  rest.FeatureConfig.mk "gate" "boolean" "on" Fixture.onOff "off"
    (Fixture.serveFixed "on") None None
    (Some [rest.Prerequisite.mk "base" ["on"]]).

Definition getFlag (identifier : string)
    : rest.FeatureConfig.t * option error :=
  if String.eqb identifier "base" then (flagBase, None)
  else if String.eqb identifier "gate" then (flagGate, None)
  else (Fixture.noFlag, Some (ErrProvider "flag not found")).

Definition query : Query.t := Query.mk getSegment getFlag.

Definition engine : Evaluator.t := Evaluator.mk (Some query) true.

Definition segmentRank (identifier : string) : nat :=
  if String.eqb identifier "outer" then 1 else 0.

Definition requires (feature : string) (fc : rest.FeatureConfig.t) : bool :=
  match rest.FeatureConfig.Prerequisites fc with
  | Some prerequisites =>
    existsb
      (fun pre => String.eqb (rest.Prerequisite.Feature pre) feature)
      prerequisites
  | None => false
  end.

Definition flagRank (fc : rest.FeatureConfig.t) : nat :=
  if requires "gate" fc then 2 else if requires "base" fc then 1 else 0.

(** The same deployment with a segment made of its own targets and a flag
    that requires itself. *)
Definition getSegmentCyclic (identifier : string)
    : rest.Segment.t * option error :=
  if String.eqb identifier "loop" then
    (rest.Segment.mk "loop" "Loop" None None
       (Some [segmentMatch ["loop"]]), None)
  else getSegment identifier.

Definition flagSelf : rest.FeatureConfig.t :=
  rest.FeatureConfig.mk "self" "boolean" "off" Fixture.onOff "off"
    (Fixture.serveFixed "on") None None
    (Some [rest.Prerequisite.mk "self" ["off"]]).

Definition getFlagCyclic (identifier : string)
    : rest.FeatureConfig.t * option error :=
  if String.eqb identifier "self" then (flagSelf, None)
  else getFlag identifier.

Definition cyclic : Query.t := Query.mk getSegmentCyclic getFlagCyclic.

Definition cyclicEngine : Evaluator.t := Evaluator.mk (Some cyclic) true.

End Nested.

(** ** A flag behind itself that serves through a segment *)

Module Mirror.

(** [mirror] serves "on" to the targets of [inner] and "off" to the
    others, and requires itself to serve "on". *)
Definition flagMirror : rest.FeatureConfig.t :=
  rest.FeatureConfig.mk "mirror" "boolean" "on" Fixture.onOff "off"
    (Fixture.serveFixed "off") None
    (Some [rest.VariationMap.mk "on" None (Some ["inner"])])
    (Some [rest.Prerequisite.mk "mirror" ["on"]]).

Definition getFlag (identifier : string)
    : rest.FeatureConfig.t * option error :=
  if String.eqb identifier "mirror" then (flagMirror, None)
  else Nested.getFlag identifier.

Definition query : Query.t := Query.mk Nested.getSegment getFlag.

Definition engine : Evaluator.t := Evaluator.mk (Some query) true.

End Mirror.

(** ** The sort *)

Section SortFacts.

Lemma insertStable_perm (x : rest.ServingRule.t) s :
  Permutation (insertStable lessPriority x s) (x :: s).
Proof.
  induction s as [|y s IH]; simpl; [reflexivity|].
  destruct (lessPriority y x); [|reflexivity].
  rewrite IH. apply perm_swap.
Qed.

Lemma sortSliceStable_perm s :
  Permutation (sortSliceStable lessPriority s) s.
Proof.
  induction s as [|x s IH]; simpl; [reflexivity|].
  rewrite insertStable_perm. by constructor.
Qed.

Lemma insertStable_sorted x s :
  Sorted lePriority s -> Sorted lePriority (insertStable lessPriority x s).
Proof.
  induction 1 as [|y s Hs IH Hhd]; simpl.
  - repeat constructor.
  - unfold lessPriority at 1.
    destruct (Z.ltb_spec (rest.ServingRule.Priority y)
                (rest.ServingRule.Priority x)) as [Hlt|Hge].
    + constructor; [exact IH|].
      destruct Hhd as [|z s' Hyz]; simpl.
      * constructor. unfold lePriority. lia.
      * unfold lessPriority.
        destruct (Z.ltb_spec (rest.ServingRule.Priority z)
                    (rest.ServingRule.Priority x));
          constructor; unfold lePriority in *; lia.
    + constructor; [by constructor|]. by constructor.
Qed.

Lemma sortSliceStable_sorted s :
  Sorted lePriority (sortSliceStable lessPriority s).
Proof.
  induction s as [|x s IH]; simpl; [constructor|].
  by apply insertStable_sorted.
Qed.

Lemma insertStable_filter p x s :
  List.filter (hasPriority p) (insertStable lessPriority x s)
  = List.filter (hasPriority p) (x :: s).
Proof.
  induction s as [|y s IH]; [reflexivity|].
  cbn [insertStable]. unfold lessPriority at 1.
  destruct (Z.ltb_spec (rest.ServingRule.Priority y)
              (rest.ServingRule.Priority x)) as [Hlt|Hge]; [|reflexivity].
  cbn [List.filter] in *. rewrite IH.
  unfold hasPriority.
  destruct (Z.eqb_spec (rest.ServingRule.Priority x) p);
    destruct (Z.eqb_spec (rest.ServingRule.Priority y) p);
    try reflexivity. lia.
Qed.

Lemma sortSliceStable_stable p s :
  List.filter (hasPriority p) (sortSliceStable lessPriority s)
  = List.filter (hasPriority p) s.
Proof.
  induction s as [|x s IH]; [reflexivity|].
  cbn [sortSliceStable]. rewrite insertStable_filter.
  cbn [List.filter]. by rewrite IH.
Qed.

Lemma sortSliceStable_of_sorted s :
  Sorted lePriority s -> sortSliceStable lessPriority s = s.
Proof.
  induction 1 as [|x s Hs IH Hhd]; [reflexivity|].
  cbn [sortSliceStable]. rewrite IH.
  destruct Hhd as [|y s' Hxy]; [reflexivity|].
  cbn [insertStable]. unfold lessPriority, lePriority in *.
  destruct (Z.ltb_spec (rest.ServingRule.Priority y)
              (rest.ServingRule.Priority x)); [lia|reflexivity].
Qed.

Lemma sortSliceStable_idem s :
  sortSliceStable lessPriority (sortSliceStable lessPriority s)
  = sortSliceStable lessPriority s.
Proof. apply sortSliceStable_of_sorted, sortSliceStable_sorted. Qed.

End SortFacts.

#[local] Arguments evaluateClauseWith : simpl never.
#[local] Arguments evaluateFlag : simpl never.
#[local] Arguments evaluateRules : simpl never.
#[local] Arguments evaluateVariationMap : simpl never.
#[local] Arguments findVariation : simpl never.

(** ** Segment membership *)

Section SegmentFacts.
Context {rt : Runtime.t} (query : Query.t).

Lemma isTargetIncludedOrExcludedInSegment_nil fuel target :
  isTargetIncludedOrExcludedInSegment query (S fuel) [] target = Some false.
Proof. reflexivity. Qed.

Lemma isTargetIncludedOrExcludedInSegment_cons fuel id l target :
  isTargetIncludedOrExcludedInSegment query (S fuel) (id :: l) target =
  match Query.GetSegment query id with
  | (_, Some _) => Some false
  | (segment, None) =>
    if inExcluded segment target then Some false
    else if inIncluded segment target then Some true
    else
      match rest.Segment.Rules segment with
      | None => isTargetIncludedOrExcludedInSegment query (S fuel) l target
      | Some rules =>
        match evaluateClauses query fuel rules target with
        | None => None
        | Some true => Some true
        | Some false =>
          isTargetIncludedOrExcludedInSegment query (S fuel) l target
        end
      end
  end.
Proof. reflexivity. Qed.

Lemma evaluateClausesWith_all segments clauses target :
  evaluateClausesWith segments clauses target = Some true <->
  Forall (fun c => evaluateClauseWith segments (Some c) target = Some true)
    clauses.
Proof.
  induction clauses as [|c cs IH]; simpl.
  - split; [constructor|reflexivity].
  - destruct (evaluateClauseWith segments (Some c) target) as [[|]|] eqn:E;
      simpl.
    + rewrite IH. split.
      * intros H. by constructor.
      * intros H. by inversion H.
    + split; [discriminate|]. intros H. inversion H. congruence.
    + split; [discriminate|]. intros H. inversion H. congruence.
Qed.

Lemma passedOver_skip fuel target pre l :
  Forall (passedOver query fuel target) pre ->
  isTargetIncludedOrExcludedInSegment query (S fuel) (pre ++ l) target
  = isTargetIncludedOrExcludedInSegment query (S fuel) l target.
Proof.
  induction 1 as [|id pre (segment & Hget & Hex & Hin & Hrules) _ IH];
    [reflexivity|].
  rewrite <- app_comm_cons, isTargetIncludedOrExcludedInSegment_cons.
  rewrite Hget, Hex, Hin.
  destruct (rest.Segment.Rules segment); [|exact IH].
  by rewrite Hrules.
Qed.

(** A segment the provider does not find ends the call with false. *)
Lemma segment_lookup_failure_aborts fuel target pre id post segment err :
  Forall (passedOver query fuel target) pre ->
  Query.GetSegment query id = (segment, Some err) ->
  isTargetIncludedOrExcludedInSegment query (S fuel)
    (pre ++ id :: post) target = Some false.
Proof.
  intros Hpre Hget. rewrite (passedOver_skip _ _ _ _ Hpre).
  rewrite isTargetIncludedOrExcludedInSegment_cons. by rewrite Hget.
Qed.

Lemma passedOver_all fuel target l :
  Forall (passedOver query fuel target) l ->
  isTargetIncludedOrExcludedInSegment query (S fuel) l target = Some false.
Proof.
  intros Hl. rewrite <- (app_nil_r l). by rewrite (passedOver_skip _ _ _ _ Hl).
Qed.

Lemma passedOver_step fuel target id l :
  passedOver query fuel target id ->
  isTargetIncludedOrExcludedInSegment query (S fuel) (id :: l) target
  = isTargetIncludedOrExcludedInSegment query (S fuel) l target.
Proof.
  intros Hp. apply (passedOver_skip fuel target [id] l). by constructor.
Qed.

(** What one turn of the loop does with the identifier it is at. *)
Lemma segment_turn fuel id l target :
  passedOver query fuel target id \/
  (exists segment err, Query.GetSegment query id = (segment, Some err)) \/
  (exists segment,
     Query.GetSegment query id = (segment, None) /\
     inExcluded segment target = true) \/
  (exists segment,
     Query.GetSegment query id = (segment, None) /\
     inExcluded segment target = false /\
     (inIncluded segment target = true \/
      exists rules,
        rest.Segment.Rules segment = Some rules /\
        Forall (fun c => evaluateClause query fuel (Some c) target
                         = Some true) rules)) \/
  isTargetIncludedOrExcludedInSegment query (S fuel) (id :: l) target = None.
Proof.
  rewrite isTargetIncludedOrExcludedInSegment_cons.
  destruct (Query.GetSegment query id) as [segment [err|]] eqn:Hget.
  { right. left. by exists segment, err. }
  destruct (inExcluded segment target) eqn:Hex.
  { right. right. left. by exists segment. }
  destruct (inIncluded segment target) eqn:Hin.
  { right. right. right. left. exists segment. repeat split; auto. }
  destruct (rest.Segment.Rules segment) as [rules|] eqn:Hrules.
  - destruct (evaluateClauses query fuel rules target) as [[|]|] eqn:Hcl.
    + right. right. right. left. exists segment.
      split; [reflexivity|]. split; [exact Hex|]. right.
      exists rules. split; [exact Hrules|].
      by apply evaluateClausesWith_all.
    + left. exists segment. by rewrite Hrules.
    + by repeat right.
  - left. exists segment. by rewrite Hrules.
Qed.

Lemma isTargetIncludedOrExcludedInSegment_true fuel l target :
  isTargetIncludedOrExcludedInSegment query (S fuel) l target = Some true ->
  exists (before : list string) id (after : list string) segment,
    l = (before ++ id :: after)%list /\
    Forall (passedOver query fuel target) before /\
    Query.GetSegment query id = (segment, None) /\
    inExcluded segment target = false /\
    (inIncluded segment target = true \/
     exists rules,
       rest.Segment.Rules segment = Some rules /\
       Forall (fun c => evaluateClause query fuel (Some c) target
                        = Some true) rules).
Proof.
  induction l as [|id l IH]; [discriminate|].
  destruct (segment_turn fuel id l target)
    as [Hp|[(segment & err & Hget)|[(segment & Hget & Hex)
       |[(segment & Hget & Hrest)|Hnone]]]].
  - rewrite (passedOver_step _ _ _ l Hp).
    intros H. destruct (IH H) as (before & id' & after & segment & -> & Hb & Hr).
    exists (id :: before), id', after, segment.
    split; [reflexivity|]. split; [by constructor|exact Hr].
  - rewrite isTargetIncludedOrExcludedInSegment_cons. by rewrite Hget.
  - rewrite isTargetIncludedOrExcludedInSegment_cons. by rewrite Hget, Hex.
  - intros _. exists [], id, l, segment.
    split; [reflexivity|]. split; [constructor|]. by split.
  - by rewrite Hnone.
Qed.

Lemma isTargetIncludedOrExcludedInSegment_false fuel l target :
  isTargetIncludedOrExcludedInSegment query (S fuel) l target = Some false ->
  Forall (passedOver query fuel target) l \/
  exists (before : list string) id (after : list string) segment,
    l = (before ++ id :: after)%list /\
    Forall (passedOver query fuel target) before /\
    ((exists err, Query.GetSegment query id = (segment, Some err)) \/
     (Query.GetSegment query id = (segment, None) /\
      inExcluded segment target = true)).
Proof.
  induction l as [|id l IH]; [by left|].
  destruct (segment_turn fuel id l target)
    as [Hp|[(segment & err & Hget)|[(segment & Hget & Hex)
       |[(segment & Hget & Hex & Hinc)|Hnone]]]].
  - rewrite (passedOver_step _ _ _ l Hp).
    intros H. destruct (IH H)
      as [Hall|(before & id' & after & segment & -> & Hb & Hr)].
    + left. by constructor.
    + right. exists (id :: before), id', after, segment.
      split; [reflexivity|]. split; [by constructor|exact Hr].
  - intros _. right. exists [], id, l, segment.
    split; [reflexivity|]. split; [constructor|]. left. by exists err.
  - intros _. right. exists [], id, l, segment.
    split; [reflexivity|]. split; [constructor|]. by right.
  - rewrite isTargetIncludedOrExcludedInSegment_cons. rewrite Hget, Hex.
    destruct Hinc as [->|(rules & Hrules & Hall)]; [discriminate|].
    rewrite Hrules. apply evaluateClausesWith_all in Hall.
    unfold evaluateClauses. rewrite Hall.
    by destruct (inIncluded segment target).
  - by rewrite Hnone.
Qed.

(** C5, as amended. Segment membership resolution goes through the
    listed segments in order.  When the segments listed before [id] are
    passed over (each is found by the provider and neither excludes nor
    includes the target): a target in the exclusion list of [id] makes
    the call answer false whatever identifiers follow, and so does an
    [id] that the provider does not find; a target that [id] does not
    exclude and includes, by its inclusion list or by all the clauses of
    its rules matching, makes the call answer true; a target in both
    lists of a segment is therefore not included; and a list of segments
    that are all passed over answers false.  Nothing else decides: the
    call answers true only when a listed segment includes the target and
    those before it are passed over, and false only when all are passed
    over, or the first that is not excludes the target or is not
    found. *)
Theorem segment_membership_resolution (fuel : nat) (target : Target.t)
    (pre post : list string) (id : string) (segment : rest.Segment.t) :
  Forall (passedOver query fuel target) pre ->
  (Query.GetSegment query id = (segment, None) ->
   (inExcluded segment target = true ->
    isTargetIncludedOrExcludedInSegment query (S fuel)
      (pre ++ id :: post) target = Some false) /\
   (inExcluded segment target = false ->
    inIncluded segment target = true ->
    isTargetIncludedOrExcludedInSegment query (S fuel)
      (pre ++ id :: post) target = Some true) /\
   (inExcluded segment target = false ->
    forall rules,
      rest.Segment.Rules segment = Some rules ->
      Forall (fun c => evaluateClause query fuel (Some c) target = Some true)
        rules ->
      isTargetIncludedOrExcludedInSegment query (S fuel)
        (pre ++ id :: post) target = Some true) /\
   (inExcluded segment target = true ->
    inIncluded segment target = true ->
    isTargetIncludedOrExcludedInSegment query (S fuel) [id] target
    = Some false)) /\
  (forall err,
     Query.GetSegment query id = (segment, Some err) ->
     isTargetIncludedOrExcludedInSegment query (S fuel)
       (pre ++ id :: post) target = Some false) /\
  isTargetIncludedOrExcludedInSegment query (S fuel) pre target
  = Some false /\
  (forall segmentList,
     isTargetIncludedOrExcludedInSegment query (S fuel) segmentList target
     = Some true ->
     exists (before : list string) id' (after : list string) segment',
       segmentList = (before ++ id' :: after)%list /\
       Forall (passedOver query fuel target) before /\
       Query.GetSegment query id' = (segment', None) /\
       inExcluded segment' target = false /\
       (inIncluded segment' target = true \/
        exists rules,
          rest.Segment.Rules segment' = Some rules /\
          Forall (fun c => evaluateClause query fuel (Some c) target
                           = Some true) rules)) /\
  (forall segmentList,
     isTargetIncludedOrExcludedInSegment query (S fuel) segmentList target
     = Some false ->
     Forall (passedOver query fuel target) segmentList \/
     exists (before : list string) id' (after : list string) segment',
       segmentList = (before ++ id' :: after)%list /\
       Forall (passedOver query fuel target) before /\
       ((exists err, Query.GetSegment query id' = (segment', Some err)) \/
        (Query.GetSegment query id' = (segment', None) /\
         inExcluded segment' target = true))).
Proof.
  intros Hpre. split; [|split; [|split; [|split]]].
  - intros Hget. repeat split.
    + intros Hex. rewrite (passedOver_skip _ _ _ _ Hpre).
      rewrite isTargetIncludedOrExcludedInSegment_cons.
      by rewrite Hget, Hex.
    + intros Hex Hin. rewrite (passedOver_skip _ _ _ _ Hpre).
      rewrite isTargetIncludedOrExcludedInSegment_cons.
      by rewrite Hget, Hex, Hin.
    + intros Hex rules Hrules Hall. rewrite (passedOver_skip _ _ _ _ Hpre).
      rewrite isTargetIncludedOrExcludedInSegment_cons.
      rewrite Hget, Hex, Hrules.
      apply evaluateClausesWith_all in Hall.
      unfold evaluateClauses. rewrite Hall.
      by destruct (inIncluded segment target).
    + intros Hex _.
      rewrite isTargetIncludedOrExcludedInSegment_cons.
      by rewrite Hget, Hex.
  - intros err Hget.
    exact (segment_lookup_failure_aborts _ _ _ _ _ _ _ Hpre Hget).
  - exact (passedOver_all _ _ _ Hpre).
  - intros segmentList H.
    exact (isTargetIncludedOrExcludedInSegment_true _ _ _ H).
  - intros segmentList H.
    exact (isTargetIncludedOrExcludedInSegment_false _ _ _ H).
Qed.

End SegmentFacts.

(** C5 as it was stated fails on the deployment: [beta] includes u1 and
    alone answers true, and no segment of the list ["nowhere"; "beta"]
    excludes u1; yet the call on that list answers false, because the
    provider does not find "nowhere" and the loop stops there. *)
Lemma segment_membership_counterexample :
  Query.GetSegment Fixture.segments "beta"
  = (rest.Segment.mk "beta" "Beta" None
       (Some [rest.Target.mk "u1" "User One"]) None, None) /\
  inIncluded (fst (Query.GetSegment Fixture.segments "beta")) Fixture.u1
  = true /\
  isTargetIncludedOrExcludedInSegment (rt := Fixture.runtime)
    Fixture.segments 2 ["beta"] Fixture.u1 = Some true /\
  Query.GetSegment Fixture.segments "nowhere"
  = (Fixture.noSegment, Some (ErrProvider "segment not found")) /\
  inExcluded Fixture.noSegment Fixture.u1 = false /\
  isTargetIncludedOrExcludedInSegment (rt := Fixture.runtime)
    Fixture.segments 2 ["nowhere"; "beta"] Fixture.u1 = Some false.
Proof. repeat split. Qed.

(** C5 as amended, on the deployment: [staff] and [free] are passed over,
    [blocked] excludes u1 although it also includes it, [beta] and [pro]
    include it, and "nowhere" is not found. *)
Lemma segment_membership_resolution_witness :
  Forall (passedOver (rt := Fixture.runtime) Fixture.segments 1 Fixture.u1)
    ["staff"; "free"] /\
  isTargetIncludedOrExcludedInSegment (rt := Fixture.runtime)
    Fixture.segments 2 (["staff"; "free"] ++ "blocked" :: ["beta"])
    Fixture.u1 = Some false /\
  isTargetIncludedOrExcludedInSegment (rt := Fixture.runtime)
    Fixture.segments 2 (["staff"; "free"] ++ "pro" :: ["blocked"])
    Fixture.u1 = Some true /\
  isTargetIncludedOrExcludedInSegment (rt := Fixture.runtime)
    Fixture.segments 2 (["staff"; "free"] ++ "nowhere" :: ["beta"])
    Fixture.u1 = Some false.
Proof.
  assert (Hpre : Forall (passedOver (rt := Fixture.runtime)
                           Fixture.segments 1 Fixture.u1) ["staff"; "free"]).
  { repeat constructor; eexists; (split; [reflexivity|]); vm_compute; auto. }
  split; [exact Hpre|]. split; [|split].
  - refine (proj1 (proj1 (segment_membership_resolution (rt := Fixture.runtime)
                     Fixture.segments 1 Fixture.u1 ["staff"; "free"] ["beta"]
                     "blocked" _ Hpre) eq_refl) eq_refl).
  - refine (proj1 (proj2 (proj2 (proj1
             (segment_membership_resolution (rt := Fixture.runtime)
                Fixture.segments 1 Fixture.u1 ["staff"; "free"] ["blocked"]
                "pro" _ Hpre) eq_refl))) eq_refl _ eq_refl _).
    repeat constructor.
  - exact (proj1 (proj2
             (segment_membership_resolution (rt := Fixture.runtime)
                Fixture.segments 1 Fixture.u1 ["staff"; "free"] ["beta"]
                "nowhere" Fixture.noSegment Hpre))
             (ErrProvider "segment not found") eq_refl).
Defined.

(** ** The rule resolver *)

Section RuleFacts.
Context {rt : Runtime.t} (query : Query.t).

Lemma firstRuleOutcome_skip fuel target pre l :
  Forall (fun r => evaluateRule query fuel r target = Some false) pre ->
  firstRuleOutcome query fuel (pre ++ l) target
  = firstRuleOutcome query fuel l target.
Proof.
  induction 1 as [|r pre Hr _ IH]; [reflexivity|].
  simpl. by rewrite Hr.
Qed.

Lemma firstRuleOutcome_match fuel target rule l outcome :
  evaluateRule query fuel rule target = Some true ->
  ruleOutcome rule target = Some outcome ->
  firstRuleOutcome query fuel (rule :: l) target = Some outcome.
Proof.
  unfold ruleOutcome. intros Hr Ho. simpl. rewrite Hr. simpl.
  destruct (rest.Serve.Distribution (rest.ServingRule.Serve rule));
    [exact Ho|].
  by rewrite Ho.
Qed.

(** A matching rule that has neither a distribution nor a variation
    serves nothing and the loop goes on. *)
Lemma firstRuleOutcome_no_serve fuel target rule l :
  evaluateRule query fuel rule target = Some true ->
  ruleOutcome rule target = None ->
  firstRuleOutcome query fuel (rule :: l) target
  = firstRuleOutcome query fuel l target.
Proof.
  unfold ruleOutcome. intros Hr Ho. simpl. rewrite Hr. simpl.
  destruct (rest.Serve.Distribution (rest.ServingRule.Serve rule));
    [discriminate|].
  by rewrite Ho.
Qed.

Lemma firstRuleOutcome_none fuel target l :
  Forall (fun r => evaluateRule query fuel r target = Some false) l ->
  firstRuleOutcome query fuel l target = Some "".
Proof.
  intros H. rewrite <- (app_nil_r l).
  by rewrite (firstRuleOutcome_skip _ _ _ _ H).
Qed.

Lemma evaluateRules_unfold fuel servingRules target h rules :
  h !! servingRules = Some rules ->
  evaluateRules query fuel servingRules (Some target) h =
  match firstRuleOutcome query fuel (sortSliceStable lessPriority rules)
          target with
  | Some variation =>
    Some (variation,
          <[servingRules := sortSliceStable lessPriority rules]> h)
  | None => None
  end.
Proof.
  intros Hh. unfold evaluateRules. rewrite Hh.
  by destruct (firstRuleOutcome _ _ _ _).
Qed.

(** C6. The rule resolver: the rule list is put in ascending order of
    priority by a stable sort (the result is ordered, is a rearrangement
    of the list, and keeps the rules of each priority in their original
    order), and the outcome returned is that of the first rule of that
    order whose clauses all match, or the empty string when no rule
    matches; with priorities [3, 1, 2] and clauses matching
    [false, true, true] the outcome of the rule of priority 1 is
    returned. *)
Theorem rules_in_priority_order (fuel : nat) (servingRules : loc)
    (target : Target.t) (h : Heap) (rules : list rest.ServingRule.t) :
  h !! servingRules = Some rules ->
  (Sorted lePriority (sortSliceStable lessPriority rules) /\
   Permutation (sortSliceStable lessPriority rules) rules /\
   forall p,
     List.filter (hasPriority p) (sortSliceStable lessPriority rules)
     = List.filter (hasPriority p) rules) /\
  (forall (pre : list rest.ServingRule.t) rule post outcome,
     sortSliceStable lessPriority rules = (pre ++ rule :: post)%list ->
     Forall (fun r => evaluateRule query fuel r target = Some false) pre ->
     evaluateRule query fuel rule target = Some true ->
     ruleOutcome rule target = Some outcome ->
     evaluateRules query fuel servingRules (Some target) h
     = Some (outcome,
             <[servingRules := sortSliceStable lessPriority rules]> h)) /\
  (Forall (fun r => evaluateRule query fuel r target = Some false) rules ->
   evaluateRules query fuel servingRules (Some target) h
   = Some ("", <[servingRules := sortSliceStable lessPriority rules]> h)) /\
  (forall r3 r1 r2 outcome,
     rules = [r3; r1; r2] ->
     rest.ServingRule.Priority r3 = 3%Z ->
     rest.ServingRule.Priority r1 = 1%Z ->
     rest.ServingRule.Priority r2 = 2%Z ->
     evaluateRule query fuel r3 target = Some false ->
     evaluateRule query fuel r1 target = Some true ->
     evaluateRule query fuel r2 target = Some true ->
     ruleOutcome r1 target = Some outcome ->
     evaluateRules query fuel servingRules (Some target) h
     = Some (outcome, <[servingRules := [r1; r2; r3]]> h)).
Proof.
  intros Hh. split; [|split; [|split]].
  - split; [apply sortSliceStable_sorted|].
    split; [apply sortSliceStable_perm|].
    intros p. apply sortSliceStable_stable.
  - intros pre rule post outcome Hs Hpre Hrule Hout.
    rewrite (evaluateRules_unfold _ _ _ _ _ Hh), Hs.
    rewrite (firstRuleOutcome_skip _ _ _ _ Hpre).
    by rewrite (firstRuleOutcome_match _ _ _ _ _ Hrule Hout).
  - intros Hnone.
    rewrite (evaluateRules_unfold _ _ _ _ _ Hh).
    rewrite firstRuleOutcome_none; [reflexivity|].
    eapply Permutation_Forall; [|exact Hnone].
    symmetry. apply sortSliceStable_perm.
  - intros r3 r1 r2 outcome -> H3 H1 H2 E3 E1 E2 Hout.
    assert (Hs : sortSliceStable lessPriority [r3; r1; r2] = [r1; r2; r3]).
    { assert (L21 : lessPriority r2 r1 = false)
        by (unfold lessPriority; by rewrite H1, H2).
      assert (L13 : lessPriority r1 r3 = true)
        by (unfold lessPriority; by rewrite H1, H3).
      assert (L23 : lessPriority r2 r3 = true)
        by (unfold lessPriority; by rewrite H2, H3).
      cbn [sortSliceStable insertStable]. rewrite L21.
      cbn [insertStable]. by rewrite L13, L23. }
    rewrite (evaluateRules_unfold _ _ _ _ _ Hh), Hs.
    by rewrite (firstRuleOutcome_match _ _ _ _ _ E1 Hout).
Qed.

End RuleFacts.

(** C6 on the deployment: the rules stored as [rule3; rule1; rule2] are
    left as [rule1; rule2; rule3] and u1 is served the variation of
    [rule1]. *)
Lemma rules_in_priority_order_witness :
  Fixture.rulesAt1 !! 1%positive
  = Some [Fixture.rule3; Fixture.rule1; Fixture.rule2] /\
  evaluateRules (rt := Fixture.runtime) Fixture.segments 1 1%positive
    (Some Fixture.u1) Fixture.rulesAt1
  = Some ("one",
          <[1%positive := [Fixture.rule1; Fixture.rule2; Fixture.rule3]]>
            Fixture.rulesAt1).
Proof.
  split; [reflexivity|].
  exact (proj2 (proj2 (proj2
           (rules_in_priority_order (rt := Fixture.runtime)
              Fixture.segments 1 1%positive Fixture.u1 Fixture.rulesAt1
              [Fixture.rule3; Fixture.rule1; Fixture.rule2] eq_refl)))
           Fixture.rule3 Fixture.rule1 Fixture.rule2 "one"
           eq_refl eq_refl eq_refl eq_refl eq_refl eq_refl eq_refl eq_refl).
Defined.

(** ** Flags *)

Section FlagFacts.
Context {rt : Runtime.t} (query : Query.t).

Lemma serveVariation_nonempty fc variation :
  variation <> "" ->
  serveVariation fc variation
  = findVariation (rest.FeatureConfig.Variations fc) variation.
Proof.
  intros Hne. unfold serveVariation.
  destruct (String.eqb_spec variation ""); [contradiction|reflexivity].
Qed.

Lemma serveVariation_empty fc :
  serveVariation fc ""
  = (rest.Variation.mk "" "",
     Some (ErrEvaluationFlag (rest.FeatureConfig.Feature fc))).
Proof. reflexivity. Qed.

Lemma evaluateFlag_off fuel fc target h :
  rest.FeatureConfig.State fc <> rest.FeatureStateOn ->
  evaluateFlag query fuel fc target h
  = Some (serveVariation fc (rest.FeatureConfig.OffVariation fc), h).
Proof.
  intros Hoff. unfold evaluateFlag.
  destruct (String.eqb_spec (rest.FeatureConfig.State fc)
              rest.FeatureStateOn); [contradiction|reflexivity].
Qed.

Lemma evaluateFlag_on fuel fc target h :
  rest.FeatureConfig.State fc = rest.FeatureStateOn ->
  evaluateFlag query fuel fc target h =
  match overrideResolver query fuel fc target with
  | None => None
  | Some a =>
    if String.eqb a "" then
      match ruleResolver query fuel fc target h with
      | None => None
      | Some (b, h') =>
        Some (serveVariation fc
                (firstNonEmpty
                   [b; defaultServeDistribution fc target;
                    defaultServeVariation fc]), h')
      end
    else Some (serveVariation fc a, h)
  end.
Proof.
  intros Hon. unfold evaluateFlag, overrideResolver, ruleResolver.
  rewrite Hon, String.eqb_refl.
  destruct (match rest.FeatureConfig.VariationToTargetMap fc with
            | Some m => evaluateVariationMap query fuel m target
            | None => Some ""
            end) as [a|]; [|reflexivity].
  cbn [mbind option_bind].
  destruct (String.eqb_spec a "") as [->|Ha].
  - assert (Hfin : forall b (h' : Heap),
              (let variation :=
                 if String.eqb b "" then
                   Runtime.evaluateDistribution rt
                     (rest.Serve.Distribution
                        (rest.FeatureConfig.DefaultServe fc)) target
                 else b in
               let variation0 :=
                 if String.eqb variation "" then
                   match rest.Serve.Variation
                           (rest.FeatureConfig.DefaultServe fc) with
                   | Some v => v
                   | None => variation
                   end
                 else variation in
               Some (serveVariation fc variation0, h'))
              = Some (serveVariation fc
                        (firstNonEmpty
                           [b; defaultServeDistribution fc target;
                            defaultServeVariation fc]), h')).
    { intros b h'. cbn [firstNonEmpty].
      unfold defaultServeDistribution, defaultServeVariation.
      destruct (String.eqb_spec b "") as [->|Hb].
      - destruct (String.eqb_spec
                    (Runtime.evaluateDistribution rt
                       (rest.Serve.Distribution
                          (rest.FeatureConfig.DefaultServe fc)) target) "")
          as [Hd|Hd]; [|reflexivity].
        destruct (rest.Serve.Variation (rest.FeatureConfig.DefaultServe fc))
          as [v|]; cbn [default].
        + unfold id. by destruct (String.eqb_spec v "") as [->|].
        + by rewrite Hd.
      - destruct (String.eqb_spec b ""); [contradiction|reflexivity]. }
    destruct (rest.FeatureConfig.Rules fc) as [rules|].
    + destruct (evaluateRules query fuel rules target h) as [[b h']|];
        [|reflexivity].
      cbn [mbind option_bind]. apply Hfin.
    + cbn [mbind option_bind]. apply (Hfin "" h).
  - apply String.eqb_neq in Ha. simpl. by repeat (rewrite Ha; simpl).
Qed.

Lemma evaluateVariationMap_listed fuel entry entries target :
  listsTarget entry target = true ->
  evaluateVariationMap query fuel (entry :: entries) (Some target)
  = Some (rest.VariationMap.Variation entry).
Proof.
  unfold listsTarget, evaluateVariationMap. intros H.
  cbn [evaluateVariationMapLoop]. by rewrite H.
Qed.

End FlagFacts.

(** ** The frame of an evaluation *)

Section FrameFacts.
Context {rt : Runtime.t}.

Lemma onlySorted_refl h : onlySorted h h.
Proof. intros l. by left. Qed.

Lemma onlySorted_trans h1 h2 h3 :
  onlySorted h1 h2 -> onlySorted h2 h3 -> onlySorted h1 h3.
Proof.
  intros H12 H23 l.
  destruct (H12 l) as [E12|(r1 & E1 & E2)];
    destruct (H23 l) as [E23|(r2 & E2' & E3)].
  - left. congruence.
  - right. exists r2. split; congruence.
  - right. exists r1. split; congruence.
  - right. exists r1. split; [exact E1|].
    rewrite E3. f_equal.
    assert (r2 = sortSliceStable lessPriority r1) as -> by congruence.
    apply sortSliceStable_idem.
Qed.

Lemma onlySorted_insert (h : Heap) l rules :
  h !! l = Some rules ->
  onlySorted h (<[l := sortSliceStable lessPriority rules]> h).
Proof.
  intros Hl l'. destruct (decide (l = l')) as [<-|Hne].
  - right. exists rules. split; [exact Hl|]. apply lookup_insert_eq.
  - left. by apply lookup_insert_ne.
Qed.

Lemma onlySorted_perm h h' :
  onlySorted h h' ->
  forall l,
    match h !! l with
    | Some rules =>
      exists rules', h' !! l = Some rules' /\ Permutation rules' rules
    | None => h' !! l = None
    end.
Proof.
  intros H l. destruct (H l) as [E|(rules & E1 & E2)].
  - rewrite E. destruct (h !! l) as [rules|]; [|reflexivity].
    by exists rules.
  - rewrite E1. eexists. split; [exact E2|]. apply sortSliceStable_perm.
Qed.

Lemma evaluateRules_frame query fuel servingRules target h variation h' :
  evaluateRules query fuel servingRules target h = Some (variation, h') ->
  onlySorted h h'.
Proof.
  unfold evaluateRules.
  destruct target as [target|]; [|intros [= _ <-]; apply onlySorted_refl].
  destruct (h !! servingRules) as [rules|] eqn:Hl;
    [|intros [= _ <-]; apply onlySorted_refl].
  destruct (firstRuleOutcome _ _ _ _); [|discriminate].
  intros [= _ <-]. by apply onlySorted_insert.
Qed.

Lemma evaluateFlag_frame query fuel fc target h r h' :
  evaluateFlag query fuel fc target h = Some (r, h') -> onlySorted h h'.
Proof.
  destruct (String.eqb_spec (rest.FeatureConfig.State fc)
              rest.FeatureStateOn) as [Hon|Hoff].
  - rewrite (evaluateFlag_on _ _ _ _ _ Hon).
    destruct (overrideResolver query fuel fc target) as [a|];
      [|discriminate].
    destruct (String.eqb a "").
    + unfold ruleResolver.
      destruct (rest.FeatureConfig.Rules fc) as [rules|].
      * destruct (evaluateRules query fuel rules target h) as [[b h1]|] eqn:E;
          [|discriminate].
        intros [= _ <-]. exact (evaluateRules_frame _ _ _ _ _ _ _ E).
      * intros [= _ <-]. apply onlySorted_refl.
    + intros [= _ <-]. apply onlySorted_refl.
  - rewrite (evaluateFlag_off _ _ _ _ _ Hoff).
    intros [= _ <-]. apply onlySorted_refl.
Qed.

Lemma checkPreRequisiteLoop_frame query fuel check prerequisites target :
  (forall fc h r h', check fc h = Some (r, h') -> onlySorted h h') ->
  forall h r h',
    checkPreRequisiteLoop query fuel check prerequisites target h
    = Some (r, h') ->
    onlySorted h h'.
Proof.
  intros Hcheck.
  induction prerequisites as [|pre prerequisites IH]; intros h r h'.
  - intros [= _ <-]. apply onlySorted_refl.
  - cbn [checkPreRequisiteLoop].
    destruct (Query.GetFlag query (rest.Prerequisite.Feature pre))
      as [pfc [err|]]; [intros [= _ <-]; apply onlySorted_refl|].
    destruct (evaluateFlag query fuel pfc target h)
      as [[[v [err|]] h1]|] eqn:Ef; [| |discriminate].
    + intros [= _ <-]. exact (evaluateFlag_frame _ _ _ _ _ _ _ Ef).
    + pose proof (evaluateFlag_frame _ _ _ _ _ _ _ Ef) as F1.
      destruct (negb (contains _ _)); [by intros [= _ <-]|].
      destruct (check pfc h1) as [[[b err] h2]|] eqn:Ec; [|discriminate].
      pose proof (onlySorted_trans _ _ _ F1 (Hcheck _ _ _ _ Ec)) as F2.
      destruct (negb b); [by intros [= _ <-]|].
      intros E. exact (onlySorted_trans _ _ _ F2 (IH _ _ _ E)).
Qed.

Lemma checkPreRequisite_frame fuel e fc target h r h' :
  checkPreRequisite fuel e fc target h = Some (r, h') -> onlySorted h h'.
Proof.
  revert fc h r h'.
  induction fuel as [|fuel IH]; intros fc h r h'; [discriminate|].
  cbn [checkPreRequisite].
  destruct (Evaluator.query e) as [query|];
    [|intros [= _ <-]; apply onlySorted_refl].
  destruct (rest.FeatureConfig.Prerequisites fc) as [prerequisites|];
    [|intros [= _ <-]; apply onlySorted_refl].
  apply checkPreRequisiteLoop_frame.
  intros fc' h0 r0 h0'. apply IH.
Qed.

End FrameFacts.

(** ** The orchestrator *)

Section EvaluateFacts.
Context {rt : Runtime.t}.

Lemma findVariation_error variations identifier v err :
  findVariation variations identifier = (v, Some err) ->
  v = rest.Variation.mk "" "".
Proof.
  induction variations as [|x variations IH]; unfold findVariation;
    fold findVariation.
  - by intros [= <- _].
  - destruct (String.eqb _ _); [discriminate|exact IH].
Qed.

Lemma serveVariation_error fc variation v err :
  serveVariation fc variation = (v, Some err) ->
  v = rest.Variation.mk "" "".
Proof.
  unfold serveVariation. destruct (negb _).
  - apply findVariation_error.
  - by intros [= <- _].
Qed.

Lemma evaluateFlag_error query fuel fc target h v err h' :
  evaluateFlag query fuel fc target h = Some ((v, Some err), h') ->
  v = rest.Variation.mk "" "".
Proof.
  destruct (String.eqb_spec (rest.FeatureConfig.State fc)
              rest.FeatureStateOn) as [Hon|Hoff].
  - rewrite (evaluateFlag_on _ _ _ _ _ Hon).
    destruct (overrideResolver query fuel fc target) as [a|];
      [|discriminate].
    destruct (String.eqb a "").
    + destruct (ruleResolver query fuel fc target h) as [[b h1]|];
        [|discriminate].
      intros [= E _]. exact (serveVariation_error _ _ _ _ E).
    + intros [= E _]. exact (serveVariation_error _ _ _ _ E).
  - rewrite (evaluateFlag_off _ _ _ _ _ Hoff).
    intros [= E _]. exact (serveVariation_error _ _ _ _ E).
Qed.

Lemma evaluate_no_provider fuel e identifier target kind h :
  Evaluator.query e = None ->
  evaluate fuel e identifier target kind h
  = Some ((rest.Variation.mk "" "", Some ErrQueryProviderMissing), [], h).
Proof. intros Hq. unfold evaluate. by rewrite Hq. Qed.

Lemma evaluate_lookup_failure fuel e query identifier target kind h flag err :
  Evaluator.query e = Some query ->
  Query.GetFlag query identifier = (flag, Some err) ->
  evaluate fuel e identifier target kind h
  = Some ((rest.Variation.mk "" "", Some err), [], h).
Proof. intros Hq Hget. unfold evaluate. by rewrite Hq, Hget. Qed.

Lemma evaluate_kind_mismatch fuel e query identifier target kind h flag :
  Evaluator.query e = Some query ->
  Query.GetFlag query identifier = (flag, None) ->
  rest.FeatureConfig.Kind flag <> kind ->
  evaluate fuel e identifier target kind h
  = Some ((rest.Variation.mk "" "",
           Some (ErrFlagKindMismatch kind (rest.FeatureConfig.Kind flag))),
          [], h).
Proof.
  intros Hq Hget Hkind. unfold evaluate. rewrite Hq, Hget.
  by destruct (String.eqb_spec (rest.FeatureConfig.Kind flag) kind).
Qed.

Lemma evaluate_found fuel e query identifier target kind h flag :
  Evaluator.query e = Some query ->
  Query.GetFlag query identifier = (flag, None) ->
  rest.FeatureConfig.Kind flag = kind ->
  evaluate fuel e identifier target kind h =
  match prerequisiteCheck fuel e flag target h with
  | None => None
  | Some (r, h1) =>
    if prerequisitesHold r then
      match evaluateFlag query fuel flag target h1 with
      | None => None
      | Some ((variation, Some err), h2) =>
        Some ((rest.Variation.mk "" "", Some err), [], h2)
      | Some ((variation, None), h2) =>
        Some ((variation, None),
              if Evaluator.postEvalCallback e
              then [PostEvalData.mk flag target variation]
              else [],
              h2)
      end
    else
      Some (findVariation (rest.FeatureConfig.Variations flag)
              (rest.FeatureConfig.OffVariation flag), [], h1)
  end.
Proof.
  intros Hq Hget Hkind. unfold evaluate, prerequisiteCheck.
  rewrite Hq, Hget.
  destruct (String.eqb_spec (rest.FeatureConfig.Kind flag) kind);
    [|contradiction].
  cbn [negb].
  destruct (match rest.FeatureConfig.Prerequisites flag with
            | Some _ => checkPreRequisite fuel e flag target h
            | None => Some ((true, None), h)
            end) as [[[prereq [err|]] h1]|]; cbn; try reflexivity.
  destruct prereq; cbn; [|reflexivity].
  by destruct (evaluateFlag query fuel flag target h1)
    as [[[variation [err|]] h2]|].
Qed.

Lemma checkPreRequisite_by_prerequisites fuel e fc fc' target h :
  rest.FeatureConfig.Prerequisites fc' = rest.FeatureConfig.Prerequisites fc ->
  checkPreRequisite fuel e fc' target h = checkPreRequisite fuel e fc target h.
Proof.
  intros E. destruct fuel as [|fuel]; [reflexivity|].
  cbn [checkPreRequisite]. by rewrite E.
Qed.

(** C2. A flag whose state is not on: once the prerequisite check has
    returned, [evaluate] serves the off variation of the flag, through
    [evaluateFlag] when the check passed and directly when it did not,
    and nothing of its rules, overrides or default serve enters the
    result; when the off variation is not empty both ways give the
    lookup of the off variation in the variation list.  For a flag of
    any state the check comes first, and a check that fails or returns
    an error makes [evaluate] return the lookup of the off variation
    at once, with the store as the check left it and no call of the
    callback.  The check itself reads nothing of the flag but its
    prerequisites. *)
Theorem evaluate_off_variation (fuel : nat) (e : Evaluator.t)
    (query : Query.t) (identifier : string) (target : option Target.t)
    (kind : string) (h : Heap) (flag : rest.FeatureConfig.t)
    (r : bool * option error) (h1 : Heap) :
  Evaluator.query e = Some query ->
  Query.GetFlag query identifier = (flag, None) ->
  rest.FeatureConfig.Kind flag = kind ->
  prerequisiteCheck fuel e flag target h = Some (r, h1) ->
  (rest.FeatureConfig.State flag <> rest.FeatureStateOn ->
   exists calls,
     evaluate fuel e identifier target kind h
     = Some ((if prerequisitesHold r
              then serveVariation flag (rest.FeatureConfig.OffVariation flag)
              else findVariation (rest.FeatureConfig.Variations flag)
                     (rest.FeatureConfig.OffVariation flag)),
             calls, h1)) /\
  (rest.FeatureConfig.State flag <> rest.FeatureStateOn ->
   rest.FeatureConfig.OffVariation flag <> "" ->
   exists calls,
     evaluate fuel e identifier target kind h
     = Some (findVariation (rest.FeatureConfig.Variations flag)
               (rest.FeatureConfig.OffVariation flag), calls, h1)) /\
  (prerequisitesHold r = false ->
   evaluate fuel e identifier target kind h
   = Some (findVariation (rest.FeatureConfig.Variations flag)
             (rest.FeatureConfig.OffVariation flag), [], h1)) /\
  (forall flag',
     rest.FeatureConfig.Prerequisites flag'
     = rest.FeatureConfig.Prerequisites flag ->
     prerequisiteCheck fuel e flag' target h = Some (r, h1)).
Proof.
  intros Hq Hget Hkind Hcheck.
  pose proof (evaluate_found fuel e query identifier target kind h flag
                Hq Hget Hkind) as Hev.
  rewrite Hcheck in Hev.
  assert (Hoff : rest.FeatureConfig.State flag <> rest.FeatureStateOn ->
          exists calls,
            evaluate fuel e identifier target kind h
            = Some ((if prerequisitesHold r
                     then serveVariation flag
                            (rest.FeatureConfig.OffVariation flag)
                     else findVariation (rest.FeatureConfig.Variations flag)
                            (rest.FeatureConfig.OffVariation flag)),
                    calls, h1)).
  { intros Hstate. rewrite Hev.
    destruct (prerequisitesHold r); [|by exists []].
    rewrite (evaluateFlag_off _ _ _ _ _ Hstate).
    destruct (serveVariation flag (rest.FeatureConfig.OffVariation flag))
      as [v [err|]] eqn:Es.
    - exists []. by rewrite (serveVariation_error _ _ _ _ Es).
    - by eexists. }
  split; [exact Hoff|]. split; [|split].
  - intros Hstate Hne. destruct (Hoff Hstate) as [calls Hc].
    exists calls. rewrite Hc.
    rewrite (serveVariation_nonempty _ _ Hne).
    by destruct (prerequisitesHold r).
  - intros Hfail. by rewrite Hev, Hfail.
  - intros flag' E. rewrite <- Hcheck. unfold prerequisiteCheck.
    rewrite E. destruct (rest.FeatureConfig.Prerequisites flag) eqn:Ep;
      [|reflexivity].
    apply checkPreRequisite_by_prerequisites. congruence.
Qed.

End EvaluateFacts.

(** C2 on the deployment: [archived] is off and serves its off variation
    "none" to u1 in spite of its rules and of its override for u1, and the
    rules are left unsorted; [F] is on, its prerequisite fails, and it
    serves its off variation. *)
Lemma evaluate_off_variation_witness :
  prerequisiteCheck (rt := Fixture.runtime) 1 Fixture.engine
    Fixture.flagArchived (Some Fixture.u1) Fixture.rulesAt1
  = Some ((true, None), Fixture.rulesAt1) /\
  (exists calls,
     evaluate (rt := Fixture.runtime) 1 Fixture.engine "archived"
       (Some Fixture.u1) "int" Fixture.rulesAt1
     = Some ((rest.Variation.mk "none" "not_a_number", None), calls,
             Fixture.rulesAt1)) /\
  prerequisiteCheck (rt := Fixture.runtime) 1 Fixture.engine
    Fixture.flagF (Some Fixture.u1) Fixture.rulesAt1
  = Some ((false, None), Fixture.rulesAt1) /\
  evaluate (rt := Fixture.runtime) 1 Fixture.engine "F"
    (Some Fixture.u1) "boolean" Fixture.rulesAt1
  = Some ((rest.Variation.mk "off" "false", None), [], Fixture.rulesAt1).
Proof.
  split; [reflexivity|]. split; [|split; [reflexivity|]].
  - refine (proj1 (proj2
             (evaluate_off_variation (rt := Fixture.runtime) 1 Fixture.engine
                Fixture.query "archived" (Some Fixture.u1) "int"
                Fixture.rulesAt1 Fixture.flagArchived (true, None)
                Fixture.rulesAt1 eq_refl eq_refl eq_refl eq_refl)) _ _);
      discriminate.
  - exact (proj1 (proj2 (proj2
             (evaluate_off_variation (rt := Fixture.runtime) 1 Fixture.engine
                Fixture.query "F" (Some Fixture.u1) "boolean"
                Fixture.rulesAt1 Fixture.flagF (false, None)
                Fixture.rulesAt1 eq_refl eq_refl eq_refl eq_refl)))
             eq_refl).
Defined.

(** ** The typed accessors *)

Section AccessorFacts.
Context {rt : Runtime.t}.

Lemma BoolVariation_error fuel e identifier target d h v err calls h' :
  evaluate fuel e identifier target "boolean" h
  = Some ((v, Some err), calls, h') ->
  BoolVariation fuel e identifier target d h = Some (d, calls, h').
Proof. intros E. unfold BoolVariation. by rewrite E. Qed.

Lemma StringVariation_error fuel e identifier target d h v err calls h' :
  evaluate fuel e identifier target "string" h
  = Some ((v, Some err), calls, h') ->
  StringVariation fuel e identifier target d h = Some (d, calls, h').
Proof. intros E. unfold StringVariation. by rewrite E. Qed.

Lemma IntVariation_error fuel e identifier target d h v err calls h' :
  evaluate fuel e identifier target "int" h
  = Some ((v, Some err), calls, h') ->
  IntVariation fuel e identifier target d h = Some (d, calls, h').
Proof. intros E. unfold IntVariation. by rewrite E. Qed.

Lemma NumberVariation_error fuel e identifier target d h v err calls h' :
  evaluate fuel e identifier target "int" h
  = Some ((v, Some err), calls, h') ->
  NumberVariation fuel e identifier target d h = Some (d, calls, h').
Proof. intros E. unfold NumberVariation. by rewrite E. Qed.

Lemma JSONVariation_error fuel e identifier target d h v err calls h' :
  evaluate fuel e identifier target "json" h
  = Some ((v, Some err), calls, h') ->
  JSONVariation fuel e identifier target d h = Some (d, calls, h').
Proof. intros E. unfold JSONVariation. by rewrite E. Qed.

Lemma allDefaults_intro fuel e identifier target h calls h' :
  (forall kind, exists v err,
     evaluate fuel e identifier target kind h
     = Some ((v, Some err), calls, h')) ->
  allDefaults fuel e identifier target h calls h'.
Proof.
  intros H. repeat split; intros d.
  - destruct (H "boolean") as (v & err & E).
    exact (BoolVariation_error _ _ _ _ _ _ _ _ _ _ E).
  - destruct (H "string") as (v & err & E).
    exact (StringVariation_error _ _ _ _ _ _ _ _ _ _ E).
  - destruct (H "int") as (v & err & E).
    exact (IntVariation_error _ _ _ _ _ _ _ _ _ _ E).
  - destruct (H "int") as (v & err & E).
    exact (NumberVariation_error _ _ _ _ _ _ _ _ _ _ E).
  - destruct (H "json") as (v & err & E).
    exact (JSONVariation_error _ _ _ _ _ _ _ _ _ _ E).
Qed.

(** C4. The typed accessors absorb every error: each returns the default
    of its caller whenever [evaluate] returns an error for its kind, so
    in particular when the engine has no provider, when the lookup of
    the flag fails and when the kind of the flag is not the kind asked
    for (then for every accessor of another kind), and when the
    variation resolved is missing from the variation list; the integer,
    number and JSON accessors also return the default when the value of
    the variation does not decode.  No accessor has an error among its
    results. *)
Theorem typed_accessors_absorb_errors (fuel : nat) (e : Evaluator.t)
    (identifier : string) (target : option Target.t) (h : Heap) :
  (forall d v err calls h',
     evaluate fuel e identifier target "boolean" h
     = Some ((v, Some err), calls, h') ->
     BoolVariation fuel e identifier target d h = Some (d, calls, h')) /\
  (forall d v err calls h',
     evaluate fuel e identifier target "string" h
     = Some ((v, Some err), calls, h') ->
     StringVariation fuel e identifier target d h = Some (d, calls, h')) /\
  (forall v err calls h',
     evaluate fuel e identifier target "int" h
     = Some ((v, Some err), calls, h') ->
     (forall d, IntVariation fuel e identifier target d h
                = Some (d, calls, h')) /\
     (forall d, NumberVariation fuel e identifier target d h
                = Some (d, calls, h'))) /\
  (forall d v err calls h',
     evaluate fuel e identifier target "json" h
     = Some ((v, Some err), calls, h') ->
     JSONVariation fuel e identifier target d h = Some (d, calls, h')) /\
  (forall v calls h',
     evaluate fuel e identifier target "int" h
     = Some ((v, None), calls, h') ->
     (forall d x err,
        Runtime.strconvAtoi rt (rest.Variation.Value v) = (x, Some err) ->
        IntVariation fuel e identifier target d h = Some (d, calls, h')) /\
     (forall d x err,
        Runtime.strconvParseFloat rt (rest.Variation.Value v)
        = (x, Some err) ->
        NumberVariation fuel e identifier target d h
        = Some (d, calls, h'))) /\
  (forall v calls h' d x err,
     evaluate fuel e identifier target "json" h
     = Some ((v, None), calls, h') ->
     Runtime.jsonUnmarshal rt (rest.Variation.Value v) = (x, Some err) ->
     JSONVariation fuel e identifier target d h = Some (d, calls, h')) /\
  (Evaluator.query e = None ->
   allDefaults fuel e identifier target h [] h) /\
  (forall query flag err,
     Evaluator.query e = Some query ->
     Query.GetFlag query identifier = (flag, Some err) ->
     allDefaults fuel e identifier target h [] h) /\
  (forall query flag,
     Evaluator.query e = Some query ->
     Query.GetFlag query identifier = (flag, None) ->
     (rest.FeatureConfig.Kind flag <> "boolean" ->
      forall d, BoolVariation fuel e identifier target d h
                = Some (d, [], h)) /\
     (rest.FeatureConfig.Kind flag <> "string" ->
      forall d, StringVariation fuel e identifier target d h
                = Some (d, [], h)) /\
     (rest.FeatureConfig.Kind flag <> "int" ->
      (forall d, IntVariation fuel e identifier target d h
                 = Some (d, [], h)) /\
      (forall d, NumberVariation fuel e identifier target d h
                 = Some (d, [], h))) /\
     (rest.FeatureConfig.Kind flag <> "json" ->
      forall d, JSONVariation fuel e identifier target d h
                = Some (d, [], h))) /\
  (forall query flag r h1 variation err h2,
     Evaluator.query e = Some query ->
     Query.GetFlag query identifier = (flag, None) ->
     prerequisiteCheck fuel e flag target h = Some (r, h1) ->
     prerequisitesHold r = true ->
     evaluateFlag query fuel flag target h1
     = Some ((variation, Some err), h2) ->
     evaluate fuel e identifier target (rest.FeatureConfig.Kind flag) h
     = Some ((rest.Variation.mk "" "", Some err), [], h2)).
Proof.
  split; [intros *; apply BoolVariation_error|].
  split; [intros *; apply StringVariation_error|].
  split.
  { intros * E. split; intros d;
      [exact (IntVariation_error _ _ _ _ _ _ _ _ _ _ E)
      |exact (NumberVariation_error _ _ _ _ _ _ _ _ _ _ E)]. }
  split; [intros *; apply JSONVariation_error|].
  split.
  { intros v calls h' E. split; intros d x err Hd.
    - unfold IntVariation. by rewrite E; cbn; rewrite Hd.
    - unfold NumberVariation. by rewrite E; cbn; rewrite Hd. }
  split.
  { intros v calls h' d x err E Hd.
    unfold JSONVariation. by rewrite E; cbn; rewrite Hd. }
  split.
  { intros Hq. apply allDefaults_intro. intros kind.
    eexists _, _. by apply evaluate_no_provider. }
  split.
  { intros query flag err Hq Hget. apply allDefaults_intro. intros kind.
    eexists _, _. by eapply evaluate_lookup_failure. }
  split.
  { intros query flag Hq Hget.
    split; [|split; [|split]]; intros Hkind.
    - intros d. eapply BoolVariation_error.
      by eapply evaluate_kind_mismatch.
    - intros d. eapply StringVariation_error.
      by eapply evaluate_kind_mismatch.
    - split; intros d.
      + eapply IntVariation_error. by eapply evaluate_kind_mismatch.
      + eapply NumberVariation_error. by eapply evaluate_kind_mismatch.
    - intros d. eapply JSONVariation_error.
      by eapply evaluate_kind_mismatch. }
  intros query flag r h1 variation err h2 Hq Hget Hcheck Hhold Hflag.
  rewrite (evaluate_found fuel e query identifier target _ h flag
             Hq Hget eq_refl).
  by rewrite Hcheck, Hhold, Hflag.
Qed.

End AccessorFacts.

(** C4 on the deployment: [P] is a boolean flag, so the string accessor
    answers its default; [archived] serves a value that is not a number,
    so the integer accessor answers its default; the provider does not
    know [nowhere]. *)
Lemma typed_accessors_absorb_errors_witness :
  StringVariation (rt := Fixture.runtime) 1 Fixture.engine "P"
    (Some Fixture.u1) "fallback" Fixture.rulesAt1
  = Some ("fallback", [], Fixture.rulesAt1) /\
  IntVariation (rt := Fixture.runtime) 1 Fixture.engine "archived"
    (Some Fixture.u1) 7%Z Fixture.rulesAt1
  = Some (7%Z,
          [PostEvalData.mk Fixture.flagArchived (Some Fixture.u1)
             (rest.Variation.mk "none" "not_a_number")],
          Fixture.rulesAt1) /\
  BoolVariation (rt := Fixture.runtime) 1 Fixture.engine "nowhere"
    (Some Fixture.u1) true Fixture.rulesAt1
  = Some (true, [], Fixture.rulesAt1).
Proof.
  pose proof (typed_accessors_absorb_errors (rt := Fixture.runtime) 1
                Fixture.engine "P" (Some Fixture.u1) Fixture.rulesAt1)
    as (_ & _ & _ & _ & _ & _ & _ & _ & HP & _).
  pose proof (typed_accessors_absorb_errors (rt := Fixture.runtime) 1
                Fixture.engine "archived" (Some Fixture.u1) Fixture.rulesAt1)
    as (_ & _ & _ & _ & HA & _).
  pose proof (typed_accessors_absorb_errors (rt := Fixture.runtime) 1
                Fixture.engine "nowhere" (Some Fixture.u1) Fixture.rulesAt1)
    as (_ & _ & _ & _ & _ & _ & _ & HN & _).
  split; [|split].
  - refine (proj1 (proj2 (HP Fixture.query Fixture.flagP eq_refl eq_refl))
              _ "fallback").
    discriminate.
  - exact (proj1 (HA (rest.Variation.mk "none" "not_a_number") _ _ eq_refl)
             7%Z 0%Z (ErrDecode "invalid syntax") eq_refl).
  - exact (proj1 (HN Fixture.query Fixture.noFlag
                    (ErrProvider "flag not found") eq_refl eq_refl) true).
Defined.

(** ** The precedence of the stages *)

Section PrecedenceFacts.
Context {rt : Runtime.t} (query : Query.t).

(** C1. A flag whose state is on: the variation served is the first
    result that is not empty among those of the override resolver, the
    rule resolver, the default-serve distribution and the default-serve
    fixed variation, in that order; a stage is consulted only when the
    stages before it gave nothing, so the rules are sorted only when no
    override applies; and this is what [evaluate] returns for the flag
    once its prerequisite check has passed. *)
Theorem evaluateFlag_precedence (fuel : nat) (fc : rest.FeatureConfig.t)
    (target : option Target.t) (h : Heap) (a : string) :
  rest.FeatureConfig.State fc = rest.FeatureStateOn ->
  overrideResolver query fuel fc target = Some a ->
  (a <> "" ->
   evaluateFlag query fuel fc target h
   = Some (findVariation (rest.FeatureConfig.Variations fc) a, h)) /\
  (forall b h',
     ruleResolver query fuel fc target h = Some (b, h') ->
     evaluateFlag query fuel fc target h
     = Some (serveVariation fc
               (firstNonEmpty
                  [a; b; defaultServeDistribution fc target;
                   defaultServeVariation fc]),
             if String.eqb a "" then h' else h)) /\
  (forall b h',
     ruleResolver query fuel fc target h = Some (b, h') ->
     firstNonEmpty [a; b; defaultServeDistribution fc target;
                    defaultServeVariation fc] <> "" ->
     evaluateFlag query fuel fc target h
     = Some (findVariation (rest.FeatureConfig.Variations fc)
               (firstNonEmpty
                  [a; b; defaultServeDistribution fc target;
                   defaultServeVariation fc]),
             if String.eqb a "" then h' else h)) /\
  (forall e identifier h0 r b h',
     Evaluator.query e = Some query ->
     Query.GetFlag query identifier = (fc, None) ->
     prerequisiteCheck fuel e fc target h0 = Some (r, h) ->
     prerequisitesHold r = true ->
     ruleResolver query fuel fc target h = Some (b, h') ->
     exists calls,
       evaluate fuel e identifier target (rest.FeatureConfig.Kind fc) h0
       = Some (serveVariation fc
                 (firstNonEmpty
                    [a; b; defaultServeDistribution fc target;
                     defaultServeVariation fc]),
               calls,
               if String.eqb a "" then h' else h)).
Proof.
  intros Hon Ha.
  assert (Hall : forall b h',
    ruleResolver query fuel fc target h = Some (b, h') ->
    evaluateFlag query fuel fc target h
    = Some (serveVariation fc
              (firstNonEmpty
                 [a; b; defaultServeDistribution fc target;
                  defaultServeVariation fc]),
            if String.eqb a "" then h' else h)).
  { intros b h' Hb. rewrite (evaluateFlag_on _ _ _ _ _ Hon), Ha.
    cbn [firstNonEmpty].
    destruct (String.eqb a ""); [|reflexivity].
    by rewrite Hb. }
  split; [|split; [exact Hall|split]].
  - intros Hne. rewrite (evaluateFlag_on _ _ _ _ _ Hon), Ha.
    destruct (String.eqb_spec a ""); [contradiction|].
    by rewrite (serveVariation_nonempty _ _ Hne).
  - intros b h' Hb Hne. rewrite (Hall _ _ Hb).
    by rewrite (serveVariation_nonempty _ _ Hne).
  - intros e identifier h0 r b h' Hq Hget Hcheck Hhold Hb.
    rewrite (evaluate_found fuel e query identifier target _ h0 fc
               Hq Hget eq_refl).
    rewrite Hcheck, Hhold, (Hall _ _ Hb).
    destruct (serveVariation fc _) as [v [err|]] eqn:Es.
    + exists []. by rewrite (serveVariation_error _ _ _ _ Es).
    + by eexists.
Qed.

(** C10. The empty string means no match inside the evaluation of a
    flag: an override entry that names the target and a first matching
    rule whose variation is the empty string make their resolver return
    the empty string, which is what it returns when nothing matches; an
    on-state flag whose override resolver returns the empty string is
    evaluated as the same flag without overrides, and goes on to the
    default serve when its rule resolver returns it too; when every
    stage is empty the evaluation is an error, also when a variation of
    the flag has the empty identifier, and every typed accessor of the
    kind of the flag returns the default of its caller. *)
Theorem empty_variation_is_no_match (fuel : nat)
    (fc : rest.FeatureConfig.t) (target : option Target.t) (h : Heap) :
  rest.FeatureConfig.State fc = rest.FeatureStateOn ->
  (forall entry entries t,
     listsTarget entry t = true ->
     rest.VariationMap.Variation entry = "" ->
     evaluateVariationMap query fuel (entry :: entries) (Some t) = Some ""
     /\ evaluateVariationMap query fuel [] (Some t) = Some "") /\
  (forall l t rules (pre : list rest.ServingRule.t) rule post,
     h !! l = Some rules ->
     sortSliceStable lessPriority rules = (pre ++ rule :: post)%list ->
     Forall (fun r => evaluateRule query fuel r t = Some false) pre ->
     evaluateRule query fuel rule t = Some true ->
     ruleOutcome rule t = Some "" ->
     evaluateRules query fuel l (Some t) h
     = Some ("", <[l := sortSliceStable lessPriority rules]> h)) /\
  (overrideResolver query fuel fc target = Some "" ->
   evaluateFlag query fuel fc target h
   = evaluateFlag query fuel (withOverrides fc None) target h) /\
  (forall h',
     overrideResolver query fuel fc target = Some "" ->
     ruleResolver query fuel fc target h = Some ("", h') ->
     evaluateFlag query fuel fc target h
     = Some (serveVariation fc
               (firstNonEmpty [defaultServeDistribution fc target;
                               defaultServeVariation fc]), h')) /\
  (forall h',
     overrideResolver query fuel fc target = Some "" ->
     ruleResolver query fuel fc target h = Some ("", h') ->
     defaultServeDistribution fc target = "" ->
     defaultServeVariation fc = "" ->
     evaluateFlag query fuel fc target h
     = Some ((rest.Variation.mk "" "",
              Some (ErrEvaluationFlag (rest.FeatureConfig.Feature fc))),
             h') /\
     forall e identifier,
       Evaluator.query e = Some query ->
       Query.GetFlag query identifier = (fc, None) ->
       rest.FeatureConfig.Prerequisites fc = None ->
       (rest.FeatureConfig.Kind fc = "boolean" ->
        forall d, BoolVariation fuel e identifier target d h
                  = Some (d, [], h')) /\
       (rest.FeatureConfig.Kind fc = "string" ->
        forall d, StringVariation fuel e identifier target d h
                  = Some (d, [], h')) /\
       (rest.FeatureConfig.Kind fc = "int" ->
        (forall d, IntVariation fuel e identifier target d h
                   = Some (d, [], h')) /\
        (forall d, NumberVariation fuel e identifier target d h
                   = Some (d, [], h'))) /\
       (rest.FeatureConfig.Kind fc = "json" ->
        forall d, JSONVariation fuel e identifier target d h
                  = Some (d, [], h'))).
Proof.
  intros Hon.
  assert (Hnext : forall h',
    overrideResolver query fuel fc target = Some "" ->
    ruleResolver query fuel fc target h = Some ("", h') ->
    evaluateFlag query fuel fc target h
    = Some (serveVariation fc
              (firstNonEmpty [defaultServeDistribution fc target;
                              defaultServeVariation fc]), h')).
  { intros h' Ha Hb. rewrite (evaluateFlag_on _ _ _ _ _ Hon), Ha, Hb.
    reflexivity. }
  split; [|split; [|split; [|split; [exact Hnext|]]]].
  - intros entry entries t Hl Hv. split; [|reflexivity].
    by rewrite (evaluateVariationMap_listed _ _ _ _ _ Hl), Hv.
  - intros l t rules pre rule post Hl Hs Hpre Hrule Hout.
    rewrite (evaluateRules_unfold _ _ _ _ _ _ Hl), Hs.
    rewrite (firstRuleOutcome_skip _ _ _ _ _ Hpre).
    by rewrite (firstRuleOutcome_match _ _ _ _ _ _ Hrule Hout).
  - intros Ha.
    rewrite (evaluateFlag_on _ _ _ _ _ Hon), Ha.
    rewrite (evaluateFlag_on _ _ (withOverrides fc None) _ _ Hon).
    reflexivity.
  - intros h' Ha Hb Hd Hv.
    assert (Herr : evaluateFlag query fuel fc target h
                   = Some ((rest.Variation.mk "" "",
                            Some (ErrEvaluationFlag
                                    (rest.FeatureConfig.Feature fc))), h')).
    { rewrite (Hnext _ Ha Hb), Hd, Hv. reflexivity. }
    split; [exact Herr|].
    intros e identifier Hq Hget Hpre.
    assert (Hev : evaluate fuel e identifier target
                    (rest.FeatureConfig.Kind fc) h
                  = Some ((rest.Variation.mk "" "",
                           Some (ErrEvaluationFlag
                                   (rest.FeatureConfig.Feature fc))),
                          [], h')).
    { rewrite (evaluate_found fuel e query identifier target _ h fc
                 Hq Hget eq_refl).
      unfold prerequisiteCheck. rewrite Hpre. cbn. by rewrite Herr. }
    split; [|split; [|split]]; intros Hk; rewrite Hk in Hev.
    + intros d. exact (BoolVariation_error _ _ _ _ _ _ _ _ _ _ Hev).
    + intros d. exact (StringVariation_error _ _ _ _ _ _ _ _ _ _ Hev).
    + split; intros d.
      * exact (IntVariation_error _ _ _ _ _ _ _ _ _ _ Hev).
      * exact (NumberVariation_error _ _ _ _ _ _ _ _ _ _ Hev).
    + intros d. exact (JSONVariation_error _ _ _ _ _ _ _ _ _ _ Hev).
Qed.

End PrecedenceFacts.

(** C1 on the deployment: [tiered] serves u1 its override "two" and leaves
    the rules as they are; u2, whom no override and no rule matches, gets
    the default "three" and the rules are sorted on the way; [rollout] has
    no override and serves u1 the variation of its first matching rule. *)
Lemma evaluateFlag_precedence_witness :
  evaluateFlag (rt := Fixture.runtime) Fixture.query 1 Fixture.flagTiered
    (Some Fixture.u1) Fixture.rulesAt1
  = Some ((rest.Variation.mk "two" "2", None), Fixture.rulesAt1) /\
  evaluateFlag (rt := Fixture.runtime) Fixture.query 1 Fixture.flagTiered
    (Some Fixture.u2) Fixture.rulesAt1
  = Some ((rest.Variation.mk "three" "3", None),
          <[1%positive := [Fixture.rule1; Fixture.rule2; Fixture.rule3]]>
            Fixture.rulesAt1) /\
  evaluateFlag (rt := Fixture.runtime) Fixture.query 1 Fixture.flagRollout
    (Some Fixture.u1) Fixture.rulesAt1
  = Some ((rest.Variation.mk "one" "1", None),
          <[1%positive := [Fixture.rule1; Fixture.rule2; Fixture.rule3]]>
            Fixture.rulesAt1).
Proof.
  split; [|split].
  - refine (proj1 (evaluateFlag_precedence (rt := Fixture.runtime)
                     Fixture.query 1 Fixture.flagTiered (Some Fixture.u1)
                     Fixture.rulesAt1 "two" eq_refl eq_refl) _).
    discriminate.
  - exact (proj1 (proj2
             (evaluateFlag_precedence (rt := Fixture.runtime)
                Fixture.query 1 Fixture.flagTiered (Some Fixture.u2)
                Fixture.rulesAt1 "" eq_refl eq_refl))
             "" _ eq_refl).
  - exact (proj1 (proj2
             (evaluateFlag_precedence (rt := Fixture.runtime)
                Fixture.query 1 Fixture.flagRollout (Some Fixture.u1)
                Fixture.rulesAt1 "" eq_refl eq_refl))
             "one" _ eq_refl).
Defined.

(** C10 on the deployment: the first override of [hollow] names u1 and
    serves the empty identifier, so its second override for u1 is never
    reached, nothing else serves anything, and although [hollow] has a
    variation with the empty identifier the evaluation is an error and the
    string accessor answers its default. *)
Lemma empty_variation_is_no_match_witness :
  overrideResolver (rt := Fixture.runtime) Fixture.query 1 Fixture.flagHollow
    (Some Fixture.u1) = Some "" /\
  findVariation (rest.FeatureConfig.Variations Fixture.flagHollow) ""
  = (rest.Variation.mk "" "nothing", None) /\
  evaluateFlag (rt := Fixture.runtime) Fixture.query 1 Fixture.flagHollow
    (Some Fixture.u1) Fixture.rulesAt1
  = Some ((rest.Variation.mk "" "", Some (ErrEvaluationFlag "hollow")),
          Fixture.rulesAt1) /\
  StringVariation (rt := Fixture.runtime) 1 Fixture.engine "hollow"
    (Some Fixture.u1) "fallback" Fixture.rulesAt1
  = Some ("fallback", [], Fixture.rulesAt1).
Proof.
  pose proof (empty_variation_is_no_match (rt := Fixture.runtime)
                Fixture.query 1 Fixture.flagHollow (Some Fixture.u1)
                Fixture.rulesAt1 eq_refl) as (_ & _ & _ & _ & H).
  destruct (H Fixture.rulesAt1 eq_refl eq_refl eq_refl eq_refl) as [Hf Ha].
  split; [reflexivity|]. split; [reflexivity|]. split; [exact Hf|].
  exact (proj1 (proj2 (Ha Fixture.engine "hollow" eq_refl eq_refl eq_refl))
           eq_refl "fallback").
Defined.

(** ** Prerequisites *)

Section PrerequisiteFacts.
Context {rt : Runtime.t}.

Lemma checkPreRequisite_unfold fuel e query fc prerequisites target h :
  Evaluator.query e = Some query ->
  rest.FeatureConfig.Prerequisites fc = Some prerequisites ->
  checkPreRequisite (S fuel) e fc target h
  = checkPreRequisiteLoop query (S fuel)
      (fun pfc h => checkPreRequisite fuel e pfc target h)
      prerequisites target h.
Proof. intros Hq Hp. cbn [checkPreRequisite]. by rewrite Hq, Hp. Qed.

Lemma checkPreRequisiteLoop_reach fuel e query before l target h h0 :
  prerequisitesPass query fuel e target before h h0 ->
  checkPreRequisiteLoop query (S fuel)
    (fun pfc h => checkPreRequisite fuel e pfc target h)
    (before ++ l) target h
  = checkPreRequisiteLoop query (S fuel)
      (fun pfc h => checkPreRequisite fuel e pfc target h)
      l target h0.
Proof.
  revert h. induction before as [|pre before IH]; intros h.
  - cbn. by intros ->.
  - cbn [prerequisitesPass].
    intros (pfc & v & h1 & err & h2 & Hget & Hev & Hin & Hrec & Hrest).
    rewrite <- app_comm_cons. cbn [checkPreRequisiteLoop].
    rewrite Hget, Hev, Hin, Hrec. cbn [negb]. by apply IH.
Qed.

Lemma evaluateFlag_withPrerequisites query fuel fc prerequisites target h :
  evaluateFlag query fuel (withPrerequisites fc prerequisites) target h
  = evaluateFlag query fuel fc target h.
Proof. reflexivity. Qed.

(** C8, as amended. When the lookup of a prerequisite flag fails, the
    prerequisite is treated as satisfied and the check ends there: it
    answers satisfied with no error, whatever the prerequisites after it
    are, and [evaluate] goes on to evaluate the dependent flag. *)
Theorem prerequisite_lookup_failure_ends_check (fuel : nat)
    (e : Evaluator.t) (query : Query.t) (fc : rest.FeatureConfig.t)
    (before : list rest.Prerequisite.t) (pre : rest.Prerequisite.t)
    (after : list rest.Prerequisite.t) (target : option Target.t)
    (h h0 : Heap) (pfc : rest.FeatureConfig.t) (err : error) :
  Evaluator.query e = Some query ->
  rest.FeatureConfig.Prerequisites fc = Some (before ++ pre :: after)%list ->
  prerequisitesPass query fuel e target before h h0 ->
  Query.GetFlag query (rest.Prerequisite.Feature pre) = (pfc, Some err) ->
  checkPreRequisite (S fuel) e fc target h = Some ((true, None), h0) /\
  (forall identifier,
     Query.GetFlag query identifier = (fc, None) ->
     evaluate (S fuel) e identifier target (rest.FeatureConfig.Kind fc) h =
     match evaluateFlag query (S fuel) fc target h0 with
     | None => None
     | Some ((variation, Some err), h2) =>
       Some ((rest.Variation.mk "" "", Some err), [], h2)
     | Some ((variation, None), h2) =>
       Some ((variation, None),
             if Evaluator.postEvalCallback e
             then [PostEvalData.mk fc target variation]
             else [],
             h2)
     end).
Proof.
  intros Hq Hp Hpass Hget.
  assert (Hcheck : checkPreRequisite (S fuel) e fc target h
                   = Some ((true, None), h0)).
  { rewrite (checkPreRequisite_unfold _ _ _ _ _ _ _ Hq Hp).
    rewrite (checkPreRequisiteLoop_reach _ _ _ _ _ _ _ _ Hpass).
    cbn [checkPreRequisiteLoop]. by rewrite Hget. }
  split; [exact Hcheck|].
  intros identifier Hflag.
  rewrite (evaluate_found (S fuel) e query identifier target _ h fc
             Hq Hflag eq_refl).
  unfold prerequisiteCheck. by rewrite Hp, Hcheck.
Qed.

End PrerequisiteFacts.

(** C8 as it was stated fails on the deployment: the provider does not
    know the first prerequisite of [G]; the second, on [Q], is not
    satisfied and alone makes the check answer false; yet the check of
    [G] answers true, the second prerequisite being never looked at. *)
Lemma prerequisite_lookup_failure_counterexample :
  snd (Query.GetFlag Fixture.query "unknown")
  = Some (ErrProvider "flag not found") /\
  checkPreRequisite (rt := Fixture.runtime) 2 Fixture.engine
    (withPrerequisites Fixture.flagG
       (Some [rest.Prerequisite.mk "Q" ["x"]]))
    (Some Fixture.u1) ∅
  = Some ((false, None), ∅) /\
  checkPreRequisite (rt := Fixture.runtime) 2 Fixture.engine Fixture.flagG
    (Some Fixture.u1) ∅
  <> checkPreRequisite (rt := Fixture.runtime) 2 Fixture.engine
       (withPrerequisites Fixture.flagG
          (Some [rest.Prerequisite.mk "Q" ["x"]]))
       (Some Fixture.u1) ∅.
Proof.
  split; [reflexivity|]. split; [reflexivity|].
  vm_compute. discriminate.
Qed.

(** C8 as amended, on the deployment: the check of [G] answers true at its
    first prerequisite and [G] serves u1 its default "on". *)
Lemma prerequisite_lookup_failure_ends_check_witness :
  checkPreRequisite (rt := Fixture.runtime) 2 Fixture.engine Fixture.flagG
    (Some Fixture.u1) ∅
  = Some ((true, None), ∅) /\
  evaluate (rt := Fixture.runtime) 2 Fixture.engine "G" (Some Fixture.u1)
    "boolean" ∅
  = Some ((rest.Variation.mk "on" "true", None),
          [PostEvalData.mk Fixture.flagG (Some Fixture.u1)
             (rest.Variation.mk "on" "true")], ∅).
Proof.
  pose proof (prerequisite_lookup_failure_ends_check (rt := Fixture.runtime)
                1 Fixture.engine Fixture.query Fixture.flagG []
                (rest.Prerequisite.mk "unknown" ["on"])
                [rest.Prerequisite.mk "Q" ["x"]] (Some Fixture.u1) ∅ ∅
                Fixture.noFlag (ErrProvider "flag not found")
                eq_refl eq_refl eq_refl eq_refl) as [H1 H2].
  split; [exact H1|]. exact (H2 "G" eq_refl).
Defined.

(** ** What an evaluation changes *)

Section MutationFacts.
Context {rt : Runtime.t}.

Lemma onlySorted_reordered h h' :
  onlySorted h h' -> sameRulesReordered h h'.
Proof.
  intros H l. destruct (H l) as [E|(rules & E1 & E2)].
  - rewrite E. destruct (h !! l) as [rules|]; [|reflexivity].
    exists rules. by repeat split.
  - rewrite E1. eexists. split; [exact E2|].
    split; [apply sortSliceStable_perm|].
    intros p. apply sortSliceStable_stable.
Qed.

Lemma framed_intro target h h' calls :
  onlySorted h h' ->
  Forall (fun d => PostEvalData.Target d = target) calls ->
  framed target h h' calls.
Proof.
  intros H Hc. split; [exact H|].
  split; [by apply onlySorted_reordered|exact Hc].
Qed.

Lemma prerequisiteCheck_frame fuel e flag target h r h' :
  prerequisiteCheck fuel e flag target h = Some (r, h') -> onlySorted h h'.
Proof.
  unfold prerequisiteCheck.
  destruct (rest.FeatureConfig.Prerequisites flag).
  - apply checkPreRequisite_frame.
  - intros [= _ <-]. apply onlySorted_refl.
Qed.

Lemma evaluate_frame fuel e identifier target kind h r calls h' :
  evaluate fuel e identifier target kind h = Some (r, calls, h') ->
  framed target h h' calls.
Proof.
  destruct (Evaluator.query e) as [query|] eqn:Hq.
  2:{ rewrite (evaluate_no_provider _ _ _ _ _ _ Hq).
      intros [= _ <- <-]. apply framed_intro;
        [apply onlySorted_refl|constructor]. }
  destruct (Query.GetFlag query identifier) as [flag [err|]] eqn:Hget.
  { rewrite (evaluate_lookup_failure _ _ _ _ _ _ _ _ _ Hq Hget).
    intros [= _ <- <-]. apply framed_intro;
      [apply onlySorted_refl|constructor]. }
  destruct (String.eqb_spec (rest.FeatureConfig.Kind flag) kind)
    as [Hk|Hk].
  2:{ rewrite (evaluate_kind_mismatch _ _ _ _ _ _ _ _ Hq Hget Hk).
      intros [= _ <- <-]. apply framed_intro;
        [apply onlySorted_refl|constructor]. }
  rewrite (evaluate_found _ _ _ _ _ _ _ _ Hq Hget Hk).
  destruct (prerequisiteCheck fuel e flag target h) as [[r0 h1]|] eqn:Hc;
    [|discriminate].
  pose proof (prerequisiteCheck_frame _ _ _ _ _ _ _ Hc) as F1.
  destruct (prerequisitesHold r0).
  - destruct (evaluateFlag query fuel flag target h1)
      as [[[v [err|]] h2]|] eqn:Ef; [| |discriminate].
    + intros [= _ <- <-]. apply framed_intro; [|constructor].
      exact (onlySorted_trans _ _ _ F1 (evaluateFlag_frame _ _ _ _ _ _ _ Ef)).
    + intros [= _ <- <-]. apply framed_intro.
      * exact (onlySorted_trans _ _ _ F1
                 (evaluateFlag_frame _ _ _ _ _ _ _ Ef)).
      * destruct (Evaluator.postEvalCallback e); repeat constructor.
  - intros [= _ <- <-]. by apply framed_intro; [|constructor].
Qed.

(** C9. An evaluation leaves the target as it was given and changes
    nothing but the order of rule lists: whatever [evaluateRules],
    [evaluateFlag], [checkPreRequisite], [evaluate] or a typed accessor
    returns, every rule list of the store is either untouched or the
    stable sort by priority of what it was, so that it holds the same
    rules, and the callback receives the target of the caller; the
    flags, their other fields and the segments are values the engine
    only reads, and no function of the engine returns a target. *)
Theorem evaluation_only_sorts_rule_lists (fuel : nat) (e : Evaluator.t)
    (identifier : string) (target : option Target.t) (h : Heap) :
  (forall query servingRules variation h',
     evaluateRules query fuel servingRules target h = Some (variation, h') ->
     framed target h h' []) /\
  (forall query fc r h',
     evaluateFlag query fuel fc target h = Some (r, h') ->
     framed target h h' []) /\
  (forall fc r h',
     checkPreRequisite fuel e fc target h = Some (r, h') ->
     framed target h h' []) /\
  (forall kind r calls h',
     evaluate fuel e identifier target kind h = Some (r, calls, h') ->
     framed target h h' calls) /\
  (forall d r calls h',
     BoolVariation fuel e identifier target d h = Some (r, calls, h') ->
     framed target h h' calls) /\
  (forall d r calls h',
     StringVariation fuel e identifier target d h = Some (r, calls, h') ->
     framed target h h' calls) /\
  (forall d r calls h',
     IntVariation fuel e identifier target d h = Some (r, calls, h') ->
     framed target h h' calls) /\
  (forall d r calls h',
     NumberVariation fuel e identifier target d h = Some (r, calls, h') ->
     framed target h h' calls) /\
  (forall d r calls h',
     JSONVariation fuel e identifier target d h = Some (r, calls, h') ->
     framed target h h' calls).
Proof.
  split.
  { intros * E. apply framed_intro; [|constructor].
    exact (evaluateRules_frame _ _ _ _ _ _ _ E). }
  split.
  { intros * E. apply framed_intro; [|constructor].
    exact (evaluateFlag_frame _ _ _ _ _ _ _ E). }
  split.
  { intros * E. apply framed_intro; [|constructor].
    exact (checkPreRequisite_frame _ _ _ _ _ _ _ E). }
  split; [intros *; apply evaluate_frame|].
  split.
  { intros d r calls h'. unfold BoolVariation.
    destruct (evaluate fuel e identifier target "boolean" h)
      as [[[[v err] calls0] h0]|] eqn:E; [|discriminate].
    apply evaluate_frame in E.
    cbn. by destruct err; intros [= _ <- <-]. }
  split.
  { intros d r calls h'. unfold StringVariation.
    destruct (evaluate fuel e identifier target "string" h)
      as [[[[v err] calls0] h0]|] eqn:E; [|discriminate].
    apply evaluate_frame in E.
    cbn. by destruct err; intros [= _ <- <-]. }
  split.
  { intros d r calls h'. unfold IntVariation.
    destruct (evaluate fuel e identifier target "int" h)
      as [[[[v err] calls0] h0]|] eqn:E; [|discriminate].
    apply evaluate_frame in E.
    cbn. destruct err; [by intros [= _ <- <-]|].
    by destruct (Runtime.strconvAtoi rt _) as [x [err|]];
      intros [= _ <- <-]. }
  split.
  { intros d r calls h'. unfold NumberVariation.
    destruct (evaluate fuel e identifier target "int" h)
      as [[[[v err] calls0] h0]|] eqn:E; [|discriminate].
    apply evaluate_frame in E.
    cbn. destruct err; [by intros [= _ <- <-]|].
    by destruct (Runtime.strconvParseFloat rt _) as [x [err|]];
      intros [= _ <- <-]. }
  intros d r calls h'. unfold JSONVariation.
  destruct (evaluate fuel e identifier target "json" h)
    as [[[[v err] calls0] h0]|] eqn:E; [|discriminate].
  apply evaluate_frame in E.
  cbn. destruct err; [by intros [= _ <- <-]|].
  by destruct (Runtime.jsonUnmarshal rt _) as [x [err|]];
    intros [= _ <- <-].
Qed.

End MutationFacts.

(** C9 on the deployment: the integer accessor on [rollout] for u1
    answers 1 and leaves the rules at location 1 sorted. *)
Lemma evaluation_only_sorts_rule_lists_witness :
  IntVariation (rt := Fixture.runtime) 1 Fixture.engine "rollout"
    (Some Fixture.u1) 0%Z Fixture.rulesAt1
  = Some (1%Z,
          [PostEvalData.mk Fixture.flagRollout (Some Fixture.u1)
             (rest.Variation.mk "one" "1")],
          <[1%positive := [Fixture.rule1; Fixture.rule2; Fixture.rule3]]>
            Fixture.rulesAt1) /\
  framed (Some Fixture.u1) Fixture.rulesAt1
    (<[1%positive := [Fixture.rule1; Fixture.rule2; Fixture.rule3]]>
       Fixture.rulesAt1)
    [PostEvalData.mk Fixture.flagRollout (Some Fixture.u1)
       (rest.Variation.mk "one" "1")].
Proof.
  split; [reflexivity|].
  pose proof (evaluation_only_sorts_rule_lists (rt := Fixture.runtime) 1
                Fixture.engine "rollout" (Some Fixture.u1) Fixture.rulesAt1)
    as (_ & _ & _ & _ & _ & _ & H & _).
  exact (H 0%Z 1%Z _ _ eq_refl).
Defined.

(** ** The text a clause compares *)

(** C7, what the code does. Integers are written in decimal, booleans as
    "true" and "false", strings are taken as they are; a value of any
    other kind is turned into the empty string, not into its generic
    text: a clause that compares the attribute [score] of u1, the
    floating-point number 1.5, with the text "1.5" does not match. *)
Theorem clauseObject_other_kinds_empty :
  (forall i, clauseObject (VInt i) = strconv.FormatInt i /\
             clauseObject (VInt64 i) = strconv.FormatInt i) /\
  clauseObject (VInt 42) = "42" /\
  clauseObject (VInt64 (-7)) = "-7" /\
  clauseObject (VBool true) = "true" /\
  clauseObject (VBool false) = "false" /\
  (forall s, clauseObject (VString s) = s) /\
  (forall k text, clauseObject (VOther k text) = "") /\
  Runtime.getAttrValue Fixture.runtime (Some Fixture.u1) "score"
  = VOther Float64 "1.5" /\
  reflect.Text (VOther Float64 "1.5") = "1.5" /\
  evaluateClause (rt := Fixture.runtime) Fixture.segments 0
    (Some (rest.Clause.mk "score" equalSensitiveOperator ["1.5"]))
    Fixture.u1 = Some false /\
  evaluateClause (rt := Fixture.runtime) Fixture.segments 0
    (Some (rest.Clause.mk "score" equalSensitiveOperator [""]))
    Fixture.u1 = Some true.
Proof. repeat split. Qed.

(** ** The depth bound

    [fuel] only bounds the depth of the recursion through the provider: an
    answer obtained with some fuel is the answer with any larger fuel. *)

Section FuelFacts.
Context {rt : Runtime.t}.

Lemma evaluateClauseWith_mono f g clause target r :
  extends f g ->
  evaluateClauseWith f clause target = Some r ->
  evaluateClauseWith g clause target = Some r.
Proof.
  intros Hfg. unfold evaluateClauseWith.
  destruct clause as [clause|]; [|done].
  destruct (rest.Clause.Values clause) as [|value values]; [done|].
  repeat (match goal with
          | |- context [String.eqb ?a ?b] => destruct (String.eqb a b)
          | |- context [negb ?a && negb ?b] => destruct (negb a && negb b)
          end; cbn [negb andb]; try done).
  apply Hfg.
Qed.

Lemma evaluateClausesWith_mono f g clauses target r :
  extends f g ->
  evaluateClausesWith f clauses target = Some r ->
  evaluateClausesWith g clauses target = Some r.
Proof.
  intros Hfg. induction clauses as [|c cs IH]; [done|].
  cbn [evaluateClausesWith].
  destruct (evaluateClauseWith f (Some c) target) as [b|] eqn:E;
    [|discriminate].
  rewrite (evaluateClauseWith_mono _ _ _ _ _ Hfg E). cbn.
  destruct b; [exact IH|done].
Qed.

Lemma isTargetIncludedOrExcludedInSegment_mono query fuel fuel' :
  fuel <= fuel' ->
  extends (isTargetIncludedOrExcludedInSegment query fuel)
    (isTargetIncludedOrExcludedInSegment query fuel').
Proof.
  revert fuel'. induction fuel as [|fuel IH]; intros fuel' Hle l t r;
    [discriminate|].
  destruct fuel' as [|fuel']; [lia|].
  assert (Hext : extends (isTargetIncludedOrExcludedInSegment query fuel)
                   (isTargetIncludedOrExcludedInSegment query fuel'))
    by (apply IH; lia).
  induction l as [|id l IHl]; [done|].
  rewrite !isTargetIncludedOrExcludedInSegment_cons.
  destruct (Query.GetSegment query id) as [segment [err|]]; [done|].
  destruct (inExcluded segment t); [done|].
  destruct (inIncluded segment t); [done|].
  destruct (rest.Segment.Rules segment) as [rules|]; [|exact IHl].
  unfold evaluateClauses.
  destruct (evaluateClausesWith
              (isTargetIncludedOrExcludedInSegment query fuel) rules t)
    as [b|] eqn:E; [|discriminate].
  rewrite (evaluateClausesWith_mono _ _ _ _ _ Hext E).
  destruct b; [done|exact IHl].
Qed.

Lemma evaluateRule_mono query fuel fuel' rule target r :
  fuel <= fuel' ->
  evaluateRule query fuel rule target = Some r ->
  evaluateRule query fuel' rule target = Some r.
Proof.
  intros Hle. apply evaluateClausesWith_mono.
  by apply isTargetIncludedOrExcludedInSegment_mono.
Qed.

Lemma firstRuleOutcome_mono query fuel fuel' rules target r :
  fuel <= fuel' ->
  firstRuleOutcome query fuel rules target = Some r ->
  firstRuleOutcome query fuel' rules target = Some r.
Proof.
  intros Hle. induction rules as [|rule rules IH]; [done|].
  cbn [firstRuleOutcome].
  destruct (evaluateRule query fuel rule target) as [b|] eqn:E;
    [|discriminate].
  rewrite (evaluateRule_mono _ _ _ _ _ _ Hle E). cbn.
  destruct b; cbn; [|exact IH].
  destruct (rest.Serve.Distribution _); [done|].
  destruct (rest.Serve.Variation _); [done|exact IH].
Qed.

Lemma evaluateRules_mono query fuel fuel' servingRules target h r :
  fuel <= fuel' ->
  evaluateRules query fuel servingRules target h = Some r ->
  evaluateRules query fuel' servingRules target h = Some r.
Proof.
  intros Hle. unfold evaluateRules.
  destruct target as [target|]; [|done].
  destruct (h !! servingRules) as [rules|]; [|done].
  destruct (firstRuleOutcome query fuel _ target) as [v|] eqn:E;
    [|discriminate].
  by rewrite (firstRuleOutcome_mono _ _ _ _ _ _ Hle E).
Qed.

Lemma evaluateVariationMap_mono query fuel fuel' variationsMap target r :
  fuel <= fuel' ->
  evaluateVariationMap query fuel variationsMap target = Some r ->
  evaluateVariationMap query fuel' variationsMap target = Some r.
Proof.
  intros Hle. unfold evaluateVariationMap.
  destruct target as [target|]; [|done].
  induction variationsMap as [|entry entries IH]; [done|].
  cbn [evaluateVariationMapLoop].
  destruct (match rest.VariationMap.Targets entry with
            | Some _ => _ | None => _ end); [done|].
  destruct (rest.VariationMap.TargetSegments entry) as [ids|];
    [|exact IH].
  destruct (isTargetIncludedOrExcludedInSegment query fuel ids target)
    as [b|] eqn:E; [|discriminate].
  rewrite (isTargetIncludedOrExcludedInSegment_mono _ _ _ Hle _ _ _ E).
  destruct b; [done|exact IH].
Qed.

Lemma evaluateFlag_mono query fuel fuel' fc target h r :
  fuel <= fuel' ->
  evaluateFlag query fuel fc target h = Some r ->
  evaluateFlag query fuel' fc target h = Some r.
Proof.
  intros Hle.
  destruct (String.eqb_spec (rest.FeatureConfig.State fc)
              rest.FeatureStateOn) as [Hon|Hoff].
  - rewrite !(evaluateFlag_on _ _ _ _ _ Hon).
    unfold overrideResolver, ruleResolver.
    assert (Ho : forall a,
      match rest.FeatureConfig.VariationToTargetMap fc with
      | Some m => evaluateVariationMap query fuel m target
      | None => Some ""
      end = Some a ->
      match rest.FeatureConfig.VariationToTargetMap fc with
      | Some m => evaluateVariationMap query fuel' m target
      | None => Some ""
      end = Some a).
    { destruct (rest.FeatureConfig.VariationToTargetMap fc); [|done].
      intros a. by apply evaluateVariationMap_mono. }
    destruct (match rest.FeatureConfig.VariationToTargetMap fc with
              | Some m => evaluateVariationMap query fuel m target
              | None => Some ""
              end) as [a|]; [|discriminate].
    rewrite (Ho a eq_refl).
    destruct (String.eqb a ""); [|done].
    destruct (rest.FeatureConfig.Rules fc) as [rules|]; [|done].
    destruct (evaluateRules query fuel rules target h) as [[b h']|] eqn:E;
      [|discriminate].
    by rewrite (evaluateRules_mono _ _ _ _ _ _ _ Hle E).
  - by rewrite !(evaluateFlag_off _ _ _ _ _ Hoff).
Qed.

Lemma checkPreRequisiteLoop_mono query fuel fuel' check check'
    prerequisites target :
  fuel <= fuel' ->
  extends check check' ->
  forall h r,
    checkPreRequisiteLoop query fuel check prerequisites target h = Some r ->
    checkPreRequisiteLoop query fuel' check' prerequisites target h
    = Some r.
Proof.
  intros Hle Hext.
  induction prerequisites as [|pre prerequisites IH]; intros h r; [done|].
  cbn [checkPreRequisiteLoop].
  destruct (Query.GetFlag query (rest.Prerequisite.Feature pre))
    as [pfc [err|]]; [done|].
  destruct (evaluateFlag query fuel pfc target h) as [[[v err] h1]|] eqn:E;
    [|discriminate].
  rewrite (evaluateFlag_mono _ _ _ _ _ _ _ Hle E).
  destruct err; [done|].
  destruct (negb (contains _ _)); [done|].
  destruct (check pfc h1) as [[[b err] h2]|] eqn:Ec; [|discriminate].
  rewrite (Hext _ _ _ Ec).
  destruct (negb b); [done|apply IH].
Qed.

Lemma checkPreRequisite_mono fuel fuel' e fc target h r :
  fuel <= fuel' ->
  checkPreRequisite fuel e fc target h = Some r ->
  checkPreRequisite fuel' e fc target h = Some r.
Proof.
  revert fuel' fc h r.
  induction fuel as [|fuel IH]; intros fuel' fc h r Hle; [discriminate|].
  destruct fuel' as [|fuel']; [lia|].
  cbn [checkPreRequisite].
  destruct (Evaluator.query e) as [query|]; [|done].
  destruct (rest.FeatureConfig.Prerequisites fc) as [prerequisites|];
    [|done].
  apply checkPreRequisiteLoop_mono; [exact Hle|].
  intros pfc h0 r0. apply IH. lia.
Qed.

(** More fuel does not change what [evaluate] answers. *)
Lemma evaluate_mono fuel fuel' e identifier target kind h r :
  fuel <= fuel' ->
  evaluate fuel e identifier target kind h = Some r ->
  evaluate fuel' e identifier target kind h = Some r.
Proof.
  intros Hle. unfold evaluate.
  destruct (Evaluator.query e) as [query|]; [|done].
  destruct (Query.GetFlag query identifier) as [flag [err|]]; [done|].
  destruct (negb _); [done|].
  assert (Hc : forall x,
    match rest.FeatureConfig.Prerequisites flag with
    | Some _ => checkPreRequisite fuel e flag target h
    | None => Some (true, None, h)
    end = Some x ->
    match rest.FeatureConfig.Prerequisites flag with
    | Some _ => checkPreRequisite fuel' e flag target h
    | None => Some (true, None, h)
    end = Some x).
  { destruct (rest.FeatureConfig.Prerequisites flag); [|done].
    intros x. by apply checkPreRequisite_mono. }
  destruct (match rest.FeatureConfig.Prerequisites flag with
            | Some _ => checkPreRequisite fuel e flag target h
            | None => Some (true, None, h)
            end) as [[[prereq err] h1]|]; [|discriminate].
  rewrite (Hc _ eq_refl). cbn.
  destruct (_ || _); [done|].
  destruct (evaluateFlag query fuel flag target h1) as [x|] eqn:E;
    [|discriminate].
  by rewrite (evaluateFlag_mono _ _ _ _ _ _ _ Hle E).
Qed.

(** A flag that uses no segment and declares no prerequisite is
    evaluated with any fuel. *)
Lemma evaluateFlag_total_without_segments query fuel fc target h :
  rest.FeatureConfig.VariationToTargetMap fc = None ->
  rest.FeatureConfig.Rules fc = None ->
  exists r, evaluateFlag query fuel fc target h = Some (r, h).
Proof.
  intros Hm Hr. unfold evaluateFlag. rewrite Hm, Hr.
  destruct (String.eqb _ _); cbn; by eexists.
Qed.

End FuelFacts.


(** ** Termination on providers without cycles

    When the segments and the prerequisites of the provider have no cycle,
    enough fuel makes every function of the engine answer. *)

Section TerminationFacts.
Context {rt : Runtime.t}.

Lemma evaluateClauseWith_total f clause target :
  (rest.Clause.Op clause = segmentMatchOperator ->
   is_Some (f (rest.Clause.Values clause) target)) ->
  is_Some (evaluateClauseWith f (Some clause) target).
Proof.
  intros Hf. unfold evaluateClauseWith.
  destruct (rest.Clause.Values clause) as [|value values] eqn:Hv; [eauto|].
  destruct (String.eqb_spec (rest.Clause.Op clause) segmentMatchOperator)
    as [Hop|Hop].
  - rewrite Hop. cbn. by apply Hf.
  - repeat case_match; eauto.
Qed.

Lemma evaluateClausesWith_total f clauses target :
  (forall clause,
     In clause clauses ->
     rest.Clause.Op clause = segmentMatchOperator ->
     is_Some (f (rest.Clause.Values clause) target)) ->
  is_Some (evaluateClausesWith f clauses target).
Proof.
  induction clauses as [|c cs IH]; intros Hf; [by eexists|].
  cbn [evaluateClausesWith].
  destruct (evaluateClauseWith_total f c target) as [b Hb].
  { apply Hf. by left. }
  rewrite Hb. cbn. destruct b; cbn; [|by eexists].
  apply IH. intros c' Hin. apply Hf. by right.
Qed.

Lemma isTargetIncludedOrExcludedInSegment_ranked query rank bound n :
  segmentsRanked query rank bound ->
  forall segmentList target,
    (forall id, In id segmentList -> rank id < n) ->
    is_Some (isTargetIncludedOrExcludedInSegment query (S n) segmentList
               target).
Proof.
  intros [_ Hrank]. induction n as [|n IH]; intros l t Hl.
  - destruct l as [|id l]; [by eexists|].
    specialize (Hl id (or_introl eq_refl)). lia.
  - induction l as [|id l IHl]; [by eexists|].
    rewrite isTargetIncludedOrExcludedInSegment_cons.
    assert (Htail : is_Some (isTargetIncludedOrExcludedInSegment query
                               (S (S n)) l t)).
    { apply IHl. intros id' Hin. apply Hl. by right. }
    destruct (Query.GetSegment query id) as [segment [err|]] eqn:Hget;
      [by eexists|].
    destruct (inExcluded segment t); [by eexists|].
    destruct (inIncluded segment t); [by eexists|].
    destruct (rest.Segment.Rules segment) as [rules|] eqn:Hrules;
      [|exact Htail].
    destruct (evaluateClausesWith_total
                (isTargetIncludedOrExcludedInSegment query (S n)) rules t)
      as [b Hb].
    { intros c Hc Hop. apply IH. intros id' Hin.
      pose proof (Hrank id segment rules c id' Hget Hrules Hc Hop Hin).
      specialize (Hl id (or_introl eq_refl)). lia. }
    unfold evaluateClauses. rewrite Hb.
    destruct b; [by eexists|exact Htail].
Qed.

Lemma isTargetIncludedOrExcludedInSegment_total query rank bound fuel :
  segmentsRanked query rank bound ->
  bound < fuel ->
  forall segmentList target,
    is_Some (isTargetIncludedOrExcludedInSegment query fuel segmentList
               target).
Proof.
  intros Hr Hlt l t.
  destruct (isTargetIncludedOrExcludedInSegment_ranked query rank bound bound
              Hr l t) as [b Hb].
  { intros id _. apply Hr. }
  exists b.
  apply (isTargetIncludedOrExcludedInSegment_mono query (S bound) fuel);
    [lia|exact Hb].
Qed.

Lemma evaluateFlag_total query rank bound fuel fc target h :
  segmentsRanked query rank bound ->
  bound < fuel ->
  is_Some (evaluateFlag query fuel fc target h).
Proof.
  intros Hr Hlt.
  pose proof (isTargetIncludedOrExcludedInSegment_total query rank bound fuel
                Hr Hlt) as Hseg.
  assert (Hrule : forall rule t, is_Some (evaluateRule query fuel rule t)).
  { intros rule t. apply evaluateClausesWith_total. intros c _ _.
    apply Hseg. }
  assert (Hrules : forall rules t,
            is_Some (firstRuleOutcome query fuel rules t)).
  { intros rules t. induction rules as [|rule rules IH]; [by eexists|].
    cbn [firstRuleOutcome]. destruct (Hrule rule t) as [b ->]. cbn.
    destruct b; cbn; [|exact IH].
    destruct (rest.Serve.Distribution _); [by eexists|].
    destruct (rest.Serve.Variation _); [by eexists|exact IH]. }
  assert (Hmap : forall m, is_Some (evaluateVariationMap query fuel m target)).
  { intros m. unfold evaluateVariationMap.
    destruct target as [t|]; [|by eexists].
    induction m as [|entry m IH]; [by eexists|].
    cbn [evaluateVariationMapLoop].
    destruct (match rest.VariationMap.Targets entry with
              | Some _ => _ | None => _ end); [by eexists|].
    destruct (rest.VariationMap.TargetSegments entry) as [ids|];
      [|exact IH].
    destruct (Hseg ids t) as [b ->]. destruct b; [by eexists|exact IH]. }
  destruct (String.eqb_spec (rest.FeatureConfig.State fc)
              rest.FeatureStateOn) as [Hon|Hoff].
  - rewrite (evaluateFlag_on _ _ _ _ _ Hon).
    unfold overrideResolver, ruleResolver.
    assert (Ho : is_Some
              match rest.FeatureConfig.VariationToTargetMap fc with
              | Some m => evaluateVariationMap query fuel m target
              | None => Some ""
              end).
    { destruct (rest.FeatureConfig.VariationToTargetMap fc);
        [apply Hmap|by eexists]. }
    destruct Ho as [a ->].
    destruct (String.eqb a ""); [|by eexists].
    destruct (rest.FeatureConfig.Rules fc) as [l|]; [|by eexists].
    unfold evaluateRules.
    destruct target as [t|]; [|by eexists].
    destruct (h !! l) as [rules|]; [|by eexists].
    destruct (Hrules (sortSliceStable lessPriority rules) t) as [v ->].
    by eexists.
  - rewrite (evaluateFlag_off _ _ _ _ _ Hoff). by eexists.
Qed.

Lemma checkPreRequisiteLoop_total query fuel check prerequisites target :
  (forall fc h, is_Some (evaluateFlag query fuel fc target h)) ->
  (forall pre pfc h,
     In pre prerequisites ->
     Query.GetFlag query (rest.Prerequisite.Feature pre) = (pfc, None) ->
     is_Some (check pfc h)) ->
  forall h,
    is_Some (checkPreRequisiteLoop query fuel check prerequisites target h).
Proof.
  intros Hflag.
  induction prerequisites as [|pre l IH]; intros Hcheck h; [by eexists|].
  cbn [checkPreRequisiteLoop].
  destruct (Query.GetFlag query (rest.Prerequisite.Feature pre))
    as [pfc [err|]] eqn:Hget; [by eexists|].
  destruct (Hflag pfc h) as [[[v err] h1] ->].
  destruct err; [by eexists|].
  destruct (negb (contains _ _)); [by eexists|].
  destruct (Hcheck pre pfc h1 (or_introl eq_refl) Hget) as [[[b err] h2] ->].
  destruct (negb b); [by eexists|].
  apply IH. intros pre' pfc' h' Hin. apply Hcheck. by right.
Qed.

Lemma checkPreRequisite_total e srank bound frank n :
  (forall query, Evaluator.query e = Some query ->
                 segmentsRanked query srank bound /\ flagsRanked query frank) ->
  forall fuel fc target h,
    frank fc < n ->
    bound + n <= fuel ->
    is_Some (checkPreRequisite fuel e fc target h).
Proof.
  intros Hprov. induction n as [|n IH]; intros fuel fc target h Hfc Hn;
    [lia|].
  destruct fuel as [|fuel]; [lia|].
  cbn [checkPreRequisite].
  destruct (Evaluator.query e) as [query|] eqn:Hq; [|by eexists].
  destruct (Hprov query eq_refl) as [Hs Hf].
  destruct (rest.FeatureConfig.Prerequisites fc) as [prerequisites|] eqn:Hp;
    [|by eexists].
  apply checkPreRequisiteLoop_total.
  - intros pfc h0. apply (evaluateFlag_total query srank bound); [exact Hs|].
    lia.
  - intros pre pfc h0 Hin Hget. apply IH; [|lia].
    pose proof (Hf fc prerequisites pre pfc Hp Hin Hget). lia.
Qed.

(** With a provider without cycles [evaluate] answers as soon as the fuel
    exceeds the depth of the segments plus that of the prerequisites. *)
Lemma evaluate_total e srank bound frank fuel identifier target kind h :
  (forall query, Evaluator.query e = Some query ->
                 segmentsRanked query srank bound /\ flagsRanked query frank) ->
  (forall query flag,
     Evaluator.query e = Some query ->
     Query.GetFlag query identifier = (flag, None) ->
     bound + frank flag < fuel) ->
  is_Some (evaluate fuel e identifier target kind h).
Proof.
  intros Hprov Hfuel.
  case_eq (Evaluator.query e); [intros query Hq|intros Hq].
  2:{ rewrite (evaluate_no_provider _ _ _ _ _ _ Hq). by eexists. }
  destruct (Query.GetFlag query identifier) as [flag [err|]] eqn:Hget.
  { rewrite (evaluate_lookup_failure _ _ _ _ _ _ _ _ _ Hq Hget). by eexists. }
  destruct (String.eqb_spec (rest.FeatureConfig.Kind flag) kind) as [Hk|Hk].
  2:{ rewrite (evaluate_kind_mismatch _ _ _ _ _ _ _ _ Hq Hget Hk).
      by eexists. }
  rewrite (evaluate_found _ _ _ _ _ _ _ _ Hq Hget Hk).
  destruct (Hprov query Hq) as [Hs Hf].
  pose proof (Hfuel query flag Hq Hget) as Hlt.
  assert (Hc : is_Some (prerequisiteCheck fuel e flag target h)).
  { unfold prerequisiteCheck.
    destruct (rest.FeatureConfig.Prerequisites flag); [|by eexists].
    apply (checkPreRequisite_total e srank bound frank (S (frank flag)));
      [exact Hprov|lia|lia]. }
  destruct Hc as [[r h1] ->].
  destruct (prerequisitesHold r); [|by eexists].
  destruct (evaluateFlag_total query srank bound fuel flag target h1 Hs)
    as [[[v [err|]] h2] ->]; [lia| |]; by eexists.
Qed.

End TerminationFacts.

(** ** Evaluating again *)

Section SettledFacts.
Context {rt : Runtime.t}.

Lemma onlySorted_lookup_sorted (h hF : Heap) l rules :
  h !! l = Some (sortSliceStable lessPriority rules) ->
  onlySorted h hF ->
  hF !! l = Some (sortSliceStable lessPriority rules).
Proof.
  intros Hl H. destruct (H l) as [E|(rules0 & E1 & E2)]; [congruence|].
  rewrite E2. f_equal.
  assert (rules0 = sortSliceStable lessPriority rules) as -> by congruence.
  apply sortSliceStable_idem.
Qed.

Lemma onlySorted_lookup_None (h hF : Heap) l :
  h !! l = None -> onlySorted h hF -> hF !! l = None.
Proof.
  intros Hl H. destruct (H l) as [E|(rules0 & E1 & _)]; congruence.
Qed.

Lemma evaluateRules_settled query fuel servingRules target h v h' hF :
  evaluateRules query fuel servingRules target h = Some (v, h') ->
  onlySorted h' hF ->
  evaluateRules query fuel servingRules target hF = Some (v, hF).
Proof.
  unfold evaluateRules. destruct target as [target|]; [|by intros [= <- _]].
  destruct (h !! servingRules) as [rules|] eqn:Hl.
  - destruct (firstRuleOutcome query fuel _ target) as [v0|] eqn:Ho;
      [|discriminate].
    cbn. intros [= <- <-] HF.
    rewrite (onlySorted_lookup_sorted _ _ servingRules rules
               (lookup_insert_eq _ _ _) HF).
    rewrite sortSliceStable_idem, Ho. cbn. f_equal. f_equal.
    apply insert_id.
    exact (onlySorted_lookup_sorted _ _ servingRules rules
             (lookup_insert_eq _ _ _) HF).
  - intros [= <- <-] HF. by rewrite (onlySorted_lookup_None _ _ _ Hl HF).
Qed.

Lemma evaluateFlag_settled query fuel fc target h r h' hF :
  evaluateFlag query fuel fc target h = Some (r, h') ->
  onlySorted h' hF ->
  evaluateFlag query fuel fc target hF = Some (r, hF).
Proof.
  destruct (String.eqb_spec (rest.FeatureConfig.State fc)
              rest.FeatureStateOn) as [Hon|Hoff].
  - rewrite !(evaluateFlag_on _ _ _ _ _ Hon).
    destruct (overrideResolver query fuel fc target) as [a|]; [|discriminate].
    destruct (String.eqb a ""); [|by intros [= <- _]].
    unfold ruleResolver.
    destruct (rest.FeatureConfig.Rules fc) as [rules|];
      [|by intros [= <- _]].
    destruct (evaluateRules query fuel rules target h) as [[b h1]|] eqn:E;
      [|discriminate].
    intros [= <- <-] HF.
    by rewrite (evaluateRules_settled _ _ _ _ _ _ _ _ E HF).
  - rewrite !(evaluateFlag_off _ _ _ _ _ Hoff). by intros [= <- _].
Qed.

Lemma checkPreRequisiteLoop_settled query fuel check prerequisites target :
  (forall fc h r h', check fc h = Some (r, h') -> onlySorted h h') ->
  (forall fc h r h' hF,
     check fc h = Some (r, h') -> onlySorted h' hF ->
     check fc hF = Some (r, hF)) ->
  forall h r h' hF,
    checkPreRequisiteLoop query fuel check prerequisites target h
    = Some (r, h') ->
    onlySorted h' hF ->
    checkPreRequisiteLoop query fuel check prerequisites target hF
    = Some (r, hF).
Proof.
  intros Hframe Hcheck.
  induction prerequisites as [|pre prerequisites IH]; intros h r h' hF.
  - by intros [= <- _].
  - cbn [checkPreRequisiteLoop].
    destruct (Query.GetFlag query (rest.Prerequisite.Feature pre))
      as [pfc [err|]]; [by intros [= <- _]|].
    destruct (evaluateFlag query fuel pfc target h)
      as [[[v [err|]] h1]|] eqn:Ef; [| |discriminate].
    + intros [= <- <-] HF.
      by rewrite (evaluateFlag_settled _ _ _ _ _ _ _ _ Ef HF).
    + destruct (negb (contains _ _)) eqn:Hc.
      * intros [= <- <-] HF.
        by rewrite (evaluateFlag_settled _ _ _ _ _ _ _ _ Ef HF), Hc.
      * destruct (check pfc h1) as [[[b err] h2]|] eqn:Ec; [|discriminate].
        destruct (negb b) eqn:Hb.
        -- intros [= <- <-] HF.
           assert (F1 : onlySorted h1 hF)
             by exact (onlySorted_trans _ _ _ (Hframe _ _ _ _ Ec) HF).
           rewrite (evaluateFlag_settled _ _ _ _ _ _ _ _ Ef F1), Hc.
           by rewrite (Hcheck _ _ _ _ _ Ec HF), Hb.
        -- intros E HF.
           assert (F2 : onlySorted h2 hF).
           { refine (onlySorted_trans _ _ _ _ HF).
             exact (checkPreRequisiteLoop_frame _ _ _ _ _ Hframe _ _ _ E). }
           assert (F1 : onlySorted h1 hF)
             by exact (onlySorted_trans _ _ _ (Hframe _ _ _ _ Ec) F2).
           rewrite (evaluateFlag_settled _ _ _ _ _ _ _ _ Ef F1), Hc.
           rewrite (Hcheck _ _ _ _ _ Ec F2), Hb.
           exact (IH _ _ _ _ E HF).
Qed.

Lemma checkPreRequisite_settled fuel e fc target h r h' hF :
  checkPreRequisite fuel e fc target h = Some (r, h') ->
  onlySorted h' hF ->
  checkPreRequisite fuel e fc target hF = Some (r, hF).
Proof.
  revert fc h r h' hF.
  induction fuel as [|fuel IH]; intros fc h r h' hF; [discriminate|].
  cbn [checkPreRequisite].
  destruct (Evaluator.query e) as [query|]; [|by intros [= <- _]].
  destruct (rest.FeatureConfig.Prerequisites fc) as [prerequisites|];
    [|by intros [= <- _]].
  apply checkPreRequisiteLoop_settled.
  - intros fc' h0 r0 h0'. apply checkPreRequisite_frame.
  - intros fc' h0 r0 h0' hF0. apply IH.
Qed.

Lemma evaluate_settled fuel e identifier target kind h r h' hF :
  evaluate fuel e identifier target kind h = Some (r, h') ->
  onlySorted h' hF ->
  evaluate fuel e identifier target kind hF = Some (r, hF).
Proof.
  case_eq (Evaluator.query e); [intros query Hq|intros Hq].
  2:{ rewrite !(evaluate_no_provider _ _ _ _ _ _ Hq). by intros [= <- _]. }
  destruct (Query.GetFlag query identifier) as [flag [err|]] eqn:Hget.
  { rewrite !(evaluate_lookup_failure _ _ _ _ _ _ _ _ _ Hq Hget).
    by intros [= <- _]. }
  destruct (String.eqb_spec (rest.FeatureConfig.Kind flag) kind) as [Hk|Hk].
  2:{ rewrite !(evaluate_kind_mismatch _ _ _ _ _ _ _ _ Hq Hget Hk).
      by intros [= <- _]. }
  rewrite !(evaluate_found _ _ _ _ _ _ _ _ Hq Hget Hk).
  unfold prerequisiteCheck.
  assert (Hpre : forall r0 h1 hF0,
    match rest.FeatureConfig.Prerequisites flag with
    | Some _ => checkPreRequisite fuel e flag target h
    | None => Some (true, None, h)
    end = Some (r0, h1) ->
    onlySorted h1 hF0 ->
    onlySorted h h1 /\
    match rest.FeatureConfig.Prerequisites flag with
    | Some _ => checkPreRequisite fuel e flag target hF0
    | None => Some (true, None, hF0)
    end = Some (r0, hF0)).
  { intros r0 h1 hF0.
    destruct (rest.FeatureConfig.Prerequisites flag).
    - intros E HF. split; [exact (checkPreRequisite_frame _ _ _ _ _ _ _ E)|].
      exact (checkPreRequisite_settled _ _ _ _ _ _ _ _ E HF).
    - intros [= <- <-] _. split; [apply onlySorted_refl|reflexivity]. }
  destruct (match rest.FeatureConfig.Prerequisites flag with
            | Some _ => checkPreRequisite fuel e flag target h
            | None => Some (true, None, h)
            end) as [[r0 h1]|]; [|discriminate].
  destruct (prerequisitesHold r0) eqn:Hh.
  - destruct (evaluateFlag query fuel flag target h1)
      as [[[v err] h2]|] eqn:Ef; [|discriminate].
    intros E HF.
    assert (h2 = h') as -> by (destruct err; by injection E).
    assert (F1 : onlySorted h1 hF)
      by exact (onlySorted_trans _ _ _
                  (evaluateFlag_frame _ _ _ _ _ _ _ Ef) HF).
    rewrite (proj2 (Hpre _ _ _ eq_refl F1)), Hh.
    rewrite (evaluateFlag_settled _ _ _ _ _ _ _ _ Ef HF).
    destruct err; by injection E as <-.
  - intros [= <- <-] HF. by rewrite (proj2 (Hpre _ _ _ eq_refl HF)), Hh.
Qed.

End SettledFacts.

(** X1. Evaluating a request again, on the store the first evaluation
    left or on any store that later evaluations made of it, returns the
    same variation, error and callback calls and changes nothing: the
    in-place sort of the rules never alters a later answer.  The same
    holds for the integer and string accessors. *)
Theorem evaluation_repeats {rt : Runtime.t} (fuel : nat) (e : Evaluator.t)
    (identifier : string) (target : option Target.t) (h : Heap) :
  (forall kind r calls h',
     evaluate fuel e identifier target kind h = Some (r, calls, h') ->
     evaluate fuel e identifier target kind h' = Some (r, calls, h') /\
     forall hF,
       onlySorted h' hF ->
       evaluate fuel e identifier target kind hF = Some (r, calls, hF)) /\
  (forall d x calls h',
     IntVariation fuel e identifier target d h = Some (x, calls, h') ->
     IntVariation fuel e identifier target d h' = Some (x, calls, h')) /\
  (forall d x calls h',
     StringVariation fuel e identifier target d h = Some (x, calls, h') ->
     StringVariation fuel e identifier target d h' = Some (x, calls, h')).
Proof.
  split; [|split].
  - intros kind r calls h' E. split.
    + exact (evaluate_settled _ _ _ _ _ _ _ _ _ E (onlySorted_refl h')).
    + intros hF HF. exact (evaluate_settled _ _ _ _ _ _ _ _ _ E HF).
  - intros d x calls h'. unfold IntVariation.
    destruct (evaluate fuel e identifier target "int" h)
      as [[[[v err] calls0] h0]|] eqn:E; [|discriminate].
    cbn. intros Hx.
    assert (calls0 = calls /\ h0 = h') as [-> ->].
    { destruct err; [by injection Hx|].
      destruct (Runtime.strconvAtoi rt _) as [y [err|]]; by injection Hx. }
    by rewrite (evaluate_settled _ _ _ _ _ _ _ _ _ E (onlySorted_refl h')).
  - intros d x calls h'. unfold StringVariation.
    destruct (evaluate fuel e identifier target "string" h)
      as [[[[v err] calls0] h0]|] eqn:E; [|discriminate].
    cbn. intros Hx.
    assert (calls0 = calls /\ h0 = h') as [-> ->]
      by (destruct err; by injection Hx).
    by rewrite (evaluate_settled _ _ _ _ _ _ _ _ _ E (onlySorted_refl h')).
Qed.

(** X1 on the deployment: [rollout] evaluated for u1 a second time, on the
    store with the sorted rules, answers "one" again and leaves the store
    as it is. *)
Lemma evaluation_repeats_witness :
  evaluate (rt := Fixture.runtime) 1 Fixture.engine "rollout"
    (Some Fixture.u1) "int" Fixture.rulesAt1
  = Some ((rest.Variation.mk "one" "1", None),
          [PostEvalData.mk Fixture.flagRollout (Some Fixture.u1)
             (rest.Variation.mk "one" "1")],
          <[1%positive := [Fixture.rule1; Fixture.rule2; Fixture.rule3]]>
            Fixture.rulesAt1) /\
  evaluate (rt := Fixture.runtime) 1 Fixture.engine "rollout"
    (Some Fixture.u1) "int"
    (<[1%positive := [Fixture.rule1; Fixture.rule2; Fixture.rule3]]>
       Fixture.rulesAt1)
  = Some ((rest.Variation.mk "one" "1", None),
          [PostEvalData.mk Fixture.flagRollout (Some Fixture.u1)
             (rest.Variation.mk "one" "1")],
          <[1%positive := [Fixture.rule1; Fixture.rule2; Fixture.rule3]]>
            Fixture.rulesAt1).
Proof.
  split; [reflexivity|].
  exact (proj1 (proj1 (evaluation_repeats (rt := Fixture.runtime) 1
                         Fixture.engine "rollout" (Some Fixture.u1)
                         Fixture.rulesAt1)
                  "int" _ _ _ eq_refl)).
Defined.

(** ** The order of the rules *)

Section OrderFacts.
Context {rt : Runtime.t}.

Lemma lePriority_trans : Transitive lePriority.
Proof. intros a b c. unfold lePriority. lia. Qed.

Lemma hasPriority_own r : hasPriority (rest.ServingRule.Priority r) r = true.
Proof. unfold hasPriority. apply Z.eqb_refl. Qed.

Lemma sorted_stable_unique s1 s2 :
  Sorted lePriority s1 ->
  Sorted lePriority s2 ->
  (forall p, List.filter (hasPriority p) s1 = List.filter (hasPriority p) s2) ->
  s1 = s2.
Proof.
  intros H1 H2.
  apply (Sorted_StronglySorted lePriority_trans) in H1.
  apply (Sorted_StronglySorted lePriority_trans) in H2.
  revert s2 H2. induction H1 as [|x s1 Hs1 IH Hx]; intros s2 H2 Hf.
  - destruct s2 as [|y s2]; [reflexivity|].
    specialize (Hf (rest.ServingRule.Priority y)).
    cbn in Hf. by rewrite hasPriority_own in Hf.
  - destruct H2 as [|y s2 Hs2 Hy].
    { specialize (Hf (rest.ServingRule.Priority x)).
      cbn in Hf. by rewrite hasPriority_own in Hf. }
    destruct (Z.eq_dec (rest.ServingRule.Priority y)
                (rest.ServingRule.Priority x)) as [Heq|Hne].
    + pose proof (Hf (rest.ServingRule.Priority x)) as Hp.
      cbn in Hp. rewrite hasPriority_own in Hp.
      unfold hasPriority at 2 in Hp. rewrite Heq, Z.eqb_refl in Hp.
      injection Hp as <- Hp. f_equal. apply IH; [exact Hs2|].
      intros p. specialize (Hf p). cbn in Hf.
      destruct (hasPriority p x); [by injection Hf|exact Hf].
    + exfalso.
      pose proof (Hf (rest.ServingRule.Priority x)) as Hp.
      pose proof (Hf (rest.ServingRule.Priority y)) as Hq.
      cbn in Hp, Hq. rewrite hasPriority_own in Hp, Hq.
      assert (Hyx : hasPriority (rest.ServingRule.Priority x) y = false)
        by (unfold hasPriority; by apply Z.eqb_neq).
      assert (Hxy : hasPriority (rest.ServingRule.Priority y) x = false)
        by (unfold hasPriority; apply Z.eqb_neq; congruence).
      rewrite Hyx in Hp. rewrite Hxy in Hq.
      assert (Hin2 : In x s2).
      { apply (proj1 (List.filter_In
                        (hasPriority (rest.ServingRule.Priority x)) x s2)).
        rewrite <- Hp. by left. }
      assert (Hin1 : In y s1).
      { apply (proj1 (List.filter_In
                        (hasPriority (rest.ServingRule.Priority y)) y s1)).
        rewrite Hq. by left. }
      pose proof (proj1 (List.Forall_forall _ _) Hx y Hin1) as L1.
      pose proof (proj1 (List.Forall_forall _ _) Hy x Hin2) as L2.
      unfold lePriority in L1, L2. lia.
Qed.

Lemma sortSliceStable_determined rules1 rules2 :
  (forall p, List.filter (hasPriority p) rules1
             = List.filter (hasPriority p) rules2) ->
  sortSliceStable lessPriority rules1 = sortSliceStable lessPriority rules2.
Proof.
  intros Hf. apply sorted_stable_unique; try apply sortSliceStable_sorted.
  intros p. by rewrite !sortSliceStable_stable.
Qed.

(** X2. The order [evaluateRules] leaves the rules in is fixed by the
    priorities and by the original order of the rules of equal priority:
    it is the only arrangement ordered by priority that keeps, for each
    priority, the rules of that priority in their original order.  So two
    listings of the rules of a flag that differ only in how rules of
    different priorities are interleaved give the same outcome and the
    same store. *)
Theorem priority_order_is_unique (rules : list rest.ServingRule.t) :
  (forall s,
     Sorted lePriority s ->
     (forall p, List.filter (hasPriority p) s
                = List.filter (hasPriority p) rules) ->
     s = sortSliceStable lessPriority rules) /\
  (forall rules' query fuel servingRules target (h : Heap),
     (forall p, List.filter (hasPriority p) rules'
                = List.filter (hasPriority p) rules) ->
     h !! servingRules = Some rules ->
     evaluateRules query fuel servingRules (Some target)
       (<[servingRules := rules']> h)
     = evaluateRules query fuel servingRules (Some target) h).
Proof.
  split.
  - intros s Hs Hf. apply sorted_stable_unique;
      [exact Hs|apply sortSliceStable_sorted|].
    intros p. by rewrite sortSliceStable_stable.
  - intros rules' query fuel l target h Hf Hl.
    rewrite (evaluateRules_unfold query fuel l target h rules Hl).
    rewrite (evaluateRules_unfold query fuel l target _ rules'
               (lookup_insert_eq _ _ _)).
    rewrite (sortSliceStable_determined _ _ Hf).
    by rewrite insert_insert_eq.
Qed.

End OrderFacts.

(** X2 on the deployment: the rules listed as [rule1; rule3; rule2]
    instead of [rule3; rule1; rule2] serve u1 the same variation and are
    left in the same order. *)
Lemma priority_order_is_unique_witness :
  evaluateRules (rt := Fixture.runtime) Fixture.query 1 1%positive
    (Some Fixture.u1)
    (<[1%positive := [Fixture.rule1; Fixture.rule3; Fixture.rule2]]>
       Fixture.rulesAt1)
  = Some ("one",
          <[1%positive := [Fixture.rule1; Fixture.rule2; Fixture.rule3]]>
            Fixture.rulesAt1).
Proof.
  refine (eq_trans
            (proj2 (priority_order_is_unique (rt := Fixture.runtime)
                      [Fixture.rule3; Fixture.rule1; Fixture.rule2])
               [Fixture.rule1; Fixture.rule3; Fixture.rule2]
               Fixture.query 1 1%positive Fixture.u1 Fixture.rulesAt1
               _ eq_refl)
            eq_refl).
  intros p. unfold hasPriority, Fixture.rule1, Fixture.rule2, Fixture.rule3.
  cbn [List.filter rest.ServingRule.Priority].
  destruct (Z.eqb_spec 1 p); destruct (Z.eqb_spec 3 p);
    destruct (Z.eqb_spec 2 p); try reflexivity; lia.
Defined.


(** ** Providers with and without cycles *)

(** X3. With a provider whose segments and prerequisites have no cycle,
    [evaluate] answers every request once the fuel exceeds the depth of
    the segments plus the depth of the prerequisites of the flag, and
    more fuel does not change the answer: the recursion of the engine
    ends. *)
Theorem evaluate_terminates_without_cycles {rt : Runtime.t}
    (e : Evaluator.t) (segmentRank : string -> nat) (bound : nat)
    (flagRank : rest.FeatureConfig.t -> nat) (fuel : nat)
    (identifier : string) (target : option Target.t) (kind : string)
    (h : Heap) :
  (forall query, Evaluator.query e = Some query ->
                 segmentsRanked query segmentRank bound /\
                 flagsRanked query flagRank) ->
  (forall query flag,
     Evaluator.query e = Some query ->
     Query.GetFlag query identifier = (flag, None) ->
     bound + flagRank flag < fuel) ->
  exists r,
    evaluate fuel e identifier target kind h = Some r /\
    forall fuel', fuel <= fuel' ->
                  evaluate fuel' e identifier target kind h = Some r.
Proof.
  intros Hprov Hfuel.
  destruct (evaluate_total e segmentRank bound flagRank fuel identifier
              target kind h Hprov Hfuel) as [r Hr].
  exists r. split; [exact Hr|].
  intros fuel' Hle. exact (evaluate_mono _ _ _ _ _ _ _ _ Hle Hr).
Qed.

(** X3 on the nested deployment: [gate] is evaluated for u1 with fuel 4;
    its prerequisite [base] serves "on" to u1, a target of [outer] through
    [inner]. *)
Lemma evaluate_terminates_without_cycles_witness :
  segmentsRanked Nested.query Nested.segmentRank 2 /\
  flagsRanked Nested.query Nested.flagRank /\
  exists r,
    evaluate (rt := Fixture.runtime) 4 Nested.engine "gate"
      (Some Fixture.u1) "boolean" ∅ = Some r /\
    forall fuel', 4 <= fuel' ->
      evaluate (rt := Fixture.runtime) fuel' Nested.engine "gate"
        (Some Fixture.u1) "boolean" ∅ = Some r.
Proof.
  assert (Hs : segmentsRanked Nested.query Nested.segmentRank 2).
  { split.
    - intros id. unfold Nested.segmentRank.
      destruct (String.eqb id "outer"); lia.
    - intros id segment rules clause id' Hget Hrules Hc Hop Hin.
      cbn in Hget. unfold Nested.getSegment in Hget.
      destruct (String.eqb_spec id "inner") as [->|_].
      + injection Hget as <-. discriminate.
      + destruct (String.eqb_spec id "outer") as [->|_];
          [|discriminate].
        injection Hget as <-. injection Hrules as <-.
        destruct Hc as [<-|[]]. destruct Hin as [<-|[]].
        cbn. lia. }
  assert (Hf : flagsRanked Nested.query Nested.flagRank).
  { intros fc prerequisites pre pfc Hp Hin Hget.
    cbn in Hget. unfold Nested.getFlag in Hget.
    assert (Hreq : Nested.requires (rest.Prerequisite.Feature pre) fc
                   = true).
    { unfold Nested.requires. rewrite Hp.
      apply existsb_exists. exists pre. split; [exact Hin|].
      apply String.eqb_refl. }
    destruct (String.eqb_spec (rest.Prerequisite.Feature pre) "base")
      as [Hb|_].
    - injection Hget as <-. rewrite Hb in Hreq.
      unfold Nested.flagRank at 2. rewrite Hreq.
      cbn. destruct (Nested.requires "gate" fc); lia.
    - destruct (String.eqb_spec (rest.Prerequisite.Feature pre) "gate")
        as [Hg|_]; [|discriminate].
      injection Hget as <-. rewrite Hg in Hreq.
      unfold Nested.flagRank at 2. rewrite Hreq. cbn. lia. }
  split; [exact Hs|]. split; [exact Hf|].
  apply (evaluate_terminates_without_cycles (rt := Fixture.runtime)
           Nested.engine Nested.segmentRank 2 Nested.flagRank).
  - intros query [= <-]. by split.
  - intros query flag [= <-] [= <-]. cbn. lia.
Defined.

Section CycleFacts.
Context {rt : Runtime.t}.

(** X4. A segment whose rules start with a [segmentMatch] clause on the
    segment itself, asked about a target that is in neither of its lists,
    never answers: whatever the depth allowed, the resolver is still
    descending, and so is the override resolver that consults it. *)
Theorem segment_cycle_never_answers (query : Query.t) (id : string)
    (segment : rest.Segment.t) (clause : rest.Clause.t)
    (clauses : list rest.Clause.t) (values : list string)
    (target : Target.t) :
  Query.GetSegment query id = (segment, None) ->
  inExcluded segment target = false ->
  inIncluded segment target = false ->
  rest.Segment.Rules segment = Some (clause :: clauses) ->
  rest.Clause.Op clause = segmentMatchOperator ->
  rest.Clause.Values clause = id :: values ->
  forall fuel,
    (forall l,
       isTargetIncludedOrExcludedInSegment query fuel (id :: l) target
       = None) /\
    (forall entry entries l,
       listsTarget entry target = false ->
       rest.VariationMap.TargetSegments entry = Some (id :: l) ->
       evaluateVariationMap query fuel (entry :: entries) (Some target)
       = None).
Proof.
  intros Hget Hex Hin Hrules Hop Hv.
  assert (Hseg : forall fuel l,
            isTargetIncludedOrExcludedInSegment query fuel (id :: l) target
            = None).
  { induction fuel as [|fuel IH]; intros l; [reflexivity|].
    rewrite isTargetIncludedOrExcludedInSegment_cons.
    rewrite Hget, Hex, Hin, Hrules.
    unfold evaluateClauses. cbn [evaluateClausesWith].
    unfold evaluateClauseWith. rewrite Hv, Hop. cbn.
    by rewrite IH. }
  intros fuel. split; [apply Hseg|].
  intros entry entries l Hl Hts.
  unfold evaluateVariationMap. cbn [evaluateVariationMapLoop].
  unfold listsTarget in Hl. rewrite Hl, Hts. by rewrite Hseg.
Qed.

End CycleFacts.

(** X4 on the cyclic deployment: [loop] has not answered for u2 at depth
    1000. *)
Lemma segment_cycle_never_answers_witness :
  isTargetIncludedOrExcludedInSegment (rt := Fixture.runtime)
    Nested.cyclic 1000 ["loop"; "inner"] Fixture.u2 = None.
Proof.
  exact (proj1 (segment_cycle_never_answers (rt := Fixture.runtime)
                  Nested.cyclic "loop"
                  (rest.Segment.mk "loop" "Loop" None None
                     (Some [Nested.segmentMatch ["loop"]]))
                  (Nested.segmentMatch ["loop"]) [] [] Fixture.u2
                  eq_refl eq_refl eq_refl eq_refl eq_refl eq_refl 1000)
           ["inner"]).
Defined.

(** ** The operators on text *)

Section StringFacts.

Lemma string_length_app (a b : string) :
  String.length (a ++ b) = String.length a + String.length b.
Proof. induction a as [|c a IH]; simpl; [reflexivity|]. by rewrite IH. Qed.

Lemma string_app_empty (a : string) : a ++ "" = a.
Proof.
  induction a as [|c a IH]; [reflexivity|].
  change (String c (a ++ "") = String c a). by f_equal.
Qed.

Lemma string_length_zero (a : string) : String.length a = 0 -> a = "".
Proof. by destruct a. Qed.

Lemma substring_zero_app (x r : string) :
  String.substring 0 (String.length x) (x ++ r) = x.
Proof.
  induction x as [|c x IH].
  - destruct r; reflexivity.
  - change (String c (String.substring 0 (String.length x) (x ++ r)) = String c x). by f_equal.
Qed.

Lemma substring_app_mid (f x r : string) :
  String.substring (String.length f) (String.length x) (f ++ x ++ r) = x.
Proof.
  induction f as [|c f IH]; [exact (substring_zero_app x r)|exact IH].
Qed.

Lemma substring_zero_prefix (x s : string) :
  String.substring 0 (String.length x) s = x -> exists r, s = x ++ r.
Proof.
  revert s. induction x as [|c x IH]; intros s.
  - intros _. by exists s.
  - destruct s as [|d s]; [discriminate|].
    change (String d (String.substring 0 (String.length x) s) = String c x
            -> exists r, String d s = String c (x ++ r)).
    intros [= -> Hs]. destruct (IH s Hs) as [r ->]. by exists r.
Qed.

Lemma substring_beyond (m k : nat) (s : string) :
  String.length s <= m -> String.substring m k s = "".
Proof.
  revert s. induction m as [|m IH]; intros s Hm.
  - destruct s; [|simpl in Hm; lia]. by destruct k.
  - destruct s as [|c s]; [reflexivity|].
    simpl in Hm. change (String.substring m k s = ""). apply IH. lia.
Qed.

Lemma substring_decompose (m : nat) (x s : string) :
  String.substring m (String.length x) s = x ->
  m <= String.length s ->
  exists f r, s = f ++ x ++ r /\ String.length f = m.
Proof.
  revert s. induction m as [|m IH]; intros s Hs Hm.
  - destruct (substring_zero_prefix x s Hs) as [r ->]. by exists "", r.
  - destruct s as [|c s]; [simpl in Hm; lia|].
    change (String.substring m (String.length x) s = x) in Hs.
    simpl in Hm.
    destruct (IH s Hs ltac:(lia)) as (f & r & -> & Hf).
    exists (String c f), r. split; [reflexivity|]. simpl. by rewrite Hf.
Qed.

Lemma HasPrefix_spec (s pre : string) :
  strings.HasPrefix s pre = true <-> exists r, s = pre ++ r.
Proof.
  unfold strings.HasPrefix. rewrite String.prefix_correct. split.
  - apply substring_zero_prefix.
  - intros [r ->]. apply substring_zero_app.
Qed.

Lemma HasSuffix_spec (s suffix : string) :
  strings.HasSuffix s suffix = true <-> exists f, s = f ++ suffix.
Proof.
  unfold strings.HasSuffix. split.
  - intros H. apply andb_prop in H as [Hle Heq].
    apply Nat.leb_le in Hle. apply String.eqb_eq in Heq.
    destruct (substring_decompose _ _ _ Heq ltac:(lia))
      as (f & r & Hs & Hf).
    exists f. rewrite Hs. f_equal.
    assert (Hlen : String.length s
                   = String.length f + (String.length suffix
                                        + String.length r))
      by (rewrite Hs at 1; by rewrite !string_length_app).
    rewrite (string_length_zero r ltac:(lia)). apply string_app_empty.
  - intros [f ->]. rewrite string_length_app.
    apply andb_true_intro. split; [apply Nat.leb_le; lia|].
    apply String.eqb_eq.
    replace (String.length f + String.length suffix - String.length suffix)
      with (String.length f) by lia.
    rewrite <- (string_app_empty suffix) at 2.
    apply substring_app_mid.
Qed.

Lemma Contains_spec (s substr : string) :
  strings.Contains s substr = true <-> exists f r, s = f ++ substr ++ r.
Proof.
  unfold strings.Contains. split.
  - destruct (String.index 0 substr s) as [m|] eqn:E; [|discriminate].
    intros _. pose proof (String.index_correct1 _ _ _ _ E) as Hs.
    destruct (le_lt_dec m (String.length s)) as [Hm|Hm].
    + destruct (substring_decompose _ _ _ Hs Hm) as (f & r & -> & _).
      by exists f, r.
    + rewrite substring_beyond in Hs by lia. subst substr. by exists "", s.
  - intros (f & r & ->).
    destruct (String.index 0 substr (f ++ substr ++ r)) as [m|] eqn:E;
      [reflexivity|exfalso].
    destruct substr as [|c substr].
    + pose proof (String.index_correct4 _ _ E). lia.
    + refine (String.index_correct3 0 (String.length f) _ _ E _ _ _);
        [discriminate|lia|apply substring_app_mid].
Qed.

End StringFacts.

(** ** Clauses *)

Section ClauseFacts.
Context {rt : Runtime.t}.

Lemma decides_intro (b : bool) (P : Prop) :
  (b = true <-> P) -> decides (Some b) P.
Proof. intros H. by exists b. Qed.

Lemma evaluateClauseWith_no_segment f g clause target :
  rest.Clause.Op clause <> segmentMatchOperator ->
  evaluateClauseWith f (Some clause) target
  = evaluateClauseWith g (Some clause) target.
Proof.
  intros Hop. unfold evaluateClauseWith.
  by destruct (String.eqb_spec (rest.Clause.Op clause) segmentMatchOperator).
Qed.

Lemma evaluateClauseWith_valid f clause target value values :
  rest.Clause.Values clause = value :: values ->
  attributeValid clause target = true ->
  forall op,
    rest.Clause.Op clause = op ->
    evaluateClauseWith f (Some clause) target =
    let object := clauseText clause target in
    if String.eqb op "" then Some false
    else if String.eqb op startsWithOperator then
      Some (strings.HasPrefix object value)
    else if String.eqb op endsWithOperator then
      Some (strings.HasSuffix object value)
    else if String.eqb op matchOperator then
      match Runtime.regexpMatchString rt value object with
      | (_, Some _) => Some false
      | (found, None) => Some found
      end
    else if String.eqb op containsOperator then
      Some (strings.Contains object value)
    else if String.eqb op equalOperator then
      Some (Runtime.stringsEqualFold rt object value)
    else if String.eqb op equalSensitiveOperator then
      Some (String.eqb object value)
    else if String.eqb op inOperator then
      Some (existsb (fun val => String.eqb val object) (value :: values))
    else if String.eqb op gtOperator then
      Some (String.ltb value object)
    else if String.eqb op segmentMatchOperator then
      f (value :: values) target
    else Some false.
Proof.
  intros Hv Hvalid op Hop. unfold evaluateClauseWith, clauseText.
  unfold attributeValid in Hvalid.
  rewrite Hv, Hop, Hvalid. by rewrite andb_false_r.
Qed.

(** X6. What each operator decides, for a clause with a value and an
    attribute that is there: [starts_with], [ends_with] and [contains]
    hold exactly when the text of the attribute begins with, ends with or
    has inside it the first value; [equal_sensitive] when the text is the
    first value; [in] when the text is one of the values; [match] when
    the pattern compiles and is found; [equal] when the two fold to the
    same text; [gt] when the first value comes before the text in the
    order of strings.  None of them needs the provider. *)
Theorem operator_semantics (query : Query.t) (fuel : nat)
    (clause : rest.Clause.t) (target : Target.t) (value : string)
    (values : list string) :
  rest.Clause.Values clause = value :: values ->
  attributeValid clause target = true ->
  (rest.Clause.Op clause = startsWithOperator ->
   decides (evaluateClause query fuel (Some clause) target)
     (exists r, clauseText clause target = value ++ r)) /\
  (rest.Clause.Op clause = endsWithOperator ->
   decides (evaluateClause query fuel (Some clause) target)
     (exists f, clauseText clause target = f ++ value)) /\
  (rest.Clause.Op clause = containsOperator ->
   decides (evaluateClause query fuel (Some clause) target)
     (exists f r, clauseText clause target = f ++ value ++ r)) /\
  (rest.Clause.Op clause = equalSensitiveOperator ->
   decides (evaluateClause query fuel (Some clause) target)
     (clauseText clause target = value)) /\
  (rest.Clause.Op clause = inOperator ->
   decides (evaluateClause query fuel (Some clause) target)
     (In (clauseText clause target) (value :: values))) /\
  (rest.Clause.Op clause = matchOperator ->
   decides (evaluateClause query fuel (Some clause) target)
     (Runtime.regexpMatchString rt value (clauseText clause target)
      = (true, None))) /\
  (rest.Clause.Op clause = equalOperator ->
   decides (evaluateClause query fuel (Some clause) target)
     (Runtime.stringsEqualFold rt (clauseText clause target) value = true)) /\
  (rest.Clause.Op clause = gtOperator ->
   decides (evaluateClause query fuel (Some clause) target)
     (String.compare value (clauseText clause target) = Lt)).
Proof.
  intros Hv Hvalid.
  pose proof (evaluateClauseWith_valid
                (isTargetIncludedOrExcludedInSegment query fuel)
                clause target value values Hv Hvalid) as H.
  unfold evaluateClause.
  repeat split; intros Hop; rewrite (H _ Hop);
    cbn -[existsb strings.HasPrefix strings.HasSuffix strings.Contains
          String.ltb String.compare clauseText].
  - apply decides_intro, HasPrefix_spec.
  - apply decides_intro, HasSuffix_spec.
  - apply decides_intro, Contains_spec.
  - apply decides_intro, String.eqb_eq.
  - apply decides_intro. rewrite existsb_exists. split.
    + intros (x & Hin & Hx). apply String.eqb_eq in Hx. by subst x.
    + intros Hin. exists (clauseText clause target).
      split; [exact Hin|apply String.eqb_refl].
  - destruct (Runtime.regexpMatchString rt value (clauseText clause target))
      as [found [err|]].
    + apply decides_intro. split; [discriminate|]. by intros [= _].
    + apply decides_intro. split; [by intros ->|]. by intros [= ->].
  - by apply decides_intro.
  - apply decides_intro. unfold String.ltb.
    destruct (String.compare value (clauseText clause target));
      split; (reflexivity || discriminate).
Qed.

(** X7. A clause that cannot be evaluated does not match: no clause, no
    value, no operator, an operator the engine does not know, or, unless
    the operator is [segmentMatch], an attribute the target does not
    have.  And a clause with another operator than [segmentMatch] is
    answered with any fuel and without the provider. *)
Theorem clause_fails_closed (query : Query.t) (fuel : nat)
    (target : Target.t) :
  evaluateClause query fuel None target = Some false /\
  forall clause,
    (rest.Clause.Values clause = [] ->
     evaluateClause query fuel (Some clause) target = Some false) /\
    (rest.Clause.Op clause = "" ->
     evaluateClause query fuel (Some clause) target = Some false) /\
    (rest.Clause.Op clause <> segmentMatchOperator ->
     attributeValid clause target = false ->
     evaluateClause query fuel (Some clause) target = Some false) /\
    (~ In (rest.Clause.Op clause) operators ->
     evaluateClause query fuel (Some clause) target = Some false) /\
    (rest.Clause.Op clause <> segmentMatchOperator ->
     is_Some (evaluateClause query fuel (Some clause) target) /\
     forall query' fuel',
       evaluateClause query' fuel' (Some clause) target
       = evaluateClause query fuel (Some clause) target).
Proof.
  split; [reflexivity|]. intros clause.
  unfold evaluateClause.
  split; [|split; [|split; [|split]]].
  - intros Hv. unfold evaluateClauseWith. by rewrite Hv.
  - intros Hop. unfold evaluateClauseWith. rewrite Hop.
    by destruct (rest.Clause.Values clause).
  - intros Hop Hvalid. unfold evaluateClauseWith.
    unfold attributeValid in Hvalid. rewrite Hvalid.
    destruct (rest.Clause.Values clause); [reflexivity|].
    destruct (String.eqb (rest.Clause.Op clause) ""); [reflexivity|].
    by destruct (String.eqb_spec (rest.Clause.Op clause)
                   segmentMatchOperator).
  - intros Hunk. unfold evaluateClauseWith.
    destruct (rest.Clause.Values clause) as [|value values]; [reflexivity|].
    destruct (String.eqb (rest.Clause.Op clause) ""); [reflexivity|].
    destruct (negb _ && negb _); [reflexivity|].
    repeat match goal with
           | |- context [String.eqb (rest.Clause.Op clause) ?o] =>
             destruct (String.eqb_spec (rest.Clause.Op clause) o) as [Heq|_];
               [exfalso; apply Hunk; rewrite Heq; unfold operators;
                simpl; tauto|]
           end.
    reflexivity.
  - intros Hop. split.
    + apply evaluateClauseWith_total. intros Hseg. contradiction.
    + intros query' fuel'. by apply evaluateClauseWith_no_segment.
Qed.

End ClauseFacts.

(** X6 on the deployment: the plan of u1, "pro", starts with "pr" and
    does not end with it; its age, 42, is not after "5" in the order of
    strings. *)
Lemma operator_semantics_witness :
  evaluateClause (rt := Fixture.runtime) Fixture.segments 0
    (Some (rest.Clause.mk "plan" startsWithOperator ["pr"])) Fixture.u1
  = Some true /\
  (exists r, "pro" = "pr" ++ r) /\
  evaluateClause (rt := Fixture.runtime) Fixture.segments 0
    (Some (rest.Clause.mk "plan" endsWithOperator ["pr"])) Fixture.u1
  = Some false /\
  evaluateClause (rt := Fixture.runtime) Fixture.segments 0
    (Some (rest.Clause.mk "age" gtOperator ["5"])) Fixture.u1
  = Some false.
Proof.
  destruct (proj1 (operator_semantics (rt := Fixture.runtime)
                     Fixture.segments 0
                     (rest.Clause.mk "plan" startsWithOperator ["pr"])
                     Fixture.u1 "pr" [] eq_refl eq_refl) eq_refl)
    as (b & Hb & Hiff).
  split; [reflexivity|]. split; [|split; reflexivity].
  apply Hiff. vm_compute in Hb. by injection Hb as <-.
Defined.

(** X7 on the deployment: u1 has no attribute [team], and the engine
    knows no operator [like]. *)
Lemma clause_fails_closed_witness :
  evaluateClause (rt := Fixture.runtime) Fixture.segments 0
    (Some (rest.Clause.mk "team" equalSensitiveOperator [""])) Fixture.u1
  = Some false /\
  evaluateClause (rt := Fixture.runtime) Fixture.segments 0
    (Some (rest.Clause.mk "plan" "like" ["pro"])) Fixture.u1
  = Some false.
Proof.
  pose proof (proj2 (clause_fails_closed (rt := Fixture.runtime)
                       Fixture.segments 0 Fixture.u1)) as H.
  split.
  - refine (proj1 (proj2 (proj2
             (H (rest.Clause.mk "team" equalSensitiveOperator [""])))) _ _);
      [discriminate|reflexivity].
  - refine (proj1 (proj2 (proj2 (proj2
             (H (rest.Clause.mk "plan" "like" ["pro"]))))) _).
    unfold operators. simpl. intros H'.
    repeat destruct H' as [H'|H']; try discriminate H'. exact H'.
Defined.

(** ** Overrides and segments, once more *)

Section OverrideFacts.
Context {rt : Runtime.t} (query : Query.t).

Lemma evaluateVariationMapLoop_cons fuel entry entries target :
  evaluateVariationMapLoop query fuel (entry :: entries) target =
  if listsTarget entry target
  then Some (rest.VariationMap.Variation entry)
  else
    match inTargetSegments query fuel entry target with
    | None => None
    | Some true => Some (rest.VariationMap.Variation entry)
    | Some false => evaluateVariationMapLoop query fuel entries target
    end.
Proof. reflexivity. Qed.

Lemma entrySkipped_skip fuel target pre entries :
  Forall (entrySkipped query fuel target) pre ->
  evaluateVariationMapLoop query fuel (pre ++ entries) target
  = evaluateVariationMapLoop query fuel entries target.
Proof.
  induction 1 as [|entry pre [Hl Hs] _ IH]; [reflexivity|].
  rewrite <- app_comm_cons, evaluateVariationMapLoop_cons.
  by rewrite Hl, Hs.
Qed.

(** X8. The override resolver takes the entries in the order they are
    declared and returns the variation of the first that matches: an
    entry matches when it lists the identifier of the target, and then
    its segments are not consulted, or else when one of its segments
    includes the target; when no entry matches the result is empty.  A
    listed identifier that is empty matches nobody, so a target with an
    empty identifier is matched by segments only; and a nil target is
    matched by nothing. *)
Theorem override_first_match (fuel : nat)
    (pre : list rest.VariationMap.t) (entry : rest.VariationMap.t)
    (post : list rest.VariationMap.t) (target : Target.t) :
  Forall (entrySkipped query fuel target) pre ->
  (listsTarget entry target = true ->
   evaluateVariationMap query fuel (pre ++ entry :: post)%list (Some target)
   = Some (rest.VariationMap.Variation entry)) /\
  (listsTarget entry target = false ->
   inTargetSegments query fuel entry target = Some true ->
   evaluateVariationMap query fuel (pre ++ entry :: post)%list (Some target)
   = Some (rest.VariationMap.Variation entry)) /\
  evaluateVariationMap query fuel pre (Some target) = Some "" /\
  (Target.Identifier target = "" ->
   forall variationMap, listsTarget variationMap target = false) /\
  evaluateVariationMap query fuel (pre ++ entry :: post)%list None = Some "".
Proof.
  intros Hpre. unfold evaluateVariationMap.
  split; [|split; [|split; [|split]]].
  - intros Hl. rewrite (entrySkipped_skip _ _ _ _ Hpre).
    by rewrite evaluateVariationMapLoop_cons, Hl.
  - intros Hl Hs. rewrite (entrySkipped_skip _ _ _ _ Hpre).
    by rewrite evaluateVariationMapLoop_cons, Hl, Hs.
  - rewrite <- (app_nil_r pre).
    by rewrite (entrySkipped_skip _ _ _ _ Hpre).
  - intros Hid variationMap. unfold listsTarget.
    destruct (rest.VariationMap.Targets variationMap) as [targets|];
      [|reflexivity].
    rewrite Hid. induction targets as [|t targets IH]; [reflexivity|].
    cbn [existsb]. rewrite IH.
    by destruct (String.eqb (rest.TargetMap.Identifier t) "").
  - reflexivity.
Qed.

(** X9. An empty list of clauses matches: a rule without clauses matches
    every target, and a segment whose rule list is there but empty
    includes every target that it does not exclude. *)
Theorem empty_clauses_match (fuel : nat) (target : Target.t) :
  (forall rule,
     rest.ServingRule.Clauses rule = [] ->
     evaluateRule query fuel rule target = Some true) /\
  (forall pre id post segment,
     Forall (passedOver query fuel target) pre ->
     Query.GetSegment query id = (segment, None) ->
     inExcluded segment target = false ->
     rest.Segment.Rules segment = Some [] ->
     isTargetIncludedOrExcludedInSegment query (S fuel)
       (pre ++ id :: post)%list target = Some true) /\
  (forall servingRules (h : Heap) rules rule post variation,
     h !! servingRules = Some rules ->
     sortSliceStable lessPriority rules = rule :: post ->
     rest.ServingRule.Clauses rule = [] ->
     ruleOutcome rule target = Some variation ->
     evaluateRules query fuel servingRules (Some target) h
     = Some (variation,
             <[servingRules := sortSliceStable lessPriority rules]> h)).
Proof.
  assert (Hrule : forall rule,
            rest.ServingRule.Clauses rule = [] ->
            evaluateRule query fuel rule target = Some true).
  { intros rule Hc. unfold evaluateRule, evaluateClauses. by rewrite Hc. }
  split; [exact Hrule|]. split.
  - intros pre id post segment Hpre Hget Hex Hrules.
    rewrite (passedOver_skip _ _ _ _ _ Hpre).
    rewrite isTargetIncludedOrExcludedInSegment_cons.
    rewrite Hget, Hex, Hrules.
    by destruct (inIncluded segment target).
  - intros l h rules rule post variation Hl Hs Hc Hout.
    rewrite (evaluateRules_unfold _ _ _ _ _ _ Hl), Hs.
    by rewrite (firstRuleOutcome_match _ _ _ _ _ _ (Hrule _ Hc) Hout).
Qed.

(** X10. A segment the provider does not find ends the resolution with
    false, whatever segments are listed after it: a [segmentMatch] clause
    on such a list does not match, and an override entry with such a list
    that does not list the target is passed over. *)
Theorem unknown_segment_ends_resolution (fuel : nat) (target : Target.t)
    (pre : list string) (id : string) (post : list string)
    (segment : rest.Segment.t) (err : error) :
  Forall (passedOver query fuel target) pre ->
  Query.GetSegment query id = (segment, Some err) ->
  isTargetIncludedOrExcludedInSegment query (S fuel)
    (pre ++ id :: post)%list target = Some false /\
  (forall clause,
     rest.Clause.Op clause = segmentMatchOperator ->
     rest.Clause.Values clause = (pre ++ id :: post)%list ->
     evaluateClause query (S fuel) (Some clause) target = Some false) /\
  (forall entry entries,
     listsTarget entry target = false ->
     rest.VariationMap.TargetSegments entry = Some (pre ++ id :: post)%list ->
     evaluateVariationMap query (S fuel) (entry :: entries) (Some target)
     = evaluateVariationMap query (S fuel) entries (Some target)).
Proof.
  intros Hpre Hget.
  assert (Hseg : isTargetIncludedOrExcludedInSegment query (S fuel)
                   (pre ++ id :: post)%list target = Some false).
  { rewrite (passedOver_skip _ _ _ _ _ Hpre).
    rewrite isTargetIncludedOrExcludedInSegment_cons. by rewrite Hget. }
  split; [exact Hseg|]. split.
  - intros clause Hop Hv. unfold evaluateClause, evaluateClauseWith.
    rewrite Hv, Hop.
    destruct (pre ++ id :: post)%list as [|v vs] eqn:E;
      [by destruct pre|].
    cbn. exact Hseg.
  - intros entry entries Hl Hts. unfold evaluateVariationMap.
    rewrite evaluateVariationMapLoop_cons, Hl.
    unfold inTargetSegments. by rewrite Hts, Hseg.
Qed.

(** X11. A nil target is served the default of the flag: for an on-state
    flag neither the overrides nor the rules are consulted, the store is
    left as it is, and the answer needs neither the provider nor any
    fuel. *)
Theorem nil_target_gets_default (fuel : nat) (fc : rest.FeatureConfig.t)
    (h : Heap) :
  rest.FeatureConfig.State fc = rest.FeatureStateOn ->
  evaluateFlag query fuel fc None h
  = Some (serveVariation fc
            (firstNonEmpty [defaultServeDistribution fc None;
                            defaultServeVariation fc]), h) /\
  (forall variationsMap,
     evaluateVariationMap query fuel variationsMap None = Some "") /\
  (forall servingRules,
     evaluateRules query fuel servingRules None h = Some ("", h)) /\
  (forall query' fuel',
     evaluateFlag query' fuel' fc None h = evaluateFlag query fuel fc None h).
Proof.
  intros Hon.
  assert (H : forall q f,
            evaluateFlag q f fc None h
            = Some (serveVariation fc
                      (firstNonEmpty [defaultServeDistribution fc None;
                                      defaultServeVariation fc]), h)).
  { intros q f. rewrite (evaluateFlag_on _ _ _ _ _ Hon).
    unfold overrideResolver, ruleResolver.
    destruct (rest.FeatureConfig.VariationToTargetMap fc);
      destruct (rest.FeatureConfig.Rules fc); reflexivity. }
  split; [apply H|]. split; [reflexivity|]. split; [reflexivity|].
  intros query' fuel'. by rewrite !H.
Qed.

End OverrideFacts.

(** X8 on the deployment: of two entries that list u1 the first one wins,
    after an entry for u2 that is passed over. *)
Lemma override_first_match_witness :
  evaluateVariationMap (rt := Fixture.runtime) Fixture.query 1
    [rest.VariationMap.mk "three"
       (Some [rest.TargetMap.mk "u2" "User Two"]) (Some ["free"]);
     rest.VariationMap.mk "one"
       (Some [rest.TargetMap.mk "u1" "User One"]) (Some ["nowhere"]);
     rest.VariationMap.mk "two"
       (Some [rest.TargetMap.mk "u1" "User One"]) None]
    (Some Fixture.u1)
  = Some "one".
Proof.
  refine (proj1 (override_first_match (rt := Fixture.runtime)
                   Fixture.query 1
                   [rest.VariationMap.mk "three"
                      (Some [rest.TargetMap.mk "u2" "User Two"])
                      (Some ["free"])]
                   (rest.VariationMap.mk "one"
                      (Some [rest.TargetMap.mk "u1" "User One"])
                      (Some ["nowhere"]))
                   [rest.VariationMap.mk "two"
                      (Some [rest.TargetMap.mk "u1" "User One"]) None]
                   Fixture.u1 _) eq_refl).
  repeat constructor.
Defined.

(** X9 on a provider whose only segment has an empty rule list: u2, whom
    nothing else includes, is in it. *)
Lemma empty_clauses_match_witness :
  isTargetIncludedOrExcludedInSegment (rt := Fixture.runtime)
    (Query.mk
       (fun _ => (rest.Segment.mk "all" "All" None None (Some []), None))
       Fixture.getFlag)
    1 ["all"] Fixture.u2
  = Some true.
Proof.
  exact (proj1 (proj2
           (empty_clauses_match (rt := Fixture.runtime)
              (Query.mk
                 (fun _ =>
                    (rest.Segment.mk "all" "All" None None (Some []), None))
                 Fixture.getFlag)
              0 Fixture.u2))
           [] "all" [] _ (List.Forall_nil _) eq_refl eq_refl eq_refl).
Defined.

(** X10 on the deployment: [beta] includes u1, but not when a segment the
    provider does not know is listed before it. *)
Lemma unknown_segment_ends_resolution_witness :
  isTargetIncludedOrExcludedInSegment (rt := Fixture.runtime)
    Fixture.query 1 ["beta"] Fixture.u1 = Some true /\
  isTargetIncludedOrExcludedInSegment (rt := Fixture.runtime)
    Fixture.query 1 ["nowhere"; "beta"] Fixture.u1 = Some false.
Proof.
  split; [reflexivity|].
  exact (proj1 (unknown_segment_ends_resolution (rt := Fixture.runtime)
                  Fixture.query 0 Fixture.u1 [] "nowhere" ["beta"]
                  Fixture.noSegment (ErrProvider "segment not found")
                  (List.Forall_nil _) eq_refl)).
Defined.

(** X11 on the deployment: [tiered] overrides u1 and has rules, and
    serves its default "three" to a nil target without sorting the
    rules. *)
Lemma nil_target_gets_default_witness :
  evaluateFlag (rt := Fixture.runtime) Fixture.query 0 Fixture.flagTiered
    None Fixture.rulesAt1
  = Some ((rest.Variation.mk "three" "3", None), Fixture.rulesAt1).
Proof.
  exact (proj1 (nil_target_gets_default (rt := Fixture.runtime)
                  Fixture.query 0 Fixture.flagTiered Fixture.rulesAt1
                  eq_refl)).
Defined.

(** ** The orchestrator, once more *)

Section OrchestratorFacts.
Context {rt : Runtime.t}.

Lemma findVariation_found variations identifier v :
  findVariation variations identifier = (v, None) ->
  In v variations /\ rest.Variation.Identifier v = identifier.
Proof.
  induction variations as [|x variations IH]; unfold findVariation;
    fold findVariation; [discriminate|].
  destruct (String.eqb_spec (rest.Variation.Identifier x) identifier)
    as [Hx|_].
  - intros [= <-]. split; [by left|exact Hx].
  - intros H. destruct (IH H) as [Hin Hid]. split; [by right|exact Hid].
Qed.

Lemma serveVariation_found fc variation v :
  serveVariation fc variation = (v, None) ->
  In v (rest.FeatureConfig.Variations fc) /\
  rest.Variation.Identifier v = variation /\
  variation <> "".
Proof.
  unfold serveVariation.
  destruct (String.eqb_spec variation "") as [->|Hne]; cbn [negb];
    [discriminate|].
  intros H. destruct (findVariation_found _ _ _ H). by repeat split.
Qed.

Lemma evaluateFlag_found query fuel fc target h v h' :
  evaluateFlag query fuel fc target h = Some ((v, None), h') ->
  In v (rest.FeatureConfig.Variations fc) /\
  rest.Variation.Identifier v <> "".
Proof.
  assert (Hs : forall variation,
            serveVariation fc variation = (v, None) ->
            In v (rest.FeatureConfig.Variations fc) /\
            rest.Variation.Identifier v <> "").
  { intros variation H.
    destruct (serveVariation_found _ _ _ H) as (Hin & Hid & Hne).
    split; [exact Hin|congruence]. }
  destruct (String.eqb_spec (rest.FeatureConfig.State fc)
              rest.FeatureStateOn) as [Hon|Hoff].
  - rewrite (evaluateFlag_on _ _ _ _ _ Hon).
    destruct (overrideResolver query fuel fc target) as [a|];
      [|discriminate].
    destruct (String.eqb a "").
    + destruct (ruleResolver query fuel fc target h) as [[b h1]|];
        [|discriminate].
      intros [= E _]. exact (Hs _ E).
    + intros [= E _]. exact (Hs _ E).
  - rewrite (evaluateFlag_off _ _ _ _ _ Hoff).
    intros [= E _]. exact (Hs _ E).
Qed.

(** X12. The post-evaluation callback is called at most once by an
    evaluation, and exactly when a callback is registered, the
    prerequisite check has passed and the flag has been evaluated without
    error; it then receives the flag, the target and the variation that
    [evaluate] returns.  It is not called when [evaluate] returns an
    error, nor when a failed prerequisite check makes [evaluate] return
    the off variation. *)
Theorem callback_called_on_success_only (fuel : nat) (e : Evaluator.t)
    (identifier : string) (target : option Target.t) (kind : string)
    (h : Heap) (v : rest.Variation.t) (err : option error)
    (calls : list PostEvalData.t) (h' : Heap) :
  evaluate fuel e identifier target kind h = Some ((v, err), calls, h') ->
  (err <> None -> calls = []) /\
  (Evaluator.postEvalCallback e = false -> calls = []) /\
  (forall d,
     In d calls ->
     calls = [d] /\
     PostEvalData.Target d = target /\
     PostEvalData.Variation d = v /\
     exists query,
       Evaluator.query e = Some query /\
       Query.GetFlag query identifier = (PostEvalData.FeatureConfig d, None)) /\
  (forall query flag r h1,
     Evaluator.query e = Some query ->
     Query.GetFlag query identifier = (flag, None) ->
     rest.FeatureConfig.Kind flag = kind ->
     prerequisiteCheck fuel e flag target h = Some (r, h1) ->
     calls =
     if Evaluator.postEvalCallback e && prerequisitesHold r
        && match err with None => true | Some _ => false end
     then [PostEvalData.mk flag target v]
     else []).
Proof.
  intros E.
  assert (Hmain :
    calls = [] \/
    exists query flag r h1,
      Evaluator.query e = Some query /\
      Query.GetFlag query identifier = (flag, None) /\
      rest.FeatureConfig.Kind flag = kind /\
      prerequisiteCheck fuel e flag target h = Some (r, h1) /\
      prerequisitesHold r = true /\
      Evaluator.postEvalCallback e = true /\
      err = None /\
      calls = [PostEvalData.mk flag target v]).
  { revert E.
    case_eq (Evaluator.query e); [intros query Hq|intros Hq].
    2:{ rewrite (evaluate_no_provider _ _ _ _ _ _ Hq).
        intros [= _ _ <- _]. by left. }
    destruct (Query.GetFlag query identifier) as [flag [err0|]] eqn:Hget.
    { rewrite (evaluate_lookup_failure _ _ _ _ _ _ _ _ _ Hq Hget).
      intros [= _ _ <- _]. by left. }
    destruct (String.eqb_spec (rest.FeatureConfig.Kind flag) kind)
      as [Hk|Hk].
    2:{ rewrite (evaluate_kind_mismatch _ _ _ _ _ _ _ _ Hq Hget Hk).
        intros [= _ _ <- _]. by left. }
    rewrite (evaluate_found _ _ _ _ _ _ _ _ Hq Hget Hk).
    destruct (prerequisiteCheck fuel e flag target h) as [[r h1]|] eqn:Hc;
      [|discriminate].
    destruct (prerequisitesHold r) eqn:Hh.
    - destruct (evaluateFlag query fuel flag target h1)
        as [[[v0 [err0|]] h2]|]; [| |discriminate].
      + intros [= _ _ <- _]. by left.
      + destruct (Evaluator.postEvalCallback e) eqn:Hcb.
        * intros [= <- <- <- _]. right.
          exists query, flag, r, h1. by repeat split.
        * intros [= _ _ <- _]. by left.
    - intros [= _ <- _]. by left. }
  split; [|split; [|split]].
  - intros Herr. destruct Hmain as [->|(q & f & r & h1 & H)];
      [reflexivity|].
    destruct H as (_ & _ & _ & _ & _ & _ & -> & _). contradiction.
  - intros Hcb. destruct Hmain as [->|(q & f & r & h1 & H)];
      [reflexivity|].
    destruct H as (_ & _ & _ & _ & _ & Hcb' & _). congruence.
  - intros d Hin. destruct Hmain as [->|(q & f & r & h1 & H)];
      [destruct Hin|].
    destruct H as (Hq & Hget & _ & _ & _ & _ & _ & ->).
    destruct Hin as [<-|[]].
    split; [reflexivity|]. split; [reflexivity|]. split; [reflexivity|].
    by exists q.
  - intros query flag r h1 Hq Hget Hk Hc.
    destruct Hmain as [->|(q' & f' & r' & h1' & H)].
    + revert E.
      rewrite (evaluate_found _ _ _ _ _ _ _ _ Hq Hget Hk), Hc.
      destruct (prerequisitesHold r); [|by rewrite andb_false_r].
      destruct (evaluateFlag query fuel flag target h1)
        as [[[v0 [err0|]] h2]|]; [| |discriminate].
      * intros [= _ <- _]. by rewrite andb_false_r.
      * destruct (Evaluator.postEvalCallback e); [discriminate|].
        by intros _.
    + destruct H as (Hq' & Hget' & _ & Hc' & Hh & Hcb & -> & ->).
      assert (q' = query) as -> by congruence.
      assert (f' = flag) as -> by congruence.
      assert (r' = r) as -> by congruence.
      by rewrite Hcb, Hh.
Qed.

(** X13. [evaluate] only serves what the flag lists: a variation it
    returns without error is one of the variations of the flag the
    provider returned for the identifier, of the kind asked for, and the
    string accessor returns the default of its caller or the value of
    such a variation.  [evaluateFlag] moreover never serves a variation
    whose identifier is empty. *)
Theorem evaluate_serves_listed_variation (fuel : nat) (e : Evaluator.t)
    (identifier : string) (target : option Target.t) (h : Heap) :
  (forall query fc v h',
     evaluateFlag query fuel fc target h = Some ((v, None), h') ->
     In v (rest.FeatureConfig.Variations fc) /\
     rest.Variation.Identifier v <> "") /\
  (forall kind v calls h',
     evaluate fuel e identifier target kind h = Some ((v, None), calls, h') ->
     exists query flag,
       Evaluator.query e = Some query /\
       Query.GetFlag query identifier = (flag, None) /\
       rest.FeatureConfig.Kind flag = kind /\
       In v (rest.FeatureConfig.Variations flag)) /\
  (forall d x calls h',
     StringVariation fuel e identifier target d h = Some (x, calls, h') ->
     x = d \/
     exists query flag v,
       Evaluator.query e = Some query /\
       Query.GetFlag query identifier = (flag, None) /\
       rest.FeatureConfig.Kind flag = "string" /\
       In v (rest.FeatureConfig.Variations flag) /\
       x = rest.Variation.Value v).
Proof.
  assert (Hev : forall kind v calls h',
    evaluate fuel e identifier target kind h = Some ((v, None), calls, h') ->
    exists query flag,
      Evaluator.query e = Some query /\
      Query.GetFlag query identifier = (flag, None) /\
      rest.FeatureConfig.Kind flag = kind /\
      In v (rest.FeatureConfig.Variations flag)).
  { intros kind v calls h'.
    case_eq (Evaluator.query e); [intros query Hq|intros Hq].
    2:{ by rewrite (evaluate_no_provider _ _ _ _ _ _ Hq). }
    destruct (Query.GetFlag query identifier) as [flag [err0|]] eqn:Hget.
    { by rewrite (evaluate_lookup_failure _ _ _ _ _ _ _ _ _ Hq Hget). }
    destruct (String.eqb_spec (rest.FeatureConfig.Kind flag) kind)
      as [Hk|Hk].
    2:{ by rewrite (evaluate_kind_mismatch _ _ _ _ _ _ _ _ Hq Hget Hk). }
    rewrite (evaluate_found _ _ _ _ _ _ _ _ Hq Hget Hk).
    destruct (prerequisiteCheck fuel e flag target h) as [[r h1]|];
      [|discriminate].
    destruct (prerequisitesHold r).
    - destruct (evaluateFlag query fuel flag target h1)
        as [[[v0 [err0|]] h2]|] eqn:Ef; [discriminate| |discriminate].
      intros [= <- _ _].
      exists query, flag. repeat split; try done.
      exact (proj1 (evaluateFlag_found _ _ _ _ _ _ _ Ef)).
    - intros [= Hf _ _].
      exists query, flag. repeat split; try done.
      exact (proj1 (findVariation_found _ _ _ Hf)). }
  split; [intros *; apply evaluateFlag_found|]. split; [exact Hev|].
  intros d x calls h'. unfold StringVariation.
  destruct (evaluate fuel e identifier target "string" h)
    as [[[[v err] calls0] h0]|] eqn:E; [|discriminate].
  cbn. destruct err as [err|].
  - intros [= <- _ _]. by left.
  - intros [= <- _ _]. right.
    destruct (Hev _ _ _ _ E) as (query & flag & Hq & Hget & Hk & Hin).
    by exists query, flag, v.
Qed.

(** X14. A prerequisite flag that is found but whose evaluation is an
    error, as when it resolves to a variation it does not list, is treated
    as satisfied and ends the check: the check answers true with no
    error, whatever the prerequisites after it are. *)
Theorem prerequisite_evaluation_error_ends_check (fuel : nat)
    (e : Evaluator.t) (query : Query.t) (fc : rest.FeatureConfig.t)
    (before : list rest.Prerequisite.t) (pre : rest.Prerequisite.t)
    (after : list rest.Prerequisite.t) (target : option Target.t)
    (h h0 h1 : Heap) (pfc : rest.FeatureConfig.t) (v : rest.Variation.t)
    (err : error) :
  Evaluator.query e = Some query ->
  rest.FeatureConfig.Prerequisites fc = Some (before ++ pre :: after)%list ->
  prerequisitesPass query fuel e target before h h0 ->
  Query.GetFlag query (rest.Prerequisite.Feature pre) = (pfc, None) ->
  evaluateFlag query (S fuel) pfc target h0 = Some ((v, Some err), h1) ->
  checkPreRequisite (S fuel) e fc target h = Some ((true, None), h1).
Proof.
  intros Hq Hp Hpass Hget Hev.
  rewrite (checkPreRequisite_unfold _ _ _ _ _ _ _ Hq Hp).
  rewrite (checkPreRequisiteLoop_reach _ _ _ _ _ _ _ _ Hpass).
  cbn [checkPreRequisiteLoop]. by rewrite Hget, Hev.
Qed.

Lemma checkPreRequisiteLoop_no_error query fuel check prerequisites target :
  (forall fc h b err h', check fc h = Some ((b, err), h') -> err = None) ->
  forall h b err h',
    checkPreRequisiteLoop query fuel check prerequisites target h
    = Some ((b, err), h') ->
    err = None.
Proof.
  intros Hcheck.
  induction prerequisites as [|pre prerequisites IH]; intros h b err h'.
  - by intros [= _ <- _].
  - cbn [checkPreRequisiteLoop].
    destruct (Query.GetFlag query (rest.Prerequisite.Feature pre))
      as [pfc [err0|]]; [by intros [= _ <- _]|].
    destruct (evaluateFlag query fuel pfc target h)
      as [[[v [err0|]] h1]|]; [by intros [= _ <- _]| |discriminate].
    destruct (negb (contains _ _)); [by intros [= _ <- _]|].
    destruct (check pfc h1) as [[[b0 err0] h2]|]; [|discriminate].
    destruct (negb b0); [by intros [= _ <- _]|apply IH].
Qed.

(** X15. [NewEvaluator] refuses to build an engine without a provider
    and otherwise returns an engine that has it; and [checkPreRequisite]
    returns an error only for an engine without a provider, in which case
    it answers true and touches nothing: on an engine built by
    [NewEvaluator], and inside [evaluate], the check never returns an
    error. *)
Theorem provider_is_always_there (postEvalCallback : bool) :
  NewEvaluator None postEvalCallback = (None, Some ErrQueryProviderMissing) /\
  (forall query e err,
     NewEvaluator query postEvalCallback = (e, err) ->
     match e, err with
     | Some e, None =>
       exists q, query = Some q /\ Evaluator.query e = Some q /\
                 Evaluator.postEvalCallback e = postEvalCallback
     | None, Some err => query = None /\ err = ErrQueryProviderMissing
     | _, _ => False
     end) /\
  (forall fuel e fc target h b err h',
     checkPreRequisite fuel e fc target h = Some ((b, Some err), h') ->
     Evaluator.query e = None /\ err = ErrQueryProviderMissing /\
     b = true /\ h' = h) /\
  (forall query e fuel fc target h b err h',
     NewEvaluator query postEvalCallback = (Some e, None) ->
     checkPreRequisite fuel e fc target h = Some ((b, err), h') ->
     err = None).
Proof.
  assert (Hcheck : forall fuel e fc target h b err h',
    checkPreRequisite fuel e fc target h = Some ((b, Some err), h') ->
    Evaluator.query e = None /\ err = ErrQueryProviderMissing /\
    b = true /\ h' = h).
  { induction fuel as [|fuel IH]; intros e fc target h b err h';
      [discriminate|].
    cbn [checkPreRequisite].
    destruct (Evaluator.query e) as [query|] eqn:Hq;
      [|by intros [= <- <- <-]].
    destruct (rest.FeatureConfig.Prerequisites fc) as [prerequisites|];
      [|discriminate].
    intros H. exfalso.
    assert (Some err = None); [|discriminate].
    refine (checkPreRequisiteLoop_no_error query (S fuel) _ prerequisites
              target _ h b (Some err) h' H).
    intros pfc h0 b0 [err0|] h0' H0; [|reflexivity].
    destruct (IH _ _ _ _ _ _ _ H0) as [Hn _]. congruence. }
  split; [reflexivity|]. split; [|split; [exact Hcheck|]].
  - intros [q|] e err; unfold NewEvaluator; intros [= <- <-];
      [by exists q|by split].
  - intros [q|] e fuel fc target h b [err|] h'; unfold NewEvaluator;
      intros [= <-]; [|reflexivity].
    intros H. destruct (Hcheck _ _ _ _ _ _ _ _ H) as [Hn _]. discriminate.
Qed.

End OrchestratorFacts.

(** X12 on the deployment: the engine has a callback; it is called once
    when [G] is served, and not when [F] is served its off variation
    because its prerequisite failed. *)
Lemma callback_called_on_success_only_witness :
  evaluate (rt := Fixture.runtime) 2 Fixture.engine "F" (Some Fixture.u1)
    "boolean" ∅
  = Some ((rest.Variation.mk "off" "false", None), [], ∅) /\
  evaluate (rt := Fixture.runtime) 2 Fixture.engine "G" (Some Fixture.u1)
    "boolean" ∅
  = Some ((rest.Variation.mk "on" "true", None),
          [PostEvalData.mk Fixture.flagG (Some Fixture.u1)
             (rest.Variation.mk "on" "true")], ∅) /\
  [PostEvalData.mk Fixture.flagG (Some Fixture.u1)
     (rest.Variation.mk "on" "true")]
  = (if Evaluator.postEvalCallback Fixture.engine
        && prerequisitesHold (true, None) && true
     then [PostEvalData.mk Fixture.flagG (Some Fixture.u1)
             (rest.Variation.mk "on" "true")]
     else []).
Proof.
  split; [reflexivity|]. split; [reflexivity|].
  exact (proj2 (proj2 (proj2
           (callback_called_on_success_only (rt := Fixture.runtime) 2
              Fixture.engine "G" (Some Fixture.u1) "boolean" ∅
              (rest.Variation.mk "on" "true") None _ ∅ eq_refl)))
           Fixture.query Fixture.flagG (true, None) ∅
           eq_refl eq_refl eq_refl eq_refl).
Defined.

(** X13 on the deployment: the variation [rollout] serves to u1 is one of
    its four. *)
Lemma evaluate_serves_listed_variation_witness :
  exists query flag,
    Evaluator.query Fixture.engine = Some query /\
    Query.GetFlag query "rollout" = (flag, None) /\
    rest.FeatureConfig.Kind flag = "int" /\
    In (rest.Variation.mk "one" "1") (rest.FeatureConfig.Variations flag).
Proof.
  exact (proj1 (proj2
           (evaluate_serves_listed_variation (rt := Fixture.runtime) 1
              Fixture.engine "rollout" (Some Fixture.u1) Fixture.rulesAt1))
           "int" (rest.Variation.mk "one" "1") _ _ eq_refl).
Defined.

(** X14 on the deployment: [hollow] is an error for u1; a flag that
    requires it, and then requires [Q] to serve "x", which it does not,
    passes its check. *)
Lemma prerequisite_evaluation_error_ends_check_witness :
  checkPreRequisite (rt := Fixture.runtime) 2 Fixture.engine
    (withPrerequisites Fixture.flagG
       (Some [rest.Prerequisite.mk "hollow" ["a"];
              rest.Prerequisite.mk "Q" ["x"]]))
    (Some Fixture.u1) ∅
  = Some ((true, None), ∅).
Proof.
  exact (prerequisite_evaluation_error_ends_check (rt := Fixture.runtime) 1
           Fixture.engine Fixture.query
           (withPrerequisites Fixture.flagG
              (Some [rest.Prerequisite.mk "hollow" ["a"];
                     rest.Prerequisite.mk "Q" ["x"]]))
           [] (rest.Prerequisite.mk "hollow" ["a"])
           [rest.Prerequisite.mk "Q" ["x"]] (Some Fixture.u1) ∅ ∅ ∅
           Fixture.flagHollow (rest.Variation.mk "" "")
           (ErrEvaluationFlag "hollow")
           eq_refl eq_refl eq_refl eq_refl eq_refl).
Defined.

(** X15 on the deployment: [NewEvaluator] with the provider of the
    deployment builds its engine. *)
Lemma provider_is_always_there_witness :
  NewEvaluator (Some Fixture.query) true = (Some Fixture.engine, None) /\
  forall fuel fc target h b err h',
    checkPreRequisite (rt := Fixture.runtime) fuel Fixture.engine fc target h
    = Some ((b, err), h') ->
    err = None.
Proof.
  split; [reflexivity|].
  intros fuel fc target h b err h'.
  exact (proj2 (proj2 (proj2
           (provider_is_always_there (rt := Fixture.runtime) true)))
           (Some Fixture.query) Fixture.engine fuel fc target h b err h'
           eq_refl).
Defined.


(** ** Why a check fails *)

Section HeldBackFacts.
Context {rt : Runtime.t}.

Lemma checkPreRequisite_false_heldBack fuel e query target h0 :
  Evaluator.query e = Some query ->
  forall fc h err h',
    checkPreRequisite fuel e fc target h = Some ((false, err), h') ->
    onlySorted h0 h ->
    heldBack query target h0 fc.
Proof.
  intros Hq. induction fuel as [|fuel IH]; intros fc h err h';
    [discriminate|].
  cbn [checkPreRequisite]. rewrite Hq.
  destruct (rest.FeatureConfig.Prerequisites fc) as [prerequisites|] eqn:Hp;
    [|discriminate].
  assert (Hloop : forall l h,
    (forall pre, In pre l -> In pre prerequisites) ->
    checkPreRequisiteLoop query (S fuel)
      (fun pfc h => checkPreRequisite fuel e pfc target h) l target h
    = Some ((false, err), h') ->
    onlySorted h0 h ->
    heldBack query target h0 fc).
  { clear h. induction l as [|pre l IHl]; intros h Hsub; [discriminate|].
    cbn [checkPreRequisiteLoop].
    destruct (Query.GetFlag query (rest.Prerequisite.Feature pre))
      as [pfc [err0|]] eqn:Hget; [discriminate|].
    destruct (evaluateFlag query (S fuel) pfc target h)
      as [[[v [err0|]] h1]|] eqn:Ef; [discriminate| |discriminate].
    pose proof (evaluateFlag_frame _ _ _ _ _ _ _ Ef) as F1.
    destruct (contains (rest.Prerequisite.Variations pre)
                (rest.Variation.Identifier v)) eqn:Hc; cbn [negb].
    - destruct (checkPreRequisite fuel e pfc target h1)
        as [[[b err0] h2]|] eqn:Ec; [|discriminate].
      destruct b; cbn [negb].
      + intros E H0. apply (IHl h2); [|exact E|].
        * intros pre' Hin. apply Hsub. by right.
        * exact (onlySorted_trans _ _ _ (onlySorted_trans _ _ _ H0 F1)
                   (checkPreRequisite_frame _ _ _ _ _ _ _ Ec)).
      + intros _ H0.
        apply (heldBack_below query target h0 fc prerequisites pre pfc Hp
                 (Hsub pre (or_introl eq_refl)) Hget).
        exact (IH _ _ _ _ Ec (onlySorted_trans _ _ _ H0 F1)).
    - intros _ H0.
      exact (heldBack_here query target h0 fc prerequisites pre pfc
               (S fuel) h v h1 Hp (Hsub pre (or_introl eq_refl)) Hget H0
               Ef Hc). }
  apply Hloop. auto.
Qed.

Lemma checkPreRequisite_no_error fuel e query :
  Evaluator.query e = Some query ->
  forall fc target h b err h',
    checkPreRequisite fuel e fc target h = Some ((b, err), h') ->
    err = None.
Proof.
  intros Hq. induction fuel as [|fuel IH]; intros fc target h b err h';
    [discriminate|].
  cbn [checkPreRequisite]. rewrite Hq.
  destruct (rest.FeatureConfig.Prerequisites fc) as [l|];
    [|by intros [= _ <- _]].
  apply checkPreRequisiteLoop_no_error. intros pfc h0. apply IH.
Qed.

(** X16. The prerequisite check fails only for cause: when it answers
    false, some flag down the prerequisites of the flag is found by the
    provider and served, by [evaluateFlag], a variation that the
    prerequisite on it does not allow; and then [evaluate] serves the off
    variation of the flag.  A flag that the provider does not find, or
    whose evaluation is an error, never makes the check fail. *)
Theorem check_fails_only_for_cause (fuel : nat) (e : Evaluator.t)
    (query : Query.t) (fc : rest.FeatureConfig.t)
    (target : option Target.t) (h : Heap) (err : option error) (h' : Heap) :
  Evaluator.query e = Some query ->
  checkPreRequisite fuel e fc target h = Some ((false, err), h') ->
  heldBack query target h fc /\
  err = None /\
  (forall identifier,
     Query.GetFlag query identifier = (fc, None) ->
     evaluate fuel e identifier target (rest.FeatureConfig.Kind fc) h
     = Some (findVariation (rest.FeatureConfig.Variations fc)
               (rest.FeatureConfig.OffVariation fc), [], h')).
Proof.
  intros Hq Hc.
  split; [|split].
  - exact (checkPreRequisite_false_heldBack _ _ _ _ _ Hq _ _ _ _ Hc
             (onlySorted_refl h)).
  - exact (checkPreRequisite_no_error _ _ _ Hq _ _ _ _ _ _ Hc).
  - intros identifier Hget.
    rewrite (evaluate_found fuel e query identifier target _ h fc
               Hq Hget eq_refl).
    unfold prerequisiteCheck.
    destruct (rest.FeatureConfig.Prerequisites fc) eqn:Hp.
    + rewrite Hc. by destruct err.
    + destruct fuel as [|fuel]; [discriminate|].
      revert Hc. cbn [checkPreRequisite]. by rewrite Hq, Hp.
Qed.

End HeldBackFacts.

(** X16 on the deployment: the check of [F] fails, and [F] is held back
    by [P], which serves u1 "on" where [F] allows "off". *)
Lemma check_fails_only_for_cause_witness :
  checkPreRequisite (rt := Fixture.runtime) 2 Fixture.engine Fixture.flagF
    (Some Fixture.u1) ∅ = Some ((false, None), ∅) /\
  heldBack (rt := Fixture.runtime) Fixture.query (Some Fixture.u1) ∅
    Fixture.flagF.
Proof.
  split; [reflexivity|].
  exact (proj1 (check_fails_only_for_cause (rt := Fixture.runtime) 2
                  Fixture.engine Fixture.query Fixture.flagF
                  (Some Fixture.u1) ∅ None ∅ eq_refl eq_refl)).
Defined.

(** ** Where a result comes from *)

Section OriginFacts.
Context {rt : Runtime.t} (query : Query.t).

Lemma firstRuleOutcome_origin fuel rules target v :
  firstRuleOutcome query fuel rules target = Some v ->
  (exists pre rule post,
     rules = (pre ++ rule :: post)%list /\
     Forall (ruleSkipped query fuel target) pre /\
     evaluateRule query fuel rule target = Some true /\
     ruleOutcome rule target = Some v) \/
  (v = "" /\ Forall (ruleSkipped query fuel target) rules).
Proof.
  induction rules as [|rule rules IH].
  - intros [= <-]. right. by split.
  - cbn [firstRuleOutcome].
    destruct (evaluateRule query fuel rule target) as [[|]|] eqn:Er;
      cbn; [| |discriminate].
    + destruct (ruleOutcome rule target) as [out|] eqn:Eo.
      * intros E. left. exists [], rule, rules.
        split; [reflexivity|]. split; [constructor|]. split; [exact Er|].
        revert E Eo. unfold ruleOutcome.
        destruct (rest.Serve.Distribution (rest.ServingRule.Serve rule));
          [by intros [= <-] [= <-]|].
        destruct (rest.Serve.Variation (rest.ServingRule.Serve rule));
          [by intros [= <-] [= <-]|discriminate].
      * assert (Hskip : ruleSkipped query fuel target rule) by by right.
        intros E.
        assert (E' : firstRuleOutcome query fuel rules target = Some v).
        { revert E Eo. unfold ruleOutcome.
          destruct (rest.Serve.Distribution (rest.ServingRule.Serve rule));
            [discriminate|].
          by destruct (rest.Serve.Variation (rest.ServingRule.Serve rule)). }
        destruct (IH E') as [(pre & r & post & -> & Hpre & Hr & Ho)|[-> Hall]].
        -- left. exists (rule :: pre), r, post.
           split; [reflexivity|]. split; [by constructor|]. by split.
        -- right. split; [reflexivity|by constructor].
    + assert (Hskip : ruleSkipped query fuel target rule) by by left.
      intros E.
      destruct (IH E) as [(pre & r & post & -> & Hpre & Hr & Ho)|[-> Hall]].
      * left. exists (rule :: pre), r, post.
        split; [reflexivity|]. split; [by constructor|]. by split.
      * right. split; [reflexivity|by constructor].
Qed.

(** X17. Whatever the rule resolver returns comes from a rule: when it
    answers for a target and a stored rule list, either the result is the
    outcome of a rule whose clauses all match, and every rule before it
    in the order of priorities does not match or serves nothing, or the
    result is empty and that is so of every rule. *)
Theorem rule_result_has_origin (fuel : nat) (servingRules : loc)
    (target : Target.t) (h : Heap) (rules : list rest.ServingRule.t)
    (v : string) (h' : Heap) :
  h !! servingRules = Some rules ->
  evaluateRules query fuel servingRules (Some target) h = Some (v, h') ->
  h' = <[servingRules := sortSliceStable lessPriority rules]> h /\
  ((exists pre rule post,
      sortSliceStable lessPriority rules = (pre ++ rule :: post)%list /\
      Forall (ruleSkipped query fuel target) pre /\
      evaluateRule query fuel rule target = Some true /\
      ruleOutcome rule target = Some v /\
      In rule rules) \/
   (v = "" /\ Forall (ruleSkipped query fuel target) rules)).
Proof.
  intros Hl. rewrite (evaluateRules_unfold _ _ _ _ _ _ Hl).
  destruct (firstRuleOutcome query fuel _ target) as [v0|] eqn:E;
    [|discriminate].
  intros [= <- <-]. split; [reflexivity|].
  destruct (firstRuleOutcome_origin _ _ _ _ E)
    as [(pre & rule & post & Hs & Hpre & Hr & Ho)|[-> Hall]].
  - left. exists pre, rule, post. repeat split; try done.
    apply (Permutation_in _ (sortSliceStable_perm rules)).
    rewrite Hs. apply in_or_app. right. by left.
  - right. split; [reflexivity|].
    exact (Permutation_Forall (sortSliceStable_perm rules) Hall).
Qed.

Lemma evaluateVariationMapLoop_origin fuel entries target v :
  evaluateVariationMapLoop query fuel entries target = Some v ->
  (exists pre entry post,
     entries = (pre ++ entry :: post)%list /\
     Forall (entrySkipped query fuel target) pre /\
     (listsTarget entry target = true \/
      inTargetSegments query fuel entry target = Some true) /\
     v = rest.VariationMap.Variation entry) \/
  (v = "" /\ Forall (entrySkipped query fuel target) entries).
Proof.
  induction entries as [|entry entries IH].
  - intros [= <-]. right. by split.
  - rewrite evaluateVariationMapLoop_cons.
    destruct (listsTarget entry target) eqn:Hl.
    + intros [= <-]. left. exists [], entry, entries.
      split; [reflexivity|]. split; [constructor|]. split; [by left|done].
    + destruct (inTargetSegments query fuel entry target) as [[|]|] eqn:Hs;
        [| |discriminate].
      * intros [= <-]. left. exists [], entry, entries.
        split; [reflexivity|]. split; [constructor|].
        split; [by right|done].
      * assert (Hskip : entrySkipped query fuel target entry) by by split.
        intros E.
        destruct (IH E) as [(pre & x & post & -> & Hpre & Hx & ->)|[-> Hall]].
        -- left. exists (entry :: pre), x, post.
           split; [reflexivity|]. split; [by constructor|]. by split.
        -- right. split; [reflexivity|by constructor].
Qed.

(** X18. Whatever the override resolver returns comes from an entry: when
    it answers for a target, either the result is the variation of an
    entry that lists the target or has a segment that includes it, and
    every entry before it does neither, or the result is empty and no
    entry does. *)
Theorem override_result_has_origin (fuel : nat)
    (variationsMap : list rest.VariationMap.t) (target : Target.t)
    (v : string) :
  evaluateVariationMap query fuel variationsMap (Some target) = Some v ->
  (exists pre entry post,
     variationsMap = (pre ++ entry :: post)%list /\
     Forall (entrySkipped query fuel target) pre /\
     (listsTarget entry target = true \/
      inTargetSegments query fuel entry target = Some true) /\
     v = rest.VariationMap.Variation entry) \/
  (v = "" /\ Forall (entrySkipped query fuel target) variationsMap).
Proof. apply evaluateVariationMapLoop_origin. Qed.

End OriginFacts.

(** X17 on the deployment: the variation "one" that the rules serve to u1
    comes from one of the three rules. *)
Lemma rule_result_has_origin_witness :
  exists pre rule post,
    sortSliceStable lessPriority
      [Fixture.rule3; Fixture.rule1; Fixture.rule2]
    = (pre ++ rule :: post)%list /\
    Forall (ruleSkipped (rt := Fixture.runtime) Fixture.query 1 Fixture.u1)
      pre /\
    evaluateRule (rt := Fixture.runtime) Fixture.query 1 rule Fixture.u1
    = Some true /\
    ruleOutcome (rt := Fixture.runtime) rule Fixture.u1 = Some "one" /\
    In rule [Fixture.rule3; Fixture.rule1; Fixture.rule2].
Proof.
  destruct (rule_result_has_origin (rt := Fixture.runtime) Fixture.query 1
              1%positive Fixture.u1 Fixture.rulesAt1
              [Fixture.rule3; Fixture.rule1; Fixture.rule2] "one" _
              eq_refl eq_refl) as [_ [H|[H _]]];
    [exact H|discriminate H].
Defined.

(** X18 on the deployment: the override "two" of [tiered] for u1 comes
    from its entry. *)
Lemma override_result_has_origin_witness :
  exists pre entry post,
    [rest.VariationMap.mk "two"
       (Some [rest.TargetMap.mk "u1" "User One"]) None]
    = (pre ++ entry :: post)%list /\
    Forall (entrySkipped (rt := Fixture.runtime) Fixture.query 1 Fixture.u1)
      pre /\
    (listsTarget entry Fixture.u1 = true \/
     inTargetSegments (rt := Fixture.runtime) Fixture.query 1 entry
       Fixture.u1 = Some true) /\
    "two" = rest.VariationMap.Variation entry.
Proof.
  destruct (override_result_has_origin (rt := Fixture.runtime)
              Fixture.query 1
              [rest.VariationMap.mk "two"
                 (Some [rest.TargetMap.mk "u1" "User One"]) None]
              Fixture.u1 "two" eq_refl) as [H|[H _]];
    [exact H|discriminate H].
Defined.

(** ** Stores that differ by a sort

    The rule lists are sorted before they are read, so an answer does not
    depend on whether a list of the store has been sorted already. *)

Section StoreFacts.
Context {rt : Runtime.t}.



Lemma onlySorted_sameSorted h k : onlySorted h k -> sameSorted h k.
Proof.
  intros H l. destruct (H l) as [E|(rules & E1 & E2)].
  - by rewrite E.
  - rewrite E1, E2. cbn. f_equal. symmetry. apply sortSliceStable_idem.
Qed.


Lemma evaluateRules_sameSorted query fuel servingRules target h k v h' :
  sameSorted h k ->
  evaluateRules query fuel servingRules target h = Some (v, h') ->
  exists k', evaluateRules query fuel servingRules target k = Some (v, k').
Proof.
  intros Hs. unfold evaluateRules.
  destruct target as [target|]; [|intros [= <- _]; by eexists].
  pose proof (Hs servingRules) as Hl.
  destruct (h !! servingRules) as [rules|];
    destruct (k !! servingRules) as [rules'|]; cbn in Hl; try discriminate.
  - injection Hl as Hl. rewrite <- Hl.
    destruct (firstRuleOutcome query fuel _ target) as [v0|];
      [|discriminate].
    cbn. intros [= <- _]. by eexists.
  - intros [= <- _]. by eexists.
Qed.

Lemma evaluateFlag_sameSorted query fuel fc target h k r h' :
  sameSorted h k ->
  evaluateFlag query fuel fc target h = Some (r, h') ->
  exists k', evaluateFlag query fuel fc target k = Some (r, k').
Proof.
  intros Hs.
  destruct (String.eqb_spec (rest.FeatureConfig.State fc)
              rest.FeatureStateOn) as [Hon|Hoff].
  - rewrite !(evaluateFlag_on _ _ _ _ _ Hon).
    destruct (overrideResolver query fuel fc target) as [a|]; [|discriminate].
    destruct (String.eqb a ""); [|intros [= <- _]; by eexists].
    unfold ruleResolver.
    destruct (rest.FeatureConfig.Rules fc) as [rules|];
      [|intros [= <- _]; by eexists].
    destruct (evaluateRules query fuel rules target h) as [[b h1]|] eqn:E;
      [|discriminate].
    intros [= <- <-].
    destruct (evaluateRules_sameSorted _ _ _ _ _ _ _ _ Hs E) as [k' ->].
    by eexists.
  - rewrite !(evaluateFlag_off _ _ _ _ _ Hoff). intros [= <- _]. by eexists.
Qed.



(** What [evaluateFlag] serves at one depth on one store is all it ever
    serves, at any depth, on the stores that differ from it by a sort. *)
Lemma evaluateFlag_one_answer query depth fuel fc target h0 h r0 r h1 h' :
  evaluateFlag query depth fc target h0 = Some (r0, h1) ->
  sameSorted h0 h ->
  evaluateFlag query fuel fc target h = Some (r, h') ->
  r = r0.
Proof.
  intros E0 Hs E.
  pose proof (evaluateFlag_mono _ _ (Nat.max depth fuel) _ _ _ _
                (Nat.le_max_l _ _) E0) as E0'.
  pose proof (evaluateFlag_mono _ _ (Nat.max depth fuel) _ _ _ _
                (Nat.le_max_r _ _) E) as E'.
  destruct (evaluateFlag_sameSorted _ _ _ _ _ _ _ _ Hs E0') as [k' Ek].
  congruence.
Qed.

End StoreFacts.

(** ** The outcome of the prerequisite check *)

Section OutcomeFacts.
Context {rt : Runtime.t}.





(** X5. A flag whose first prerequisite is the flag itself, and which is
    served, at some depth and on some store, a variation that prerequisite
    allows, never passes or fails its check: whatever the depth allowed,
    on that store and on every store evaluations make of it, the check is
    still descending, and [evaluate] does not answer for that flag. *)
Theorem prerequisite_cycle_never_answers (e : Evaluator.t)
    (query : Query.t) (fc : rest.FeatureConfig.t)
    (pre : rest.Prerequisite.t) (prerequisites : list rest.Prerequisite.t)
    (target : option Target.t) (depth : nat) (h0 h1 : Heap)
    (v : rest.Variation.t) :
  Evaluator.query e = Some query ->
  rest.FeatureConfig.Prerequisites fc = Some (pre :: prerequisites) ->
  Query.GetFlag query (rest.Prerequisite.Feature pre) = (fc, None) ->
  evaluateFlag query depth fc target h0 = Some ((v, None), h1) ->
  contains (rest.Prerequisite.Variations pre) (rest.Variation.Identifier v)
  = true ->
  forall fuel h,
    onlySorted h0 h ->
    checkPreRequisite fuel e fc target h = None /\
    forall identifier,
      Query.GetFlag query identifier = (fc, None) ->
      evaluate fuel e identifier target (rest.FeatureConfig.Kind fc) h
      = None.
Proof.
  intros Hq Hp Hget Hserve Hc.
  assert (Hcheck : forall fuel h,
            onlySorted h0 h -> checkPreRequisite fuel e fc target h = None).
  { induction fuel as [|fuel IH]; intros h Hh; [reflexivity|].
    rewrite (checkPreRequisite_unfold _ _ _ _ _ _ _ Hq Hp).
    cbn [checkPreRequisiteLoop]. rewrite Hget.
    destruct (evaluateFlag query (S fuel) fc target h)
      as [[r h']|] eqn:Ef; [|reflexivity].
    rewrite (evaluateFlag_one_answer _ _ _ _ _ _ _ _ _ _ _ Hserve
               (onlySorted_sameSorted _ _ Hh) Ef).
    rewrite Hc. cbn [negb].
    rewrite (IH h'); [reflexivity|].
    exact (onlySorted_trans _ _ _ Hh (evaluateFlag_frame _ _ _ _ _ _ _ Ef)). }
  intros fuel h Hh. split; [by apply Hcheck|].
  intros identifier Hflag.
  rewrite (evaluate_found fuel e query identifier target _ h fc
             Hq Hflag eq_refl).
  unfold prerequisiteCheck. by rewrite Hp, Hcheck.
Qed.

End OutcomeFacts.



(** X5 on a deployment: [mirror] serves u1 "on" through the segment
    [inner], which takes one level of depth, and requires itself to serve
    "on"; [evaluate] has not answered for it at depth 1000. *)
Lemma prerequisite_cycle_never_answers_witness :
  evaluateFlag (rt := Fixture.runtime) Mirror.query 0 Mirror.flagMirror
    (Some Fixture.u1) ∅ = None /\
  evaluateFlag (rt := Fixture.runtime) Mirror.query 1 Mirror.flagMirror
    (Some Fixture.u1) ∅
  = Some ((rest.Variation.mk "on" "true", None), ∅) /\
  evaluate (rt := Fixture.runtime) 1000 Mirror.engine "mirror"
    (Some Fixture.u1) "boolean" ∅ = None.
Proof.
  split; [reflexivity|]. split; [reflexivity|].
  exact (proj2
           (prerequisite_cycle_never_answers (rt := Fixture.runtime)
              Mirror.engine Mirror.query Mirror.flagMirror
              (rest.Prerequisite.mk "mirror" ["on"]) []
              (Some Fixture.u1) 1 ∅ ∅ (rest.Variation.mk "on" "true")
              eq_refl eq_refl eq_refl eq_refl eq_refl
              1000 ∅ (onlySorted_refl ∅))
           "mirror" eq_refl).
Defined.
